(** * ai-robot-sim: the simulation core of [RobotScene.tsx]

    A shallow embedding of the per-frame motion integrator, the collision
    resolver, the dust-particle pool, the LCD expression renderer and the
    two camera capture routines of [src/components/RobotScene.tsx].

    Numbers.  A JavaScript [number] is modelled as a real ([R]): the
    arithmetic of the source is read as exact arithmetic, [Math.sqrt],
    [Math.sin] and [Math.cos] as the real functions.  Rounding, infinities
    and NaN are outside that reading; where a result turns on them, the
    module [Double] repeats the collision resolver and the velocity
    blocks in binary64 arithmetic. *)

From Stdlib Require Import Reals Lra Lia List Bool String Ascii ZArith Arith.
From Stdlib Require Import Rgeom Permutation.
From Stdlib Require Floats.
Import ListNotations.

Local Open Scope R_scope.

(* ================================================================== *)
(** * JavaScript numeric primitives *)
(* ================================================================== *)

Module JS.

(** Comparisons of numbers, as booleans. *)
Definition lt (a b : R) : bool := if Rlt_dec a b then true else false.
Definition gt (a b : R) : bool := lt b a.
Definition ge (a b : R) : bool := if Rle_dec b a then true else false.
Definition strictEq (a b : R) : bool := if Req_dec_T a b then true else false.
Definition strictNe (a b : R) : bool := negb (strictEq a b).

(** [Math.sign]: 1, -1 or 0. *)
Definition sign (v : R) : R :=
  if Rlt_dec 0 v then 1 else if Rlt_dec v 0 then -1 else 0.

(** [Math.abs], [Math.max], [Math.min], [Math.sqrt]. *)
Definition abs : R -> R := Rabs.
Definition max : R -> R -> R := Rmax.
Definition min : R -> R -> R := Rmin.
Definition sqrt : R -> R := R_sqrt.sqrt.

(** [a || b] on numbers: [b] when [a] is undefined or zero. *)
Definition orElse (a : option R) (b : R) : R :=
  match a with
  | Some v => if Req_dec_T v 0 then b else v
  | None => b
  end.

(** [a / b] with the division that has no real value made visible. *)
Definition divide (a b : R) : option R :=
  if Req_dec_T b 0 then None else Some (a / b).

End JS.

(** Case analysis on every comparison left in the goal. *)
Ltac js_cases :=
  repeat match goal with
         | |- context [Rlt_dec ?a ?b] => destruct (Rlt_dec a b)
         | |- context [Rle_dec ?a ?b] => destruct (Rle_dec a b)
         | |- context [Req_dec_T ?a ?b] => destruct (Req_dec_T a b)
         end.

(* ================================================================== *)
(** * Constants ([RobotScene.tsx], lines 25 to 47) *)
(* ================================================================== *)

Module PHYSICS.
Definition maxSpeed : R := 2.2.
Definition acceleration : R := 4.0.
Definition deceleration : R := 5.0.
Definition friction : R := 3.0.
Definition maxTurnSpeed : R := 2.2.
Definition turnAccel : R := 6.0.
Definition turnFriction : R := 8.0.
Definition headTurnSpeed : R := 2.5.
Definition headFriction : R := 6.0.
Definition headMaxRotation : R := 1.2.
Definition tiltAmount : R := 0.08.
Definition leanAmount : R := 0.06.
Definition tiltSmoothing : R := 8.0.
Definition leanSmoothing : R := 10.0.
Definition suspensionStiffness : R := 80.0.
Definition suspensionDamping : R := 8.0.
Definition bumpForce : R := 0.015.
Definition wheelRadius : R := 0.3.
End PHYSICS.

Definition ROBOT_RADIUS : R := 0.5.
Definition COLLISION_PADDING : R := 0.1.

(* ================================================================== *)
(** * Obstacle registry and collision resolver *)
(* ================================================================== *)

(** An entry of [collidableObjects]:
    [{mesh?, type, radius?, x?, z?}].  Of a mesh only its position in the
    ground plane is read. *)
Module Collidable.
Record t : Type := mk {
  mesh : option (R * R);
  type : string;
  radius : option R;
  x : option R;
  z : option R
}.
End Collidable.

(** The value [{x, z, collision}] the collision passes return. *)
Module Outcome.
Record t : Type := mk { x : R; z : R; collision : bool }.
End Outcome.

(** The value [{x, z}] of the wall clamp. *)
Module Point.
Record t : Type := mk { x : R; z : R }.
End Point.

Definition isWall (obj : Collidable.t) : bool :=
  String.eqb (Collidable.type obj) "wall".

(** [obj.x !== undefined ? obj.x : (obj.mesh ? obj.mesh.position.x : 0)] *)
Definition objX (obj : Collidable.t) : R :=
  match Collidable.x obj with
  | Some v => v
  | None => match Collidable.mesh obj with Some p => fst p | None => 0 end
  end.

Definition objZ (obj : Collidable.t) : R :=
  match Collidable.z obj with
  | Some v => v
  | None => match Collidable.mesh obj with Some p => snd p | None => 0 end
  end.

(** [obj.radius || 0.5] *)
Definition objR (obj : Collidable.t) : R :=
  JS.orElse (Collidable.radius obj) 0.5.

Definition robotR : R := ROBOT_RADIUS + COLLISION_PADDING.

(** [Math.sqrt(dx * dx + dz * dz)] for the proposed point and [obj]. *)
Definition distanceTo (obj : Collidable.t) (newX newZ : R) : R :=
  let dx := newX - objX obj in
  let dz := newZ - objZ obj in
  JS.sqrt (dx * dx + dz * dz).

Definition minDistOf (obj : Collidable.t) : R := robotR + objR obj.

(** [checkWallCollision] (lines 623 to 634). *)
Definition checkWallCollision (newX newZ : R) : Point.t :=
  let r := ROBOT_RADIUS + COLLISION_PADDING in
  let minX := -9 + r in
  let maxX := 9 - r in
  let minZ := -9 + r in
  let maxZ := 10 in
  {| Point.x := JS.max minX (JS.min maxX newX);
     Point.z := JS.max minZ (JS.min maxZ newZ) |}.

(** One turn of the [for (const obj of ...collidableObjects)] loop of
    [checkObjectCollision] (lines 644 to 664); [acc] carries [resultX],
    [resultZ] and [collision].  The distance is taken from the proposed
    point [(newX, newZ)], not from the running result. *)
Definition objectLoopBody (newX newZ : R) (acc : Outcome.t)
    (obj : Collidable.t) : Outcome.t :=
  if isWall obj then acc
  else
    let objX := objX obj in
    let objZ := objZ obj in
    let objR := objR obj in
    let dx := newX - objX in
    let dz := newZ - objZ in
    let distance := JS.sqrt (dx * dx + dz * dz) in
    let minDist := robotR + objR in
    if JS.lt distance minDist && JS.gt distance 0.001 then
      let pushDist := minDist - distance in
      let normalX := dx / distance in
      let normalZ := dz / distance in
      {| Outcome.x := Outcome.x acc + normalX * pushDist;
         Outcome.z := Outcome.z acc + normalZ * pushDist;
         Outcome.collision := true |}
    else acc.

(** [checkObjectCollision] (lines 636 to 667); the argument [scene] is
    [sceneRef.current] seen through its [collidableObjects]. *)
Definition checkObjectCollision (scene : option (list Collidable.t))
    (newX newZ : R) : Outcome.t :=
  match scene with
  | None => {| Outcome.x := newX; Outcome.z := newZ;
               Outcome.collision := false |}
  | Some collidableObjects =>
      fold_left (objectLoopBody newX newZ) collidableObjects
        {| Outcome.x := newX; Outcome.z := newZ;
           Outcome.collision := false |}
  end.

(** The same loop with every division checked: [None] as soon as a
    divisor is zero. *)
Definition objectLoopBody_checked (newX newZ : R) (acc : option Outcome.t)
    (obj : Collidable.t) : option Outcome.t :=
  match acc with
  | None => None
  | Some acc =>
      if isWall obj then Some acc
      else
        let objX := objX obj in
        let objZ := objZ obj in
        let objR := objR obj in
        let dx := newX - objX in
        let dz := newZ - objZ in
        let distance := JS.sqrt (dx * dx + dz * dz) in
        let minDist := robotR + objR in
        if JS.lt distance minDist && JS.gt distance 0.001 then
          let pushDist := minDist - distance in
          match JS.divide dx distance, JS.divide dz distance with
          | Some normalX, Some normalZ =>
              Some {| Outcome.x := Outcome.x acc + normalX * pushDist;
                      Outcome.z := Outcome.z acc + normalZ * pushDist;
                      Outcome.collision := true |}
          | _, _ => None
          end
        else Some acc
  end.

Definition checkObjectCollision_checked
    (scene : option (list Collidable.t)) (newX newZ : R)
    : option Outcome.t :=
  match scene with
  | None => Some {| Outcome.x := newX; Outcome.z := newZ;
                    Outcome.collision := false |}
  | Some collidableObjects =>
      fold_left (objectLoopBody_checked newX newZ) collidableObjects
        (Some {| Outcome.x := newX; Outcome.z := newZ;
                 Outcome.collision := false |})
  end.

(** [resolveCollisions] (lines 669 to 679). *)
Definition resolveCollisions (scene : option (list Collidable.t))
    (newX newZ : R) : Outcome.t :=
  let objResult := checkObjectCollision scene newX newZ in
  let wallResult :=
    checkWallCollision (Outcome.x objResult) (Outcome.z objResult) in
  let wallCollision :=
    JS.strictNe (Point.x wallResult) (Outcome.x objResult)
    || JS.strictNe (Point.z wallResult) (Outcome.z objResult) in
  {| Outcome.x := Point.x wallResult;
     Outcome.z := Point.z wallResult;
     Outcome.collision := Outcome.collision objResult || wallCollision |}.

(** A registered prop, [{mesh?, type, radius, x, z}], and a registered
    wall, [{mesh, type: 'wall'}]. *)
Definition prop (meshAt : option (R * R)) (type : string) (radius x z : R)
    : Collidable.t :=
  {| Collidable.mesh := meshAt; Collidable.type := type;
     Collidable.radius := Some radius;
     Collidable.x := Some x; Collidable.z := Some z |}.

Definition wall (meshX meshZ : R) : Collidable.t :=
  {| Collidable.mesh := Some (meshX, meshZ); Collidable.type := "wall";
     Collidable.radius := None;
     Collidable.x := None; Collidable.z := None |}.

(** The [collidableObjects] the scene set-up registers (lines 843 to
    1106), in registration order: three walls, four shelves, the work
    table, two crates, the security box, two barrels, the charging
    station and two cones. *)
Definition collidableObjects : list Collidable.t :=
  [ wall 0 (-10); wall (-10) 0; wall 10 0;
    prop (Some (-0.9, -0.25)) "shelf" 1.2 (-6) (-8);
    prop (Some (-0.9, -0.25)) "shelf" 1.2 (-2) (-8);
    prop (Some (-0.9, -0.25)) "shelf" 1.2 2 (-8);
    prop (Some (-0.9, -0.25)) "shelf" 1.2 6 (-8);
    prop (Some (0, 0)) "table" 1.3 (-7) (-3);
    prop (Some (7, -6)) "box" 0.6 7 (-6);
    prop (Some (7.8, -6)) "box" 0.6 7.8 (-6);
    prop (Some (7, 4)) "box" 0.8 7 4;
    prop (Some (-8, 2)) "barrel" 0.5 (-8) 2;
    prop (Some (-8.6, 2.5)) "barrel" 0.5 (-8.6) 2.5;
    prop (Some (0, 0)) "station" 0.8 5 4;
    prop None "cone" 0.3 3 2;
    prop None "cone" 0.3 3.5 1.5 ].

(* ================================================================== *)
(** * Motion integrator *)
(* ================================================================== *)

(** [robotStateRef.current] *)
Module RobotState.
Record t : Type := mk {
  x : R;
  z : R;
  rotation : R;
  velocity : R;
  angularVelocity : R;
  headRotY : R;
  headAngularVel : R;
  wheelRotation : R;
  bodyTilt : R;
  bodyLean : R;
  suspensionOffset : R;
  suspensionVelocity : R
}.

(** The initial value of the ref. *)
Definition initial : t := mk 0 0 0 0 0 0 0 0 0 0 0 0.
End RobotState.

(** [actionsRef.current] *)
Module Actions.
Record t : Type := mk {
  forward : bool;
  backward : bool;
  turnLeft : bool;
  turnRight : bool;
  headLeft : bool;
  headRight : bool
}.

Definition none : t := mk false false false false false false.
End Actions.

(** [let targetVelocity = 0; if (forward) ...; if (backward) ...] *)
Definition targetVelocityOf (actions : Actions.t) : R :=
  let targetVelocity := 0 in
  let targetVelocity :=
    if Actions.forward actions then PHYSICS.maxSpeed else targetVelocity in
  let targetVelocity :=
    if Actions.backward actions then - PHYSICS.maxSpeed * 0.6
    else targetVelocity in
  targetVelocity.

(** The linear-velocity block of [updateMovement]: the new
    [state.velocity] before any collision response. *)
Definition stepVelocity (targetVelocity delta velocity : R) : R :=
  if JS.strictNe targetVelocity 0 then
    let accel :=
      if JS.gt targetVelocity velocity then PHYSICS.acceleration
      else PHYSICS.deceleration in
    let velocity :=
      velocity + JS.sign (targetVelocity - velocity) * accel * delta in
    if JS.gt (JS.abs velocity) (JS.abs targetVelocity) then targetVelocity
    else velocity
  else
    if JS.gt (JS.abs velocity) 0.01 then
      velocity - JS.sign velocity * PHYSICS.friction * delta
    else 0.

(** [targetAngularVel], scaled by [speedFactor]; [velocity] is the
    velocity already updated this frame. *)
Definition targetAngularVelOf (actions : Actions.t) (velocity : R) : R :=
  let targetAngularVel := 0 in
  let targetAngularVel :=
    if Actions.turnLeft actions then PHYSICS.maxTurnSpeed
    else targetAngularVel in
  let targetAngularVel :=
    if Actions.turnRight actions then - PHYSICS.maxTurnSpeed
    else targetAngularVel in
  let speedFactor := 1.0 - JS.abs velocity / PHYSICS.maxSpeed * 0.3 in
  targetAngularVel * speedFactor.

(** The angular-velocity block. *)
Definition stepAngularVelocity (targetAngularVel delta angularVelocity : R)
    : R :=
  if JS.strictNe targetAngularVel 0 then
    angularVelocity
    + (targetAngularVel - angularVelocity) * PHYSICS.turnAccel * delta
  else
    if JS.gt (JS.abs angularVelocity) 0.01 then
      angularVelocity * (1 - PHYSICS.turnFriction * delta)
    else 0.

Definition targetHeadVelOf (actions : Actions.t) : R :=
  let targetHeadVel := 0 in
  let targetHeadVel :=
    if Actions.headLeft actions then PHYSICS.headTurnSpeed
    else targetHeadVel in
  let targetHeadVel :=
    if Actions.headRight actions then - PHYSICS.headTurnSpeed
    else targetHeadVel in
  targetHeadVel.

(** The head-velocity block. *)
Definition stepHeadAngularVel (targetHeadVel delta headAngularVel : R) : R :=
  if JS.strictNe targetHeadVel 0 then
    headAngularVel
    + (targetHeadVel - headAngularVel) * PHYSICS.headFriction * delta
  else
    headAngularVel * (1 - PHYSICS.headFriction * delta).

(** [updateMovement(delta)] (lines 1706 to 1829), as the new value of
    [robotStateRef.current].
    [scene] is [sceneRef.current] as the collision pass reads it. *)
Definition updateMovement (scene : option (list Collidable.t))
    (actions : Actions.t) (delta : R) (state : RobotState.t)
    : RobotState.t :=
  let targetVelocity := targetVelocityOf actions in
  let velocity := stepVelocity targetVelocity delta
                    (RobotState.velocity state) in
  let targetAngularVel := targetAngularVelOf actions velocity in
  let angularVelocity :=
    stepAngularVelocity targetAngularVel delta
      (RobotState.angularVelocity state) in
  let targetHeadVel := targetHeadVelOf actions in
  let headAngularVel :=
    stepHeadAngularVel targetHeadVel delta
      (RobotState.headAngularVel state) in
  let headRotY := RobotState.headRotY state + headAngularVel * delta in
  let headRotY :=
    JS.max (- PHYSICS.headMaxRotation)
      (JS.min PHYSICS.headMaxRotation headRotY) in
  let rotation := RobotState.rotation state + angularVelocity * delta in
  let moveDistance := velocity * delta in
  let proposedX := RobotState.x state + sin rotation * moveDistance in
  let proposedZ := RobotState.z state + cos rotation * moveDistance in
  let resolved := resolveCollisions scene proposedX proposedZ in
  let x := Outcome.x resolved in
  let z := Outcome.z resolved in
  let velocity' :=
    if Outcome.collision resolved then velocity * 0.5 else velocity in
  let suspensionVelocity :=
    if Outcome.collision resolved then
      RobotState.suspensionVelocity state - 0.02 * JS.sign velocity'
    else RobotState.suspensionVelocity state in
  let wheelRotation :=
    RobotState.wheelRotation state + moveDistance / PHYSICS.wheelRadius in
  let accelerationForce := (targetVelocity - velocity') * 0.5 in
  let targetTilt := - accelerationForce * PHYSICS.tiltAmount in
  let bodyTilt :=
    RobotState.bodyTilt state
    + (targetTilt - RobotState.bodyTilt state)
      * PHYSICS.tiltSmoothing * delta in
  let targetLean :=
    - angularVelocity * PHYSICS.leanAmount
    * JS.max 0.3 (JS.abs velocity' / PHYSICS.maxSpeed) in
  let bodyLean :=
    RobotState.bodyLean state
    + (targetLean - RobotState.bodyLean state)
      * PHYSICS.leanSmoothing * delta in
  let velocityChange := JS.abs (targetVelocity - velocity') in
  let suspensionVelocity :=
    if JS.gt velocityChange 0.5 then
      suspensionVelocity
      - PHYSICS.bumpForce * JS.sign (targetVelocity - velocity')
    else suspensionVelocity in
  let springForce :=
    - RobotState.suspensionOffset state * PHYSICS.suspensionStiffness in
  let dampingForce := - suspensionVelocity * PHYSICS.suspensionDamping in
  let suspensionVelocity :=
    suspensionVelocity + (springForce + dampingForce) * delta in
  let suspensionOffset :=
    RobotState.suspensionOffset state + suspensionVelocity * delta in
  {| RobotState.x := x;
     RobotState.z := z;
     RobotState.rotation := rotation;
     RobotState.velocity := velocity';
     RobotState.angularVelocity := angularVelocity;
     RobotState.headRotY := headRotY;
     RobotState.headAngularVel := headAngularVel;
     RobotState.wheelRotation := wheelRotation;
     RobotState.bodyTilt := bodyTilt;
     RobotState.bodyLean := bodyLean;
     RobotState.suspensionOffset := suspensionOffset;
     RobotState.suspensionVelocity := suspensionVelocity |}.

(** The telemetry [updateMovement] hands to [onSpeedChange]:
    [(speedPercent, stateText)]. *)
Definition speedReport (state : RobotState.t) : R * string :=
  let speedPercent :=
    JS.abs (RobotState.velocity state) / PHYSICS.maxSpeed * 100 in
  let isMoving := JS.gt (JS.abs (RobotState.velocity state)) 0.1 in
  let isTurning := JS.gt (JS.abs (RobotState.angularVelocity state)) 0.3 in
  let isReversing := JS.lt (RobotState.velocity state) (-0.1) in
  let stateText :=
    if isMoving && isTurning then
      (if isReversing then "Reversing + Turn" else "Moving + Turn")%string
    else if isMoving then
      (if isReversing then "Reversing" else "Moving")%string
    else if isTurning then "Turning"%string
    else "Idle"%string in
  (speedPercent, stateText).


(** [n] frames of [updateMovement] with the same flags and the same
    [delta]. *)
Fixpoint runFrames (scene : option (list Collidable.t))
    (actions : Actions.t) (delta : R) (n : nat) (state : RobotState.t)
    : RobotState.t :=
  match n with
  | O => state
  | S k => runFrames scene actions delta k
             (updateMovement scene actions delta state)
  end.

(* ================================================================== *)
(** * Dust particles *)
(* ================================================================== *)

(** [THREE.Vector3], with the three methods the particle code calls. *)
Module Vector3.
Record t : Type := mk { x : R; y : R; z : R }.

Definition add (a b : t) : t := mk (x a + x b) (y a + y b) (z a + z b).
Definition multiplyScalar (a : t) (s : R) : t :=
  mk (x a * s) (y a * s) (z a * s).
Definition setY (a : t) (v : R) : t := mk (x a) v (z a).
End Vector3.

(** What the particle code reads and writes of a particle's mesh: the
    sphere's radius, its position, the material's opacity and the uniform
    scale. *)
Module DustMesh.
Record t : Type := mk {
  size : R;
  position : Vector3.t;
  opacity : R;
  scale : R
}.
End DustMesh.

(** An element of [dustParticles]. *)
Module DustParticle.
Record t : Type := mk {
  mesh : DustMesh.t;
  velocity : Vector3.t;
  life : R;
  maxLife : R
}.
End DustParticle.

(** [Math.random()]: the generator is a sequence of draws and a cursor
    over it; every call reads the draw under the cursor and advances. *)
Module Random.
Record t : Type := mk { draws : nat -> R; cursor : nat }.

Definition next (g : t) : R * t :=
  (draws g (cursor g), mk (draws g) (S (cursor g))).
End Random.

(** The population cap of [spawnDustParticle]. *)
Definition DUST_CAP : nat := 50.

(** [spawnDustParticle(x, y, z, velocityX, velocityZ)] (lines 1871 to
    1895): the new contents
    of [dustParticles] and the generator after the call. *)
Definition spawnDustParticle (dustParticles : list DustParticle.t)
    (g : Random.t) (x y z velocityX velocityZ : R)
    : list DustParticle.t * Random.t :=
  if Nat.leb DUST_CAP (List.length dustParticles) then (dustParticles, g)
  else
    let (r0, g) := Random.next g in
    let size := 0.03 + r0 * 0.04 in
    let particle :=
      {| DustMesh.size := size;
         DustMesh.position := Vector3.mk x y z;
         DustMesh.opacity := 0.6;
         DustMesh.scale := 1 |} in
    let (r1, g) := Random.next g in
    let (r2, g) := Random.next g in
    let (r3, g) := Random.next g in
    let (r4, g) := Random.next g in
    (dustParticles ++
       [ {| DustParticle.mesh := particle;
            DustParticle.velocity :=
              Vector3.mk (velocityX + (r1 - 0.5) * 0.3)
                         (0.2 + r2 * 0.3)
                         (velocityZ + (r3 - 0.5) * 0.3);
            DustParticle.life := 0;
            DustParticle.maxLife := 0.8 + r4 * 0.4 |} ],
     g).

(** The updates one turn of the ageing loop makes to the particle [p]. *)
Definition ageParticle (delta : R) (p : DustParticle.t) : DustParticle.t :=
  let life := DustParticle.life p + delta in
  let position :=
    Vector3.add (DustMesh.position (DustParticle.mesh p))
      (Vector3.multiplyScalar (DustParticle.velocity p) delta) in
  let velocity :=
    Vector3.setY (DustParticle.velocity p)
      (Vector3.y (DustParticle.velocity p) - 0.5 * delta) in
  let velocity := Vector3.multiplyScalar velocity 0.98 in
  let lifeRatio := life / DustParticle.maxLife p in
  {| DustParticle.mesh :=
       {| DustMesh.size := DustMesh.size (DustParticle.mesh p);
          DustMesh.position := position;
          DustMesh.opacity := 0.6 * (1 - lifeRatio);
          DustMesh.scale := 1 + lifeRatio * 0.5 |};
     DustParticle.velocity := velocity;
     DustParticle.life := life;
     DustParticle.maxLife := DustParticle.maxLife p |}.

(** [arr.splice(i, 1)] and [arr[i] = v] on a list. *)
Definition splice1 {A : Type} (i : nat) (l : list A) : list A :=
  firstn i l ++ skipn (S i) l.

Definition setAt {A : Type} (i : nat) (v : A) (l : list A) : list A :=
  firstn i l ++ v :: skipn (S i) l.

(** [for (let i = dustParticles.length - 1; i >= 0; i--)]: [ageLoop delta
    n l] runs the turns [i = n - 1] down to [i = 0]. *)
Fixpoint ageLoop (delta : R) (n : nat) (dustParticles : list DustParticle.t)
    : list DustParticle.t :=
  match n with
  | O => dustParticles
  | S i =>
      match nth_error dustParticles i with
      | None => ageLoop delta i dustParticles
      | Some p =>
          let p := ageParticle delta p in
          if JS.ge (DustParticle.life p) (DustParticle.maxLife p) then
            ageLoop delta i (splice1 i dustParticles)
          else ageLoop delta i (setAt i p dustParticles)
      end
  end.

(** [updateDustParticles(delta, currentTime)] (lines 1898 to 1941). *)
Definition updateDustParticles (state : RobotState.t)
    (dustParticles : list DustParticle.t) (g : Random.t) (delta : R)
    : list DustParticle.t * Random.t :=
  let speed := JS.abs (RobotState.velocity state) in
  let rotation := RobotState.rotation state in
  let spawnAttempt (g : Random.t) :=
    let wheelOffsetX := 0.55 in
    let wheelZ := cos rotation * -0.1 in
    let wheelX := sin rotation * -0.1 in
    let leftWheelX :=
      RobotState.x state - cos rotation * wheelOffsetX + wheelX in
    let leftWheelZ :=
      RobotState.z state + sin rotation * wheelOffsetX + wheelZ in
    let rightWheelX :=
      RobotState.x state + cos rotation * wheelOffsetX + wheelX in
    let rightWheelZ :=
      RobotState.z state - sin rotation * wheelOffsetX + wheelZ in
    let backVelX := - sin rotation * speed * 0.5 in
    let backVelZ := - cos rotation * speed * 0.5 in
    let (side, g) := Random.next g in
    if JS.gt side 0.5 then
      spawnDustParticle dustParticles g leftWheelX 0.1 leftWheelZ
        backVelX backVelZ
    else
      spawnDustParticle dustParticles g rightWheelX 0.1 rightWheelZ
        backVelX backVelZ in
  let (dustParticles, g) :=
    if JS.gt speed 0.5 then
      let (chance, g) := Random.next g in
      if JS.lt chance (speed * 0.3) then spawnAttempt g
      else (dustParticles, g)
    else (dustParticles, g) in
  (ageLoop delta (List.length dustParticles) dustParticles, g).

(** One tick of [animate] as far as robot state and dust are concerned:
    [updateMovement(delta)] and then [updateDustParticles(delta, ...)]. *)
Module Sim.
Record t : Type := mk {
  robot : RobotState.t;
  dust : list DustParticle.t;
  rng : Random.t
}.
End Sim.

Definition tick (scene : option (list Collidable.t)) (w : Sim.t)
    (frame : Actions.t * R) : Sim.t :=
  let (actions, delta) := frame in
  let robot := updateMovement scene actions delta (Sim.robot w) in
  let (dust, rng) :=
    updateDustParticles robot (Sim.dust w) (Sim.rng w) delta in
  {| Sim.robot := robot; Sim.dust := dust; Sim.rng := rng |}.

(** A run of the loop: one [tick] per frame, in order. *)
Definition runTicks (scene : option (list Collidable.t))
    (frames : list (Actions.t * R)) (w : Sim.t) : Sim.t :=
  fold_left (tick scene) frames w.

(* ================================================================== *)
(** * The 2D canvas the renderer and the cameras draw on *)
(* ================================================================== *)

(** A [CanvasRenderingContext2D] as far as the source drives it.  The
    bitmap is kept as the list of marks painted on it, oldest first, each
    with the attributes that decide its pixels; an operation that replaces
    every pixel (an opaque [source-over] fill of the whole bitmap, or a
    [putImageData] of a full-size image) leaves that one mark. *)
Module Canvas.

Inductive Style : Type :=
| Color (css : string)
| RadialGradient (x0 y0 r0 x1 y1 r1 : R) (stops : list (R * string)).

Inductive Xform : Type :=
| Translate (x y : R)
| Rotate (angle : R).

Inductive Seg : Type :=
| MoveTo (x y : R)
| LineTo (x y : R)
| Arc (x y radius startAngle endAngle : R) (counterclockwise : bool)
| Ellipse (x y radiusX radiusY rotation startAngle endAngle : R)
| QuadraticCurveTo (cpx cpy x y : R)
| BezierCurveTo (cp1x cp1y cp2x cp2y x y : R)
| ClosePath.

(** The drawing state [save()] pushes and [restore()] pops. *)
Record DrawState : Type := mkDrawState {
  fillStyle : Style;
  strokeStyle : Style;
  shadowColor : string;
  shadowBlur : R;
  lineWidth : R;
  lineCap : string;
  font : string;
  textAlign : string;
  textBaseline : string;
  globalAlpha : R;
  globalCompositeOperation : string;
  transform : list Xform
}.

(** Attributes every painting operation is subject to. *)
Record Compositing : Type := mkCompositing {
  alpha : R;
  operation : string;
  glowColor : string;
  glowBlur : R;
  matrix : list Xform
}.

Definition Path : Type := list (list Xform * Seg).

Inductive Mark : Type :=
| Solid (css : string)
| Image (data : nat -> Z)
| ImageAt (data : nat -> Z) (dx dy : R)
| FilledRect (x y w h : R) (style : Style) (c : Compositing)
| FilledPath (p : Path) (style : Style) (c : Compositing)
| StrokedPath (p : Path) (style : Style) (width : R) (cap : string)
    (c : Compositing)
| FilledText (text : string) (x y : R) (style : Style)
    (font align baseline : string) (c : Compositing).

Record Ctx : Type := mkCtx {
  width : R;
  height : R;
  state : DrawState;
  saved : list DrawState;
  path : Path;
  raster : list Mark
}.

(** The drawing state of a context just obtained from [getContext]. *)
Definition defaultState : DrawState :=
  {| fillStyle := Color "#000000";
     strokeStyle := Color "#000000";
     shadowColor := "rgba(0, 0, 0, 0)";
     shadowBlur := 0;
     lineWidth := 1;
     lineCap := "butt";
     font := "10px sans-serif";
     textAlign := "start";
     textBaseline := "alphabetic";
     globalAlpha := 1;
     globalCompositeOperation := "source-over";
     transform := [] |}.

Definition fresh (w h : R) : Ctx :=
  {| width := w; height := h; state := defaultState;
     saved := []; path := []; raster := [] |}.

Definition withState (f : DrawState -> DrawState) (c : Ctx) : Ctx :=
  {| width := width c; height := height c; state := f (state c);
     saved := saved c; path := path c; raster := raster c |}.

Definition withPath (f : Path -> Path) (c : Ctx) : Ctx :=
  {| width := width c; height := height c; state := state c;
     saved := saved c; path := f (path c); raster := raster c |}.

Definition paint (f : list Mark -> list Mark) (c : Ctx) : Ctx :=
  {| width := width c; height := height c; state := state c;
     saved := saved c; path := path c; raster := f (raster c) |}.

(** Property setters. *)
Definition setFillStyle (v : Style) : Ctx -> Ctx :=
  withState (fun s =>
    mkDrawState v (strokeStyle s) (shadowColor s) (shadowBlur s)
      (lineWidth s) (lineCap s) (font s) (textAlign s) (textBaseline s)
      (globalAlpha s) (globalCompositeOperation s) (transform s)).

Definition setStrokeStyle (v : Style) : Ctx -> Ctx :=
  withState (fun s =>
    mkDrawState (fillStyle s) v (shadowColor s) (shadowBlur s)
      (lineWidth s) (lineCap s) (font s) (textAlign s) (textBaseline s)
      (globalAlpha s) (globalCompositeOperation s) (transform s)).

Definition setShadowColor (v : string) : Ctx -> Ctx :=
  withState (fun s =>
    mkDrawState (fillStyle s) (strokeStyle s) v (shadowBlur s)
      (lineWidth s) (lineCap s) (font s) (textAlign s) (textBaseline s)
      (globalAlpha s) (globalCompositeOperation s) (transform s)).

Definition setShadowBlur (v : R) : Ctx -> Ctx :=
  withState (fun s =>
    mkDrawState (fillStyle s) (strokeStyle s) (shadowColor s) v
      (lineWidth s) (lineCap s) (font s) (textAlign s) (textBaseline s)
      (globalAlpha s) (globalCompositeOperation s) (transform s)).

Definition setLineWidth (v : R) : Ctx -> Ctx :=
  withState (fun s =>
    mkDrawState (fillStyle s) (strokeStyle s) (shadowColor s)
      (shadowBlur s) v (lineCap s) (font s) (textAlign s)
      (textBaseline s) (globalAlpha s) (globalCompositeOperation s)
      (transform s)).

Definition setLineCap (v : string) : Ctx -> Ctx :=
  withState (fun s =>
    mkDrawState (fillStyle s) (strokeStyle s) (shadowColor s)
      (shadowBlur s) (lineWidth s) v (font s) (textAlign s)
      (textBaseline s) (globalAlpha s) (globalCompositeOperation s)
      (transform s)).

Definition setFont (v : string) : Ctx -> Ctx :=
  withState (fun s =>
    mkDrawState (fillStyle s) (strokeStyle s) (shadowColor s)
      (shadowBlur s) (lineWidth s) (lineCap s) v (textAlign s)
      (textBaseline s) (globalAlpha s) (globalCompositeOperation s)
      (transform s)).

Definition setTextAlign (v : string) : Ctx -> Ctx :=
  withState (fun s =>
    mkDrawState (fillStyle s) (strokeStyle s) (shadowColor s)
      (shadowBlur s) (lineWidth s) (lineCap s) (font s) v
      (textBaseline s) (globalAlpha s) (globalCompositeOperation s)
      (transform s)).

Definition setTextBaseline (v : string) : Ctx -> Ctx :=
  withState (fun s =>
    mkDrawState (fillStyle s) (strokeStyle s) (shadowColor s)
      (shadowBlur s) (lineWidth s) (lineCap s) (font s) (textAlign s)
      v (globalAlpha s) (globalCompositeOperation s) (transform s)).

(** The setter ignores a value outside [[0, 1]]. *)
Definition setGlobalAlpha (v : R) : Ctx -> Ctx :=
  withState (fun s =>
    mkDrawState (fillStyle s) (strokeStyle s) (shadowColor s)
      (shadowBlur s) (lineWidth s) (lineCap s) (font s) (textAlign s)
      (textBaseline s)
      (if JS.ge v 0 && JS.ge 1 v then v else globalAlpha s)
      (globalCompositeOperation s) (transform s)).

Definition setGlobalCompositeOperation (v : string) : Ctx -> Ctx :=
  withState (fun s =>
    mkDrawState (fillStyle s) (strokeStyle s) (shadowColor s)
      (shadowBlur s) (lineWidth s) (lineCap s) (font s) (textAlign s)
      (textBaseline s) (globalAlpha s) v (transform s)).

Definition pushXform (t : Xform) : Ctx -> Ctx :=
  withState (fun s =>
    mkDrawState (fillStyle s) (strokeStyle s) (shadowColor s)
      (shadowBlur s) (lineWidth s) (lineCap s) (font s) (textAlign s)
      (textBaseline s) (globalAlpha s) (globalCompositeOperation s)
      (transform s ++ [t])).

Definition translate (x y : R) : Ctx -> Ctx := pushXform (Translate x y).
Definition rotate (angle : R) : Ctx -> Ctx := pushXform (Rotate angle).

Definition save (c : Ctx) : Ctx :=
  {| width := width c; height := height c; state := state c;
     saved := state c :: saved c; path := path c; raster := raster c |}.

(** [restore()] does nothing on an empty stack. *)
Definition restore (c : Ctx) : Ctx :=
  match saved c with
  | [] => c
  | s :: rest =>
      {| width := width c; height := height c; state := s;
         saved := rest; path := path c; raster := raster c |}
  end.

(** Path building. *)
Definition beginPath : Ctx -> Ctx := withPath (fun _ => []).

Definition addSeg (s : Seg) (c : Ctx) : Ctx :=
  withPath (fun p => p ++ [(transform (state c), s)]) c.

Definition moveTo (x y : R) := addSeg (MoveTo x y).
Definition lineTo (x y : R) := addSeg (LineTo x y).
Definition arc (x y radius startAngle endAngle : R) (ccw : bool) :=
  addSeg (Arc x y radius startAngle endAngle ccw).
Definition ellipse (x y radiusX radiusY rotation startAngle endAngle : R) :=
  addSeg (Ellipse x y radiusX radiusY rotation startAngle endAngle).
Definition quadraticCurveTo (cpx cpy x y : R) :=
  addSeg (QuadraticCurveTo cpx cpy x y).
Definition bezierCurveTo (cp1x cp1y cp2x cp2y x y : R) :=
  addSeg (BezierCurveTo cp1x cp1y cp2x cp2y x y).
Definition closePath := addSeg ClosePath.

Definition compositing (s : DrawState) : Compositing :=
  {| alpha := globalAlpha s;
     operation := globalCompositeOperation s;
     glowColor := shadowColor s;
     glowBlur := shadowBlur s;
     matrix := transform s |}.

(** A CSS colour known to be opaque: [#rgb] or [#rrggbb]. *)
Definition opaqueCss (css : string) : bool :=
  match css with
  | String "#"%char rest =>
      Nat.eqb (String.length rest) 3 || Nat.eqb (String.length rest) 6
  | _ => false
  end.

(** Does a fill of the rectangle replace every pixel of the bitmap? *)
Definition replacesAll (c : Ctx) (x y w h : R) : option string :=
  match fillStyle (state c), transform (state c) with
  | Color css, [] =>
      if opaqueCss css
         && JS.strictEq (globalAlpha (state c)) 1
         && String.eqb (globalCompositeOperation (state c)) "source-over"
         && JS.ge 0 x && JS.ge 0 y
         && JS.ge (x + w) (width c) && JS.ge (y + h) (height c)
      then Some css else None
  | _, _ => None
  end.

Definition fillRect (x y w h : R) (c : Ctx) : Ctx :=
  match replacesAll c x y w h with
  | Some css => paint (fun _ => [Solid css]) c
  | None =>
      paint (fun r =>
               r ++ [FilledRect x y w h (fillStyle (state c))
                       (compositing (state c))]) c
  end.

Definition fill (c : Ctx) : Ctx :=
  paint (fun r =>
           r ++ [FilledPath (path c) (fillStyle (state c))
                   (compositing (state c))]) c.

Definition stroke (c : Ctx) : Ctx :=
  paint (fun r =>
           r ++ [StrokedPath (path c) (strokeStyle (state c))
                   (lineWidth (state c)) (lineCap (state c))
                   (compositing (state c))]) c.

Definition fillText (text : string) (x y : R) (c : Ctx) : Ctx :=
  paint (fun r =>
           r ++ [FilledText text x y (fillStyle (state c))
                   (font (state c)) (textAlign (state c))
                   (textBaseline (state c)) (compositing (state c))]) c.

(** [putImageData(image, dx, dy)] for an image [iw] by [ih]. *)
Definition putImageData (data : nat -> Z) (iw ih dx dy : R) (c : Ctx)
    : Ctx :=
  if JS.ge 0 dx && JS.ge 0 dy
     && JS.ge (dx + iw) (width c) && JS.ge (dy + ih) (height c)
  then paint (fun _ => match JS.strictEq dx 0 && JS.strictEq dy 0 with
                       | true => [Image data]
                       | false => [ImageAt data dx dy]
                       end) c
  else paint (fun r => r ++ [ImageAt data dx dy]) c.

End Canvas.

(** [c |> f]: the call [f] made on the context [c]. *)
Notation "c |> f" := (f c) (at level 45, left associativity, only parsing).

(* ================================================================== *)
(** * Expression renderer *)
(* ================================================================== *)

Module JSString.

(** [s.split(' ')] *)
Fixpoint split (s : string) : list string :=
  match s with
  | EmptyString => [EmptyString]
  | String c rest =>
      if Ascii.eqb c " "%char then EmptyString :: split rest
      else match split rest with
           | h :: t => String c h :: t
           | [] => [String c EmptyString]
           end
  end.

(** A string in a condition: false exactly when empty. *)
Definition truthy (s : string) : bool := negb (String.eqb s "").

(** An optional string ([string | null]) in a condition. *)
Definition truthyOpt (s : option string) : bool :=
  match s with Some v => truthy v | None => false end.

End JSString.

Module JSMath.

(** Truncation toward zero and the remainder [a % b] of numbers. *)
Definition trunc (v : R) : Z :=
  if Rle_dec 0 v then Int_part v else (- Int_part (- v))%Z.

Definition rem (a b : R) : R := a - b * IZR (trunc (a / b)).

(** [Math.atan2(y, x)] *)
Definition atan2 (y x : R) : R :=
  if Rlt_dec 0 x then atan (y / x)
  else if Rlt_dec x 0 then
    (if Rle_dec 0 y then atan (y / x) + PI else atan (y / x) - PI)
  else if Rlt_dec 0 y then PI / 2
  else if Rlt_dec y 0 then - PI / 2
  else 0.

End JSMath.

(** The canvas of the LCD panel and the texture made from it. *)
Module Face.
Record t : Type := mk { faceCtx : Canvas.Ctx; needsUpdate : bool }.

(** [faceCanvas.width = 256; faceCanvas.height = 160]. *)
Definition created : t := mk (Canvas.fresh 256 160) false.
End Face.

Section ExpressionRenderer.

(** [faceCtx.measureText(text).width] under a given font: the browser's
    text metrics. *)
Variable measureText : string -> string -> R.

Import Canvas.

(** The word wrap of the text branch: the lines pushed so far and
    [currentLine]. *)
Definition wrapStep (c : Ctx) (w : R) (st : list string * string)
    (word : string) : list string * string :=
  let (lines, currentLine) := st in
  let testLine :=
    (currentLine ++ (if JSString.truthy currentLine then " " else "")
       ++ word)%string in
  if JS.gt (measureText (font (state c)) testLine) (w - 40)
  then (lines ++ [currentLine], word)
  else (lines, testLine).

Definition wrapLines (c : Ctx) (w : R) (displayText : string)
    : list string :=
  let words := JSString.split displayText in
  let (lines, currentLine) := fold_left (wrapStep c w) words ([], ""%string) in
  lines ++ [currentLine].

(** [lines.forEach((line, i) => faceCtx.fillText(...))] from index [i]. *)
Fixpoint fillLines (w startY lineHeight : R) (i : nat)
    (lines : list string) (c : Ctx) : Ctx :=
  match lines with
  | [] => c
  | line :: rest =>
      fillLines w startY lineHeight (S i) rest
        (c |> fillText line (w / 2) (startY + INR i * lineHeight))
  end.

Definition drawText (w h : R) (displayText : string) (c : Ctx) : Ctx :=
  let c := c |> setFont "bold 28px Inter, sans-serif"
             |> setTextAlign "center"
             |> setTextBaseline "middle" in
  let lines := wrapLines c w displayText in
  let lineHeight := 32 in
  let startY := h / 2 - (INR (List.length lines) - 1) * lineHeight / 2 in
  fillLines w startY lineHeight 0 lines c.

(** [drawHeart] of the 'love' expression. *)
Definition drawHeart (cx cy size : R) (c : Ctx) : Ctx :=
  c |> beginPath
    |> moveTo cx (cy + size * 0.3)
    |> bezierCurveTo cx cy (cx - size) cy (cx - size) (cy + size * 0.5)
    |> bezierCurveTo (cx - size) (cy + size) cx (cy + size * 1.2)
         cx (cy + size * 1.5)
    |> bezierCurveTo cx (cy + size * 1.2) (cx + size) (cy + size)
         (cx + size) (cy + size * 0.5)
    |> bezierCurveTo (cx + size) cy cx cy cx (cy + size * 0.3)
    |> fill.

(** One turn of the dot loop of the 'loading' expression. *)
Definition loadingDot (w h time : R) (c : Ctx) (i : nat) : Ctx :=
  let dotCount := 8 in
  let radius := 35 in
  let angle := (INR i / dotCount) * PI * 2 + time * 0.005 in
  let x := w / 2 + cos angle * radius in
  let y := h / 2 + sin angle * radius in
  let alpha := JSMath.rem ((INR i / dotCount) + (time * 0.002)) 1 in
  c |> setGlobalAlpha alpha
    |> beginPath
    |> arc x y 8 0 (PI * 2) false
    |> fill.

(** One turn of the point loop of [drawStar]. *)
Definition starPoint (cx cy size : R) (c : Ctx) (i : nat) : Ctx :=
  let angle := (INR i / 4) * PI * 2 - PI / 2 in
  let x := cx + cos angle * size in
  let y := cy + sin angle * size in
  let c := if Nat.eqb i 0 then c |> moveTo x y else c |> lineTo x y in
  let midAngle := angle + PI / 4 in
  let mx := cx + cos midAngle * size * 0.4 in
  let my := cy + sin midAngle * size * 0.4 in
  c |> lineTo mx my.

Definition drawStar (cx cy size : R) (c : Ctx) : Ctx :=
  fold_left (starPoint cx cy size) (seq 0 4) (c |> beginPath)
    |> closePath
    |> fill.

(** The expression branches of [drawFaceLocal]. *)
Definition drawExpression (currentExpression : string)
    (currentFaceColor : string) (w h time : R) (c : Ctx) : Ctx :=
  let eyeY := h * 0.42 in
  let eyeSpacing := w * 0.22 in
  let eyeWidth := 35 in
  let eyeHeight := 45 in
  let blinkCycle := sin (time * 0.003) in
  let blinkScale := if JS.gt blinkCycle 0.95 then 0.1 else 1 in
  if String.eqb currentExpression "neutral" then
    c |> beginPath
      |> ellipse (w / 2 - eyeSpacing) eyeY eyeWidth
           (eyeHeight * blinkScale) 0 0 (PI * 2)
      |> fill
      |> beginPath
      |> ellipse (w / 2 + eyeSpacing) eyeY eyeWidth
           (eyeHeight * blinkScale) 0 0 (PI * 2)
      |> fill
      |> beginPath
      |> arc (w / 2) (h * 0.72) 25 (0.1 * PI) (0.9 * PI) false
      |> stroke
  else if String.eqb currentExpression "happy" then
    c |> setLineWidth 8
      |> beginPath
      |> arc (w / 2 - eyeSpacing) (eyeY + 10) 28 PI (2 * PI) false
      |> stroke
      |> beginPath
      |> arc (w / 2 + eyeSpacing) (eyeY + 10) 28 PI (2 * PI) false
      |> stroke
      |> setLineWidth 4
      |> beginPath
      |> arc (w / 2) (h * 0.68) 35 (0.15 * PI) (0.85 * PI) false
      |> stroke
  else if String.eqb currentExpression "thinking" then
    c |> beginPath
      |> ellipse (w / 2 - eyeSpacing) eyeY eyeWidth
           (eyeHeight * blinkScale) 0 0 (PI * 2)
      |> fill
      |> beginPath
      |> ellipse (w / 2 + eyeSpacing) (eyeY - 8) (eyeWidth * 0.9)
           (eyeHeight * 0.7) (-0.2) 0 (PI * 2)
      |> fill
      |> beginPath
      |> moveTo (w / 2 - 25) (h * 0.72)
      |> quadraticCurveTo (w / 2) (h * 0.68) (w / 2 + 25) (h * 0.72)
      |> stroke
  else if String.eqb currentExpression "surprised" then
    c |> beginPath
      |> arc (w / 2 - eyeSpacing) eyeY 32 0 (PI * 2) false
      |> fill
      |> beginPath
      |> arc (w / 2 + eyeSpacing) eyeY 32 0 (PI * 2) false
      |> fill
      |> setLineWidth 4
      |> beginPath
      |> arc (w / 2) (h * 0.72) 18 0 (PI * 2) false
      |> stroke
  else if String.eqb currentExpression "love" then
    c |> drawHeart (w / 2 - eyeSpacing) (eyeY - 25) 22
      |> drawHeart (w / 2 + eyeSpacing) (eyeY - 25) 22
      |> beginPath
      |> arc (w / 2) (h * 0.7) 30 (0.1 * PI) (0.9 * PI) false
      |> stroke
  else if String.eqb currentExpression "loading" then
    fold_left (loadingDot w h time) (seq 0 8) c
      |> setGlobalAlpha 1
  else if String.eqb currentExpression "sad" then
    c |> beginPath
      |> ellipse (w / 2 - eyeSpacing) (eyeY + 8) (eyeWidth * 0.9)
           (eyeHeight * 0.6 * blinkScale) 0.2 0 (PI * 2)
      |> fill
      |> beginPath
      |> ellipse (w / 2 + eyeSpacing) (eyeY + 8) (eyeWidth * 0.9)
           (eyeHeight * 0.6 * blinkScale) (-0.2) 0 (PI * 2)
      |> fill
      |> setLineWidth 4
      |> beginPath
      |> arc (w / 2) (h * 0.82) 25 (1.1 * PI) (1.9 * PI) false
      |> stroke
  else if String.eqb currentExpression "angry" then
    c |> save
      |> translate (w / 2 - eyeSpacing) eyeY
      |> rotate (-0.3)
      |> fillRect (- eyeWidth) (- eyeHeight * 0.3 * blinkScale)
           (eyeWidth * 2) (eyeHeight * 0.6 * blinkScale)
      |> restore
      |> save
      |> translate (w / 2 + eyeSpacing) eyeY
      |> rotate 0.3
      |> fillRect (- eyeWidth) (- eyeHeight * 0.3 * blinkScale)
           (eyeWidth * 2) (eyeHeight * 0.6 * blinkScale)
      |> restore
      |> setLineWidth 5
      |> beginPath
      |> moveTo (w / 2 - 30) (h * 0.72)
      |> lineTo (w / 2 + 30) (h * 0.72)
      |> stroke
  else if String.eqb currentExpression "wink" then
    c |> beginPath
      |> ellipse (w / 2 - eyeSpacing) eyeY eyeWidth
           (eyeHeight * blinkScale) 0 0 (PI * 2)
      |> fill
      |> setLineWidth 6
      |> beginPath
      |> arc (w / 2 + eyeSpacing) eyeY 25 0 PI false
      |> stroke
      |> setLineWidth 4
      |> beginPath
      |> arc (w / 2 + 10) (h * 0.70) 30 (0.1 * PI) (0.9 * PI) false
      |> stroke
  else if String.eqb currentExpression "excited" then
    c |> beginPath
      |> arc (w / 2 - eyeSpacing) eyeY 30 0 (PI * 2) false
      |> fill
      |> beginPath
      |> arc (w / 2 + eyeSpacing) eyeY 30 0 (PI * 2) false
      |> fill
      |> setFillStyle (Color "#000")
      |> drawStar (w / 2 - eyeSpacing - 8) (eyeY - 8) 8
      |> drawStar (w / 2 + eyeSpacing - 8) (eyeY - 8) 8
      |> setFillStyle (Color currentFaceColor)
      |> setLineWidth 4
      |> beginPath
      |> arc (w / 2) (h * 0.68) 35 (0.1 * PI) (0.9 * PI) false
      |> stroke
      |> beginPath
      |> moveTo (w / 2 - 20) (h * 0.72)
      |> lineTo (w / 2 + 20) (h * 0.72)
      |> stroke
  else if String.eqb currentExpression "sleepy" then
    c |> setLineWidth 6
      |> beginPath
      |> arc (w / 2 - eyeSpacing) (eyeY + 5) 25 (0.3 * PI) (0.7 * PI) false
      |> stroke
      |> beginPath
      |> arc (w / 2 + eyeSpacing) (eyeY + 5) 25 (0.3 * PI) (0.7 * PI) false
      |> stroke
      |> beginPath
      |> ellipse (w / 2) (h * 0.73) 15 20 0 0 (PI * 2)
      |> stroke
      |> setFont "bold 18px Inter, sans-serif"
      |> fillText "z" (w * 0.75) (h * 0.35)
      |> setFont "bold 14px Inter, sans-serif"
      |> fillText "z" (w * 0.80) (h * 0.28)
      |> setFont "bold 10px Inter, sans-serif"
      |> fillText "z" (w * 0.84) (h * 0.22)
  else if String.eqb currentExpression "confused" then
    c |> beginPath
      |> ellipse (w / 2 - eyeSpacing) eyeY eyeWidth
           (eyeHeight * blinkScale) 0 0 (PI * 2)
      |> fill
      |> beginPath
      |> ellipse (w / 2 + eyeSpacing) (eyeY - 5) (eyeWidth * 0.8)
           (eyeHeight * 0.7 * blinkScale) 0 0 (PI * 2)
      |> fill
      |> setFont "bold 24px Inter, sans-serif"
      |> fillText "?" (w / 2 + eyeSpacing + 15) (eyeY - 25)
      |> setLineWidth 4
      |> beginPath
      |> moveTo (w / 2 - 30) (h * 0.72)
      |> quadraticCurveTo (w / 2 - 10) (h * 0.68) (w / 2) (h * 0.72)
      |> quadraticCurveTo (w / 2 + 10) (h * 0.76) (w / 2 + 30) (h * 0.72)
      |> stroke
  else c.

(** [drawFaceLocal(time)] (lines 1461 to 1703); [currentExpression],
    [currentFaceColor] and [displayText] are the values of
    [expressionRef], [faceColorRef] and [displayTextRef] the call
    reads. *)
Definition drawFaceLocal (currentExpression currentFaceColor : string)
    (displayText : option string) (time : R) (face : Face.t) : Face.t :=
  let c := Face.faceCtx face in
  let w := width c in
  let h := height c in
  let c := c |> setFillStyle (Color "#0a0a1a")
             |> fillRect 0 0 w h
             |> setShadowColor currentFaceColor
             |> setShadowBlur 20
             |> setFillStyle (Color currentFaceColor)
             |> setStrokeStyle (Color currentFaceColor)
             |> setLineWidth 3
             |> setLineCap "round" in
  if JSString.truthyOpt displayText then
    let text := match displayText with Some t => t | None => ""%string end in
    {| Face.faceCtx := drawText w h text c; Face.needsUpdate := true |}
  else
    {| Face.faceCtx :=
         drawExpression currentExpression currentFaceColor w h time c;
       Face.needsUpdate := true |}.

End ExpressionRenderer.

(* ================================================================== *)
(** * Camera capture *)
(* ================================================================== *)

(** A byte buffer ([Uint8Array], [ImageData.data]) by index. *)
Definition Pixels : Type := nat -> Z.

Definition store (i : nat) (v : Z) (buf : Pixels) : Pixels :=
  fun j => if Nat.eqb j i then v else buf j.

(** A [THREE.PerspectiveCamera] as the capture code sets it: where it
    stands and the point [lookAt] aimed it at. *)
Module Camera.
Record t : Type := mk { position : Vector3.t; lookTarget : Vector3.t }.
End Camera.

(** One camera's render target, read-back buffer and destination
    surface ([povCtx] and [povImageData], or [secCamCtx] and
    [secCamImageData]; either may be [undefined]). *)
Module Rig.
Record t : Type := mk {
  camera : Camera.t;
  renderTarget : Pixels;
  buffer : Pixels;
  imageData : option Pixels;
  ctx : option Canvas.Ctx
}.
End Rig.

Inductive Target : Type := Screen | RobotCameraRT | SecurityCameraRT.

(** Everything the two capture routines read or write. *)
Module World.
Record t : Type := mk {
  robotState : RobotState.t;
  robotPosition : Vector3.t;
  headWorldPosition : Vector3.t;
  robotVisible : bool;
  boundTarget : Target;
  secCamMountPosition : Vector3.t;
  secCamMountRotationY : R;
  pov : Rig.t;
  sec : Rig.t
}.

Definition setPov (r : Rig.t) (w : t) : t :=
  mk (robotState w) (robotPosition w) (headWorldPosition w)
     (robotVisible w) (boundTarget w) (secCamMountPosition w)
     (secCamMountRotationY w) r (sec w).

Definition setSec (r : Rig.t) (w : t) : t :=
  mk (robotState w) (robotPosition w) (headWorldPosition w)
     (robotVisible w) (boundTarget w) (secCamMountPosition w)
     (secCamMountRotationY w) (pov w) r.

Definition setRobotVisible (v : bool) (w : t) : t :=
  mk (robotState w) (robotPosition w) (headWorldPosition w)
     v (boundTarget w) (secCamMountPosition w)
     (secCamMountRotationY w) (pov w) (sec w).

Definition setRenderTarget (tg : Target) (w : t) : t :=
  mk (robotState w) (robotPosition w) (headWorldPosition w)
     (robotVisible w) tg (secCamMountPosition w)
     (secCamMountRotationY w) (pov w) (sec w).

Definition setMountRotationY (a : R) (w : t) : t :=
  mk (robotState w) (robotPosition w) (headWorldPosition w)
     (robotVisible w) (boundTarget w) (secCamMountPosition w)
     a (pov w) (sec w).
End World.

(** How a call ends. *)
Inductive Completion : Type := Returned | Threw (error : string).

Section CameraCapture.

(** [renderer.render(scene, camera)]: the pixels the GPU produces for
    the scene as it stands, seen from [camera]. *)
Variable renderScene : World.t -> Camera.t -> Pixels.

(** The row-reversing copy of the read-back buffer into the image,
    [for y < 360, for x < 640]. *)
Definition copyPixel (src : Pixels) (y : nat) (dst : Pixels) (x : nat)
    : Pixels :=
  let srcIdx := (((359 - y) * 640 + x) * 4)%nat in
  let dstIdx := ((y * 640 + x) * 4)%nat in
  dst |> store dstIdx (src srcIdx)
      |> store (dstIdx + 1) (src (srcIdx + 1)%nat)
      |> store (dstIdx + 2) (src (srcIdx + 2)%nat)
      |> store (dstIdx + 3) (src (srcIdx + 3)%nat).

Definition copyRow (src : Pixels) (dst : Pixels) (y : nat) : Pixels :=
  fold_left (copyPixel src y) (seq 0 640) dst.

Definition copyFlipped (src dst : Pixels) : Pixels :=
  fold_left (copyRow src) (seq 0 360) dst.

(** [for (let y = 0; y < 360; y += step) ctx.fillRect(0, y, 640, 1)] *)
Definition scanlines (step count : nat) (c : Canvas.Ctx) : Canvas.Ctx :=
  fold_left (fun c i => Canvas.fillRect 0 (INR (step * i)) 640 1 c)
    (seq 0 count) c.

(** The post-processing of the POV image. *)
Definition postProcessPOV (image : Pixels) (c : Canvas.Ctx) : Canvas.Ctx :=
  c |> Canvas.putImageData image 640 360 0 0
    |> Canvas.setGlobalCompositeOperation "lighter"
    |> Canvas.setFillStyle (Canvas.Color "rgba(40, 40, 50, 0.3)")
    |> Canvas.fillRect 0 0 640 360
    |> Canvas.setGlobalCompositeOperation "source-over"
    |> Canvas.setFillStyle (Canvas.Color "rgba(0, 0, 0, 0.015)")
    |> scanlines 3 120
    |> Canvas.setFillStyle
         (Canvas.RadialGradient 320 180 200 320 180 400
            [(0, "rgba(0,0,0,0)"%string); (1, "rgba(0,0,0,0.15)"%string)])
    |> Canvas.fillRect 0 0 640 360.

(** The post-processing of the security-camera image. *)
Definition postProcessSecurity (image : Pixels) (c : Canvas.Ctx)
    : Canvas.Ctx :=
  c |> Canvas.putImageData image 640 360 0 0
    |> Canvas.setGlobalCompositeOperation "multiply"
    |> Canvas.setFillStyle (Canvas.Color "rgba(255, 250, 230, 0.95)")
    |> Canvas.fillRect 0 0 640 360
    |> Canvas.setGlobalCompositeOperation "source-over"
    |> Canvas.setFillStyle (Canvas.Color "rgba(0, 0, 0, 0.02)")
    |> scanlines 2 180
    |> Canvas.setFillStyle
         (Canvas.RadialGradient 320 180 180 320 180 380
            [(0, "rgba(0,0,0,0)"%string); (1, "rgba(0,0,0,0.25)"%string)])
    |> Canvas.fillRect 0 0 640 360.

(** The statements of [renderRobotPOV] (lines 1944 to 2009) after its
    first line.  A use of
    [povImageData.data] or of a method of [povCtx] throws when the
    object is [undefined]. *)
Definition capturePOV (w : World.t) : World.t * Completion :=
  let state := World.robotState w in
  let headWorldPos := World.headWorldPosition w in
  let position :=
    Vector3.mk (Vector3.x (World.robotPosition w))
               (Vector3.y headWorldPos + 0.35)
               (Vector3.z (World.robotPosition w)) in
  let totalRotation :=
    RobotState.rotation state + RobotState.headRotY state in
  let lookTarget :=
    Vector3.mk (Vector3.x position + sin totalRotation * 10)
               (Vector3.y position - 0.5)
               (Vector3.z position + cos totalRotation * 10) in
  let robotCamera := Camera.mk position lookTarget in
  let rig := World.pov w in
  let w := w |> World.setPov
                  (Rig.mk robotCamera (Rig.renderTarget rig)
                     (Rig.buffer rig) (Rig.imageData rig) (Rig.ctx rig))
             |> World.setRobotVisible false
             |> World.setRenderTarget RobotCameraRT in
  let rendered := renderScene w robotCamera in
  let w := w |> World.setPov
                  (Rig.mk robotCamera rendered
                     (Rig.buffer rig) (Rig.imageData rig) (Rig.ctx rig))
             |> World.setRobotVisible true
             |> World.setRenderTarget Screen in
  let povBuffer := rendered in
  let w := w |> World.setPov
                  (Rig.mk robotCamera rendered povBuffer
                     (Rig.imageData rig) (Rig.ctx rig)) in
  match Rig.imageData rig with
  | None => (w, Threw "TypeError: povImageData is undefined")
  | Some data =>
      let data := copyFlipped povBuffer data in
      let w := w |> World.setPov
                      (Rig.mk robotCamera rendered povBuffer
                         (Some data) (Rig.ctx rig)) in
      match Rig.ctx rig with
      | None => (w, Threw "TypeError: povCtx is undefined")
      | Some povCtx =>
          (w |> World.setPov
                  (Rig.mk robotCamera rendered povBuffer (Some data)
                     (Some (postProcessPOV data povCtx))),
           Returned)
      end
  end.

(** [if (!povCtx || !povImageData) return;] *)
Definition renderRobotPOV (w : World.t) : World.t * Completion :=
  match Rig.ctx (World.pov w), Rig.imageData (World.pov w) with
  | None, _ | _, None => (w, Returned)
  | Some _, Some _ => capturePOV w
  end.

(** The statements of [renderSecurityCamera] (lines 2012 to 2066) after
    its first line. *)
Definition captureSecurity (w : World.t) : World.t * Completion :=
  let robotWorldPos := World.robotPosition w in
  let mount := World.secCamMountPosition w in
  let dx := Vector3.x robotWorldPos - Vector3.x mount in
  let dz := Vector3.z robotWorldPos - Vector3.z mount in
  let w := w |> World.setMountRotationY (JSMath.atan2 dx dz) in
  let position := Vector3.setY mount (Vector3.y mount + 0.7) in
  let lookTarget :=
    Vector3.mk (Vector3.x robotWorldPos) (Vector3.y robotWorldPos + 0.8)
               (Vector3.z robotWorldPos) in
  let securityCamera := Camera.mk position lookTarget in
  let rig := World.sec w in
  let w := w |> World.setSec
                  (Rig.mk securityCamera (Rig.renderTarget rig)
                     (Rig.buffer rig) (Rig.imageData rig) (Rig.ctx rig))
             |> World.setRenderTarget SecurityCameraRT in
  let rendered := renderScene w securityCamera in
  let secCamBuffer := rendered in
  let w := w |> World.setSec
                  (Rig.mk securityCamera rendered secCamBuffer
                     (Rig.imageData rig) (Rig.ctx rig))
             |> World.setRenderTarget Screen in
  match Rig.imageData rig with
  | None => (w, Threw "TypeError: secCamImageData is undefined")
  | Some data =>
      let data := copyFlipped secCamBuffer data in
      let w := w |> World.setSec
                      (Rig.mk securityCamera rendered secCamBuffer
                         (Some data) (Rig.ctx rig)) in
      match Rig.ctx rig with
      | None => (w, Threw "TypeError: secCamCtx is undefined")
      | Some secCamCtx =>
          (w |> World.setSec
                  (Rig.mk securityCamera rendered secCamBuffer (Some data)
                     (Some (postProcessSecurity data secCamCtx))),
           Returned)
      end
  end.

(** [if (!secCamCtx || !secCamImageData) return;] *)
Definition renderSecurityCamera (w : World.t) : World.t * Completion :=
  match Rig.ctx (World.sec w), Rig.imageData (World.sec w) with
  | None, _ | _, None => (w, Returned)
  | Some _, Some _ => captureSecurity w
  end.

Definition POV_RENDER_INTERVAL : R := 50.

(** The capture stage of [animate(currentTime)] (lines 2099 to 2103):
    the world, the new [lastPovRenderTime] and how the stage ended. *)
Definition captureStage (currentTime lastPovRenderTime : R) (w : World.t)
    : World.t * R * Completion :=
  if JS.gt (currentTime - lastPovRenderTime) POV_RENDER_INTERVAL then
    match renderRobotPOV w with
    | (w, Returned) =>
        match renderSecurityCamera w with
        | (w, Returned) => (w, currentTime, Returned)
        | (w, Threw e) => (w, lastPovRenderTime, Threw e)
        end
    | (w, Threw e) => (w, lastPovRenderTime, Threw e)
    end
  else (w, lastPovRenderTime, Returned).

End CameraCapture.

(* ================================================================== *)
(** * Specification vocabulary *)
(* ================================================================== *)

(** The condition under which a turn of the loop pushes. *)
Definition pushes (obj : Collidable.t) (newX newZ : R) : Prop :=
  isWall obj = false
  /\ distanceTo obj newX newZ < minDistOf obj
  /\ 0.001 < distanceTo obj newX newZ.

(** The accumulator after a push away from [obj]. *)
Definition pushed (obj : Collidable.t) (newX newZ : R) (acc : Outcome.t)
    : Outcome.t :=
  let d := distanceTo obj newX newZ in
  {| Outcome.x :=
       Outcome.x acc + (newX - objX obj) / d * (minDistOf obj - d);
     Outcome.z :=
       Outcome.z acc + (newZ - objZ obj) / d * (minDistOf obj - d);
     Outcome.collision := true |}.






(** The three limits of the integrator's state. *)
Definition withinLimits (s : RobotState.t) : Prop :=
  Rabs (RobotState.velocity s) <= PHYSICS.maxSpeed
  /\ Rabs (RobotState.angularVelocity s) <= PHYSICS.maxTurnSpeed
  /\ Rabs (RobotState.headRotY s) <= PHYSICS.headMaxRotation.

(** A frame, and [n] frames, with every flag false. *)
Definition coastStep (scene : option (list Collidable.t)) (dt : R)
    : RobotState.t -> RobotState.t :=
  updateMovement scene Actions.none dt.

Definition coastRun (scene : option (list Collidable.t)) (dt : R)
    : nat -> RobotState.t -> RobotState.t :=
  runFrames scene Actions.none dt.

(** The quadratic form in suspension velocity and offset that a
    spring-damper step of length [dt] scales by [1 - 8 * dt]. *)
Definition springEnergy (dt : R) (s : RobotState.t) : R :=
  (1 - 8 * dt) * (RobotState.suspensionVelocity s
                  * RobotState.suspensionVelocity s)
  + (8 - 80 * dt) * (RobotState.suspensionVelocity s
                     * RobotState.suspensionOffset s)
  + 80 * (RobotState.suspensionOffset s * RobotState.suspensionOffset s).

(** The two states of the coasting cycle at [dt = 0.1]: on the z axis of
    the scene, heading along it, at 0.15 forward at the origin or at
    0.15 backward 0.015 behind it. *)
Definition rocking (s : RobotState.t) : Prop :=
  RobotState.rotation s = 0
  /\ RobotState.angularVelocity s = 0
  /\ RobotState.x s = 0
  /\ (RobotState.velocity s = 0.15 /\ RobotState.z s = 0
      \/ RobotState.velocity s = -0.15 /\ RobotState.z s = -0.015).

(** A camera whose destination surface is missing: the 2D context or
    the image buffer is [undefined]. *)
Definition unavailable (r : Rig.t) : Prop :=
  Rig.ctx r = None \/ Rig.imageData r = None.

(** A world before the canvases are mounted: neither camera has a
    context or an image buffer. *)
Definition unmountedWorld : World.t :=
  let origin := Vector3.mk 0 0 0 in
  let blank : Pixels := fun _ => 0%Z in
  let rig := Rig.mk (Camera.mk origin origin) blank blank None None in
  World.mk RobotState.initial origin (Vector3.mk 0 1.95 0) true Screen
    (Vector3.mk 7 1.5 4) 0 rig rig.

(** The compositing settings of a context nobody has disturbed: full
    alpha, [source-over], no transform. *)
Definition neutral (s : Canvas.DrawState) : Prop :=
  Canvas.globalAlpha s = 1
  /\ Canvas.globalCompositeOperation s = "source-over"%string
  /\ Canvas.transform s = [].

(** Two contexts on bitmaps of one size that agree on the text layout
    settings [drawFaceLocal] never writes outside its text branch. *)
Definition sameTextLayout (a b : Canvas.Ctx) : Prop :=
  Canvas.width a = Canvas.width b
  /\ Canvas.height a = Canvas.height b
  /\ Canvas.textAlign (Canvas.state a) = Canvas.textAlign (Canvas.state b)
  /\ Canvas.textBaseline (Canvas.state a)
     = Canvas.textBaseline (Canvas.state b).

(** A text metric for examples: 14 pixels a character in every font. *)
Definition monospace14 (font text : string) : R :=
  14 * INR (String.length text).

(** The transforms [updateMovement] writes to the scene graph from the
    new state, and the orbit target eased a tenth of the way to the
    robot. *)
Module ScenePose.
Record t : Type := mk {
  robotPositionX : R;
  robotPositionZ : R;
  robotRotationY : R;
  bodyRotationX : R;
  bodyRotationZ : R;
  bodyPositionY : R;
  neckRotationX : R;
  neckPositionY : R;
  neckRingPositionY : R;
  leftWheelRotationX : R;
  rightWheelRotationX : R;
  headGroupRotationY : R;
  controlsTarget : Vector3.t
}.
End ScenePose.

(** [target.lerp(v, alpha)] *)
Definition lerp (target v : Vector3.t) (alpha : R) : Vector3.t :=
  Vector3.mk
    (Vector3.x target + (Vector3.x v - Vector3.x target) * alpha)
    (Vector3.y target + (Vector3.y v - Vector3.y target) * alpha)
    (Vector3.z target + (Vector3.z v - Vector3.z target) * alpha).

Definition sceneWrites (state : RobotState.t) (controlsTarget : Vector3.t)
    : ScenePose.t :=
  {| ScenePose.robotPositionX := RobotState.x state;
     ScenePose.robotPositionZ := RobotState.z state;
     ScenePose.robotRotationY := RobotState.rotation state;
     ScenePose.bodyRotationX := RobotState.bodyTilt state;
     ScenePose.bodyRotationZ := RobotState.bodyLean state;
     ScenePose.bodyPositionY := 0.8 + RobotState.suspensionOffset state;
     ScenePose.neckRotationX := RobotState.bodyTilt state * 0.5;
     ScenePose.neckPositionY :=
       1.5 + RobotState.suspensionOffset state * 0.8;
     ScenePose.neckRingPositionY :=
       1.42 + RobotState.suspensionOffset state * 0.8;
     ScenePose.leftWheelRotationX := RobotState.wheelRotation state;
     ScenePose.rightWheelRotationX := RobotState.wheelRotation state;
     ScenePose.headGroupRotationY := RobotState.headRotY state;
     ScenePose.controlsTarget :=
       lerp controlsTarget
         (Vector3.mk (RobotState.x state) 1 (RobotState.z state)) 0.1 |}.

(* ================================================================== *)
(** * Vocabulary for the further properties *)
(* ================================================================== *)

(** Did the resolver report a collision in this frame?  The flag
    [resolved.collision] of [updateMovement] (line 1769). *)
Definition frameCollided (scene : option (list Collidable.t))
    (actions : Actions.t) (delta : R) (state : RobotState.t) : bool :=
  let v := stepVelocity (targetVelocityOf actions) delta
             (RobotState.velocity state) in
  let rot := RobotState.rotation (updateMovement scene actions delta state) in
  Outcome.collision
    (resolveCollisions scene
       (RobotState.x state + sin rot * (v * delta))
       (RobotState.z state + cos rot * (v * delta))).

(** Limits on the parts of the pose the three limits of the integrator
    leave out: head turn rate, body tilt and body lean. *)
Definition poseWithinLimits (s : RobotState.t) : Prop :=
  Rabs (RobotState.headAngularVel s) <= PHYSICS.headTurnSpeed
  /\ Rabs (RobotState.bodyTilt s) <= 0.176
  /\ Rabs (RobotState.bodyLean s) <= 0.132.

(** The robot's centre is inside the wall bounds. *)
Definition insideArena (s : RobotState.t) : Prop :=
  -8.4 <= RobotState.x s <= 8.4 /\ -8.4 <= RobotState.z s <= 10.

(* ================================================================== *)
(** * Idle animation *)
(* ================================================================== *)

(** [idleStateRef.current] (lines 105 to 112). *)
Module IdleState.
Record t : Type := mk {
  headLookTarget : R;
  headLookCurrent : R;
  nextLookTime : R;
  breathPhase : R;
  attentionPhase : R;
  isLooking : bool
}.

Definition initial : t := mk 0 0 3000 0 0 false.
End IdleState.

(** What a call of [updateIdleAnimations] writes to the scene graph;
    [None] for a transform the call leaves alone. *)
Module IdlePose.
Record t : Type := mk {
  headGroupRotationY : option R;
  bodyPositionY : R;
  headGroupRotationX : option R
}.
End IdlePose.

(** [isMoving] of [updateIdleAnimations] (line 1837). *)
Definition idleIsMoving (state : RobotState.t) : bool :=
  JS.gt (JS.abs (RobotState.velocity state)) 0.1
  || JS.gt (JS.abs (RobotState.angularVelocity state)) 0.3.

(** The block under [if (currentTime > idle.nextLookTime)]: two draws,
    the first for the angle and the second for the pause. *)
Definition pickLook (currentTime : R) (idle : IdleState.t) (g : Random.t)
    : IdleState.t * Random.t :=
  if JS.gt currentTime (IdleState.nextLookTime idle) then
    let (r0, g) := Random.next g in
    let (r1, g) := Random.next g in
    ({| IdleState.headLookTarget := (r0 - 0.5) * 1.0;
        IdleState.headLookCurrent := IdleState.headLookCurrent idle;
        IdleState.nextLookTime := currentTime + 2000 + r1 * 4000;
        IdleState.breathPhase := IdleState.breathPhase idle;
        IdleState.attentionPhase := IdleState.attentionPhase idle;
        IdleState.isLooking := true |}, g)
  else (idle, g).

(** The block under [if (idle.isLooking) ... else ...]. *)
Definition easeLook (delta : R) (idle : IdleState.t) : IdleState.t :=
  if IdleState.isLooking idle then
    let current :=
      IdleState.headLookCurrent idle
      + (IdleState.headLookTarget idle - IdleState.headLookCurrent idle)
        * 2.0 * delta in
    {| IdleState.headLookTarget := IdleState.headLookTarget idle;
       IdleState.headLookCurrent := current;
       IdleState.nextLookTime := IdleState.nextLookTime idle;
       IdleState.breathPhase := IdleState.breathPhase idle;
       IdleState.attentionPhase := IdleState.attentionPhase idle;
       IdleState.isLooking :=
         if JS.lt (JS.abs (IdleState.headLookTarget idle - current)) 0.01
         then false else true |}
  else
    {| IdleState.headLookTarget := IdleState.headLookTarget idle;
       IdleState.headLookCurrent :=
         IdleState.headLookCurrent idle
         + (0 - IdleState.headLookCurrent idle) * 1.0 * delta;
       IdleState.nextLookTime := IdleState.nextLookTime idle;
       IdleState.breathPhase := IdleState.breathPhase idle;
       IdleState.attentionPhase := IdleState.attentionPhase idle;
       IdleState.isLooking := false |}.

(** [updateIdleAnimations(currentTime, delta)] (lines 1832 to 1868):
    the new [idleStateRef.current], the generator after the call and
    the transforms written.  [state] is [robotStateRef.current] and
    [actions] is [actionsRef.current] as the call reads them. *)
Definition updateIdleAnimations (state : RobotState.t) (actions : Actions.t)
    (currentTime delta : R) (idle : IdleState.t) (g : Random.t)
    : IdleState.t * Random.t * IdlePose.t :=
  let isMoving := idleIsMoving state in
  let isUserControllingHead :=
    Actions.headLeft actions || Actions.headRight actions in
  let '(idle, g, rotationY) :=
    if negb isMoving && negb isUserControllingHead then
      let (idle, g) := pickLook currentTime idle g in
      let idle := easeLook delta idle in
      (idle, g,
       Some (RobotState.headRotY state + IdleState.headLookCurrent idle))
    else (idle, g, None) in
  let breathPhase := IdleState.breathPhase idle + delta * 1.5 in
  let breathOffset := sin breathPhase * 0.003 in
  let attentionPhase := IdleState.attentionPhase idle + delta * 0.8 in
  let attentionTilt := sin attentionPhase * 0.01 in
  ({| IdleState.headLookTarget := IdleState.headLookTarget idle;
      IdleState.headLookCurrent := IdleState.headLookCurrent idle;
      IdleState.nextLookTime := IdleState.nextLookTime idle;
      IdleState.breathPhase := breathPhase;
      IdleState.attentionPhase := attentionPhase;
      IdleState.isLooking := IdleState.isLooking idle |},
   g,
   {| IdlePose.headGroupRotationY := rotationY;
      IdlePose.bodyPositionY :=
        0.8 + RobotState.suspensionOffset state + breathOffset;
      IdlePose.headGroupRotationX :=
        if negb isMoving then Some attentionTilt else None |}).

(* ================================================================== *)
(** * The state side of [animate] *)
(* ================================================================== *)

(** The variables [animate] carries from frame to frame, as far as the
    three update calls are concerned. *)
Module Loop.
Record t : Type := mk {
  lastTime : R;
  robot : RobotState.t;
  idle : IdleState.t;
  dust : list DustParticle.t;
  rng : Random.t
}.
End Loop.




(** [Math.random] returns a number in [[0, 1)]. *)
Definition unitDraws (g : Random.t) : Prop :=
  forall i, 0 <= Random.draws g i < 1.

(** The idle glance is within half a radian either way. *)
Definition glanceWithinLimits (idle : IdleState.t) : Prop :=
  Rabs (IdleState.headLookTarget idle) <= 0.5
  /\ Rabs (IdleState.headLookCurrent idle) <= 0.5.



(** The test that keeps a particle in the pool after ageing. *)
Definition survives (p : DustParticle.t) : bool :=
  negb (JS.ge (DustParticle.life p) (DustParticle.maxLife p)).

(** Index of channel [k] of the pixel in column [x] of row [y] of a
    640-pixel-wide RGBA image. *)
Definition channelIndex (y x k : nat) : nat := ((y * 640 + x) * 4 + k)%nat.

(** A destination surface is there: context and image buffer. *)
Definition available (r : Rig.t) : Prop :=
  Rig.ctx r <> None /\ Rig.imageData r <> None.

(** The world once the page has mounted its two 640 by 360 canvases:
    both cameras have a context and an image buffer; the robot stands
    at the origin and the mount at (7, 1.5, 4) (line 1007). *)
Definition mountedWorld : World.t :=
  let origin := Vector3.mk 0 0 0 in
  let blank : Pixels := fun _ => 0%Z in
  let rig :=
    Rig.mk (Camera.mk origin origin) blank blank (Some blank)
      (Some (Canvas.fresh 640 360)) in
  World.mk RobotState.initial origin (Vector3.mk 0 1.95 0) true Screen
    (Vector3.mk 7 1.5 4) 0 rig rig.

(* ================================================================== *)
(** * Runs of the face renderer *)
(* ================================================================== *)

(** What one call of [drawFaceLocal] reads: the expression, the face
    colour, the override text and the time. *)
Module FaceFrame.
Record t : Type := mk {
  expression : string;
  faceColor : string;
  displayText : option string;
  time : R
}.
End FaceFrame.

Section FaceRuns.

Variable measureText : string -> string -> R.

Definition drawFaceFrame (face : Face.t) (f : FaceFrame.t) : Face.t :=
  drawFaceLocal measureText (FaceFrame.expression f) (FaceFrame.faceColor f)
    (FaceFrame.displayText f) (FaceFrame.time f) face.

(** The calls of [drawFaceLocal] a run of [animate] makes, in order. *)
Definition drawFaces (frames : list FaceFrame.t) (face : Face.t) : Face.t :=
  fold_left drawFaceFrame frames face.

End FaceRuns.

(** The LCD context is as the renderer expects to find it: neutral
    compositing, an empty stack of saved states, the panel's size. *)
Definition faceInOrder (face : Face.t) : Prop :=
  neutral (Canvas.state (Face.faceCtx face))
  /\ Canvas.saved (Face.faceCtx face) = []
  /\ Canvas.width (Face.faceCtx face) = 256
  /\ Canvas.height (Face.faceCtx face) = 160.

(** The bitmap begins with the background fill. *)
Definition wiped (face : Face.t) : Prop :=
  exists marks,
    Canvas.raster (Face.faceCtx face) = Canvas.Solid "#0a0a1a" :: marks.

(** [s] with its space characters removed. *)
Fixpoint withoutSpaces (s : string) : string :=
  match s with
  | EmptyString => EmptyString
  | String c rest =>
      if Ascii.eqb c " "%char then withoutSpaces rest
      else String c (withoutSpaces rest)
  end.

(** The strings of a list, one after the other. *)
Definition joinAll (l : list string) : string :=
  fold_right String.append EmptyString l.

(** The mark the text branch paints for line [k] of [n]. *)
Definition textLineMark (w h : R) (n : nat) (color : string)
    (c : Canvas.Compositing) (entry : nat * string) : Canvas.Mark :=
  let (k, line) := entry in
  Canvas.FilledText line (w / 2) (h / 2 + (INR k - (INR n - 1) / 2) * 32)
    (Canvas.Color color) "bold 28px Inter, sans-serif" "center" "middle" c.

(** A line of the wrapped text fits the panel less its margin, or is a
    single word of the text, or is empty. *)
Definition lineAllowed (measureText : string -> string -> R)
    (c : Canvas.Ctx) (w : R) (words : list string) (line : string) : Prop :=
  measureText (Canvas.font (Canvas.state c)) line <= w - 40
  \/ In line words \/ line = ""%string.

(* ================================================================== *)
(** * Controls: keyboard, buttons and voice *)
(* ================================================================== *)

(** [actionsRef.current[action] = value] (line 2177).  A name other
    than the six flags adds a property nothing reads and leaves the
    flags as they are. *)
Definition setAction (action : string) (value : bool) (a : Actions.t)
    : Actions.t :=
  if String.eqb action "forward" then
    Actions.mk value (Actions.backward a) (Actions.turnLeft a)
      (Actions.turnRight a) (Actions.headLeft a) (Actions.headRight a)
  else if String.eqb action "backward" then
    Actions.mk (Actions.forward a) value (Actions.turnLeft a)
      (Actions.turnRight a) (Actions.headLeft a) (Actions.headRight a)
  else if String.eqb action "turnLeft" then
    Actions.mk (Actions.forward a) (Actions.backward a) value
      (Actions.turnRight a) (Actions.headLeft a) (Actions.headRight a)
  else if String.eqb action "turnRight" then
    Actions.mk (Actions.forward a) (Actions.backward a) (Actions.turnLeft a)
      value (Actions.headLeft a) (Actions.headRight a)
  else if String.eqb action "headLeft" then
    Actions.mk (Actions.forward a) (Actions.backward a) (Actions.turnLeft a)
      (Actions.turnRight a) value (Actions.headRight a)
  else if String.eqb action "headRight" then
    Actions.mk (Actions.forward a) (Actions.backward a) (Actions.turnLeft a)
      (Actions.turnRight a) (Actions.headLeft a) value
  else a.

(** [actionsRef.current[action]] for one of the six flags. *)
Definition getAction (action : string) (a : Actions.t) : option bool :=
  if String.eqb action "forward" then Some (Actions.forward a)
  else if String.eqb action "backward" then Some (Actions.backward a)
  else if String.eqb action "turnLeft" then Some (Actions.turnLeft a)
  else if String.eqb action "turnRight" then Some (Actions.turnRight a)
  else if String.eqb action "headLeft" then Some (Actions.headLeft a)
  else if String.eqb action "headRight" then Some (Actions.headRight a)
  else None.

(** The [keyMap] of the two keyboard handlers (lines 2124 to 2135 and
    2144 to 2155), by [KeyboardEvent.code]. *)
Definition keyMap : list (string * string) :=
  [ ("KeyW", "forward"); ("ArrowUp", "forward");
    ("KeyS", "backward"); ("ArrowDown", "backward");
    ("KeyA", "turnLeft"); ("ArrowLeft", "turnLeft");
    ("KeyD", "turnRight"); ("ArrowRight", "turnRight");
    ("KeyQ", "headLeft"); ("KeyE", "headRight") ]%string.

(** [keyMap[e.code]] *)
Definition keyMapAt (code : string) : option string :=
  option_map snd (find (fun entry => String.eqb (fst entry) code) keyMap).

(** [handleKeyDown(e)]: the flags, and whether [preventDefault] was
    called. *)
Definition handleKeyDown (code : string) (a : Actions.t)
    : Actions.t * bool :=
  if JSString.truthyOpt (keyMapAt code) then
    match keyMapAt code with
    | Some action => (setAction action true a, true)
    | None => (a, false)
    end
  else (a, false).

(** [handleKeyUp(e)] *)
Definition handleKeyUp (code : string) (a : Actions.t) : Actions.t :=
  if JSString.truthyOpt (keyMapAt code) then
    match keyMapAt code with
    | Some action => setAction action false a
    | None => a
    end
  else a.

Inductive KeyEvent : Type :=
| KeyDown (code : string)
| KeyUp (code : string).

Definition keyStep (a : Actions.t) (e : KeyEvent) : Actions.t :=
  match e with
  | KeyDown code => fst (handleKeyDown code a)
  | KeyUp code => handleKeyUp code a
  end.

(** The flags after a sequence of keyboard events. *)
Definition keyRun (events : list KeyEvent) (a : Actions.t) : Actions.t :=
  fold_left keyStep events a.

(** [s.includes(sub)] *)
Fixpoint includes (sub s : string) : bool :=
  if String.prefix sub s then true
  else match s with
       | EmptyString => false
       | String _ rest => includes sub rest
       end.

(** The page's side of the controls ([src/app/page.tsx]): the flags
    behind [window.robotActions] ([None] while the scene has not
    installed it), [commandTimeoutRef.current], and the timers of
    [setTimeout] still pending, each with its delay and the command it
    will stop.  Timer ids are positive. *)
Module Voice.
Record t : Type := mk {
  robotActions : option Actions.t;
  commandTimeoutRef : option nat;
  timers : list (nat * (R * string));
  lastTimerId : nat
}.

Definition initial (a : option Actions.t) : t := mk a None [] 0.
End Voice.

(** [setRobotAction(action, value)] (page.tsx, lines 189 to 197). *)
Definition setRobotAction (action : string) (value : bool) (v : Voice.t)
    : Voice.t :=
  Voice.mk (option_map (setAction action value) (Voice.robotActions v))
    (Voice.commandTimeoutRef v) (Voice.timers v) (Voice.lastTimerId v).

(** [clearTimeout(id)]: the timer, if still pending, will not fire. *)
Definition clearTimeout (id : nat) (v : Voice.t) : Voice.t :=
  Voice.mk (Voice.robotActions v) (Voice.commandTimeoutRef v)
    (filter (fun timer => negb (Nat.eqb (fst timer) id)) (Voice.timers v))
    (Voice.lastTimerId v).

(** The four [setRobotAction(..., false)] calls. *)
Definition stopMoving (v : Voice.t) : Voice.t :=
  v |> setRobotAction "forward" false
    |> setRobotAction "backward" false
    |> setRobotAction "turnLeft" false
    |> setRobotAction "turnRight" false.

(** [duration || (command.includes('turn') ? 500 : 1000)] *)
Definition stopDuration (command : string) (duration : option R) : R :=
  JS.orElse duration (if includes "turn" command then 500 else 1000).

(** [handleVoiceCommand(command, duration)] (page.tsx, lines 213 to
    242). *)
Definition handleVoiceCommand (command : string) (duration : option R)
    (v : Voice.t) : Voice.t :=
  let v :=
    match Voice.commandTimeoutRef v with
    | Some id =>
        if Nat.eqb id 0 then v else stopMoving (clearTimeout id v)
    | None => v
    end in
  if String.eqb command "stop" then stopMoving v
  else
    let v := setRobotAction command true v in
    let id := S (Voice.lastTimerId v) in
    Voice.mk (Voice.robotActions v) (Some id)
      (Voice.timers v ++ [(id, (stopDuration command duration, command))])
      id.

(** The browser runs the callback of timer [id]:
    [setRobotAction(command, false)].  Nothing happens for a timer that
    is not pending. *)
Definition timerFires (id : nat) (v : Voice.t) : Voice.t :=
  match find (fun timer => Nat.eqb (fst timer) id) (Voice.timers v) with
  | Some (_, (_, command)) =>
      setRobotAction command false (clearTimeout id v)
  | None => v
  end.

(** The client tools of [VoiceControl.tsx] (lines 33 to 67): the call
    each makes to [onCommand], which the page binds to
    [handleVoiceCommand]. *)
Definition clientTool (tool : string) (duration : option R)
    : option (string * option R) :=
  if String.eqb tool "robot_move_forward" then
    Some ("forward"%string, Some (JS.orElse duration 1000))
  else if String.eqb tool "robot_move_backward" then
    Some ("backward"%string, Some (JS.orElse duration 1000))
  else if String.eqb tool "robot_turn_left" then
    Some ("turnLeft"%string, Some (JS.orElse duration 500))
  else if String.eqb tool "robot_turn_right" then
    Some ("turnRight"%string, Some (JS.orElse duration 500))
  else if String.eqb tool "robot_stop" then Some ("stop"%string, None)
  else None.

Inductive VoiceEvent : Type :=
| Command (command : string) (duration : option R)
| TimerFires (id : nat)
| Button (action : string) (value : bool).

Definition voiceStep (v : Voice.t) (e : VoiceEvent) : Voice.t :=
  match e with
  | Command command duration => handleVoiceCommand command duration v
  | TimerFires id => timerFires id v
  | Button action value => setRobotAction action value v
  end.

(** The page's state after a sequence of voice commands, timer
    callbacks and button presses. *)
Definition voiceRun (events : list VoiceEvent) (v : Voice.t) : Voice.t :=
  fold_left voiceStep events v.

(** At most one stop timer is pending, and it is the one
    [commandTimeoutRef] names; the ref is null until the first command
    and holds a positive id from then on. *)
Definition oneTimer (v : Voice.t) : Prop :=
  (Voice.commandTimeoutRef v = None /\ Voice.timers v = [])
  \/ exists id,
       id <> 0%nat /\ Voice.commandTimeoutRef v = Some id
       /\ (Voice.timers v = []
           \/ exists delay command,
                Voice.timers v = [(id, (delay, command))]).

(** Are the four drive flags all down? *)
Definition driveFlagsDown (a : Actions.t) : Prop :=
  Actions.forward a = false /\ Actions.backward a = false
  /\ Actions.turnLeft a = false /\ Actions.turnRight a = false.

(** The four drive flags, by name. *)
Definition driveNames : list string :=
  ["forward"; "backward"; "turnLeft"; "turnRight"]%string.

(** Has a voice command other than "stop" been handled?  Such a
    command is what sets [commandTimeoutRef]. *)
Definition commandedBefore (events : list VoiceEvent) : bool :=
  existsb (fun e => match e with
                    | Command command _ => negb (String.eqb command "stop")
                    | _ => false
                    end) events.

(* ================================================================== *)
(** * The resolver and the velocity blocks in double arithmetic *)
(* ================================================================== *)

(** The same source lines with a [number] read as what it is, a
    binary64 value, for the operations the kernel's floats provide:
    [+], [-], [*], [/], [Math.sqrt], [Math.abs] and the comparisons,
    each rounded to nearest as in the program.  [Math.sin] and
    [Math.cos] are not among them, so the heading stays outside this
    module. *)
Module Double.
Import Floats.
#[local] Set Warnings "-inexact-float".
Local Open Scope float_scope.

Module PHYSICS.
Definition maxSpeed : float := 2.2.
Definition acceleration : float := 4.0.
Definition deceleration : float := 5.0.
Definition friction : float := 3.0.
Definition headTurnSpeed : float := 2.5.
Definition headFriction : float := 6.0.
End PHYSICS.

Definition ROBOT_RADIUS : float := 0.5.
Definition COLLISION_PADDING : float := 0.1.

(** [Math.sign]: 1, -1, or the argument itself when it is a zero or
    NaN. *)
Definition sign (v : float) : float :=
  if 0 <? v then 1 else if v <? 0 then -1 else v.

(** [Math.max] and [Math.min] of two numbers: NaN when either is, and
    +0 above -0. *)
Definition max (a b : float) : float :=
  if (is_nan a || is_nan b)%bool then nan
  else if a <? b then b
  else if b <? a then a
  else if get_sign a then b else a.

Definition min (a b : float) : float :=
  if (is_nan a || is_nan b)%bool then nan
  else if a <? b then a
  else if b <? a then b
  else if get_sign a then a else b.

(** [a || b] on numbers: [b] when [a] is undefined, a zero or NaN. *)
Definition orElse (a : option float) (b : float) : float :=
  match a with
  | Some v => if ((v =? 0) || is_nan v)%bool then b else v
  | None => b
  end.

Module Collidable.
Record t : Type := mk {
  mesh : option (float * float);
  type : string;
  radius : option float;
  x : option float;
  z : option float
}.
End Collidable.

Module Outcome.
Record t : Type := mk { x : float; z : float; collision : bool }.
End Outcome.

Definition objX (obj : Collidable.t) : float :=
  match Collidable.x obj with
  | Some v => v
  | None => match Collidable.mesh obj with Some p => fst p | None => 0 end
  end.

Definition objZ (obj : Collidable.t) : float :=
  match Collidable.z obj with
  | Some v => v
  | None => match Collidable.mesh obj with Some p => snd p | None => 0 end
  end.

(** [Math.sqrt(dx * dx + dz * dz)] *)
Definition distanceBetween (x z cx cz : float) : float :=
  let dx := x - cx in
  let dz := z - cz in
  sqrt (dx * dx + dz * dz).

(** One turn of the loop of [checkObjectCollision] (lines 644 to
    664). *)
Definition objectLoopBody (newX newZ : float) (acc : Outcome.t)
    (obj : Collidable.t) : Outcome.t :=
  let robotR := ROBOT_RADIUS + COLLISION_PADDING in
  if String.eqb (Collidable.type obj) "wall" then acc
  else
    let objR := orElse (Collidable.radius obj) 0.5 in
    let dx := newX - objX obj in
    let dz := newZ - objZ obj in
    let distance := sqrt (dx * dx + dz * dz) in
    let minDist := robotR + objR in
    if ((distance <? minDist) && (0.001 <? distance))%bool then
      let pushDist := minDist - distance in
      let normalX := dx / distance in
      let normalZ := dz / distance in
      {| Outcome.x := Outcome.x acc + normalX * pushDist;
         Outcome.z := Outcome.z acc + normalZ * pushDist;
         Outcome.collision := true |}
    else acc.

(** [checkObjectCollision] (lines 636 to 667). *)
Definition checkObjectCollision (scene : option (list Collidable.t))
    (newX newZ : float) : Outcome.t :=
  match scene with
  | None => Outcome.mk newX newZ false
  | Some collidableObjects =>
      fold_left (objectLoopBody newX newZ) collidableObjects
        (Outcome.mk newX newZ false)
  end.

(** [checkWallCollision] (lines 623 to 634). *)
Definition checkWallCollision (newX newZ : float) : float * float :=
  let r := ROBOT_RADIUS + COLLISION_PADDING in
  let minX := -9 + r in
  let maxX := 9 - r in
  let minZ := -9 + r in
  let maxZ := 10 in
  (max minX (min maxX newX), max minZ (min maxZ newZ)).

(** [resolveCollisions] (lines 669 to 679). *)
Definition resolveCollisions (scene : option (list Collidable.t))
    (newX newZ : float) : Outcome.t :=
  let objResult := checkObjectCollision scene newX newZ in
  let wallResult :=
    checkWallCollision (Outcome.x objResult) (Outcome.z objResult) in
  let wallCollision :=
    (negb (fst wallResult =? Outcome.x objResult)
     || negb (snd wallResult =? Outcome.z objResult))%bool in
  {| Outcome.x := fst wallResult;
     Outcome.z := snd wallResult;
     Outcome.collision := (Outcome.collision objResult || wallCollision)%bool |}.

(** The linear-velocity block of [updateMovement] (lines 1715 to
    1727). *)
Definition stepVelocity (targetVelocity delta velocity : float) : float :=
  if negb (targetVelocity =? 0) then
    let accel :=
      if velocity <? targetVelocity then PHYSICS.acceleration
      else PHYSICS.deceleration in
    let velocity :=
      velocity + sign (targetVelocity - velocity) * accel * delta in
    if abs targetVelocity <? abs velocity then targetVelocity
    else velocity
  else
    if 0.01 <? abs velocity then
      velocity - sign velocity * PHYSICS.friction * delta
    else 0.

(** The head-velocity block (lines 1750 to 1754). *)
Definition stepHeadAngularVel (targetHeadVel delta headAngularVel : float)
    : float :=
  if negb (targetHeadVel =? 0) then
    headAngularVel
    + (targetHeadVel - headAngularVel) * PHYSICS.headFriction * delta
  else
    headAngularVel * (1 - PHYSICS.headFriction * delta).

(** A barrel of radius 0.5 at the origin, as the scene set-up registers
    its barrels: [{ mesh, type: 'barrel', radius: 0.5, x, z }]. *)
Definition barrelAtOrigin : Collidable.t :=
  Collidable.mk (Some (0, 0)) "barrel" (Some 0.5) (Some 0) (Some 0).

(** A proposed point for which the pass computes distance 0.3 from
    the origin. *)
Definition nearX : float := -0.28501905037288117.
Definition nearZ : float := 0.09361699057618236.

(** A second barrel two units along x: the discs do not overlap, but
    the gap is narrower than the robot. *)
Definition barrelAtTwo : Collidable.t :=
  Collidable.mk (Some (2, 0)) "barrel" (Some 0.5) (Some 2) (Some 0).

(** The rounded sixtieth of a second of a 60 Hz display. *)
Definition sixtieth : float := 1 / 60.

(** Five times the smallest positive binary64 number, about 2.5e-323. *)
Definition headRest : float := 0x5p-1074.

End Double.
(* ================================================================== *)
(** * Facts about the numeric primitives *)
(* ================================================================== *)

Module JSFacts.

Import JS.

Lemma lt_true a b : lt a b = true <-> a < b.
Proof. unfold lt; destruct (Rlt_dec a b); split; intros; try easy. Qed.

Lemma lt_false a b : lt a b = false <-> b <= a.
Proof.
  unfold lt; destruct (Rlt_dec a b); split; intros; try easy; lra.
Qed.

Lemma gt_true a b : gt a b = true <-> b < a.
Proof. apply lt_true. Qed.

Lemma gt_false a b : gt a b = false <-> a <= b.
Proof. apply lt_false. Qed.

Lemma ge_true a b : ge a b = true <-> b <= a.
Proof. unfold ge; destruct (Rle_dec b a); split; intros; try easy. Qed.

Lemma ge_false a b : ge a b = false <-> a < b.
Proof.
  unfold ge; destruct (Rle_dec b a); split; intros; try easy; lra.
Qed.

Lemma strictEq_true a b : strictEq a b = true <-> a = b.
Proof.
  unfold strictEq; destruct (Req_dec_T a b); split; intros; try easy.
Qed.

Lemma strictNe_true a b : strictNe a b = true <-> a <> b.
Proof.
  unfold strictNe, strictEq; destruct (Req_dec_T a b); split; intros;
    try easy.
Qed.

Lemma strictNe_false a b : strictNe a b = false <-> a = b.
Proof.
  unfold strictNe, strictEq; destruct (Req_dec_T a b); split; intros;
    try easy.
Qed.

Lemma sign_pos v : 0 < v -> sign v = 1.
Proof. intros; unfold sign; destruct (Rlt_dec 0 v); lra. Qed.

Lemma sign_neg v : v < 0 -> sign v = -1.
Proof.
  intros; unfold sign; destruct (Rlt_dec 0 v); [lra|].
  destruct (Rlt_dec v 0); lra.
Qed.

Lemma sign_zero : sign 0 = 0.
Proof.
  unfold sign; destruct (Rlt_dec 0 0); [lra|]. reflexivity.
Qed.

Lemma sign_mul_abs v : sign v * v = Rabs v.
Proof.
  unfold sign; destruct (Rlt_dec 0 v).
  - rewrite Rabs_pos_eq; lra.
  - destruct (Rlt_dec v 0).
    + rewrite Rabs_left; lra.
    + replace v with 0 by lra. rewrite Rabs_R0; lra.
Qed.

Lemma sign_bound v : -1 <= sign v <= 1.
Proof.
  unfold sign; destruct (Rlt_dec 0 v); [lra|].
  destruct (Rlt_dec v 0); lra.
Qed.

(** [sqrt] against a bound. *)
Lemma sqrt_ge_of_sq (a m : R) : m * m <= a -> m <= R_sqrt.sqrt a.
Proof.
  intros H. destruct (Rle_dec 0 m) as [Hm|Hm].
  - rewrite <- (sqrt_square m Hm). apply sqrt_le_1_alt. exact H.
  - pose proof (sqrt_pos a). lra.
Qed.


Lemma sumsq_nonneg (a b : R) : 0 <= a * a + b * b.
Proof. nra. Qed.

Lemma sqrt_sumsq_sq (a b : R) :
  R_sqrt.sqrt (a * a + b * b) * R_sqrt.sqrt (a * a + b * b)
  = a * a + b * b.
Proof. apply sqrt_sqrt, sumsq_nonneg. Qed.

End JSFacts.

(* ================================================================== *)
(** * The model on small inputs *)
(* ================================================================== *)

Example split_greeting :
  JSString.split "Nice to meet you!"
  = ["Nice"; "to"; "meet"; "you!"]%string.
Proof. reflexivity. Qed.

Example split_empty : JSString.split "" = [""%string].
Proof. reflexivity. Qed.

Example split_double_space :
  JSString.split "a  b" = ["a"; ""; "b"]%string.
Proof. reflexivity. Qed.

Example walls_are_skipped :
  map isWall collidableObjects
  = [true; true; true; false; false; false; false; false; false; false;
     false; false; false; false; false; false].
Proof. reflexivity. Qed.

Example opaque_background :
  Canvas.opaqueCss "#0a0a1a" = true
  /\ Canvas.opaqueCss "rgba(40, 40, 50, 0.3)" = false.
Proof. split; reflexivity. Qed.

Example report_at_rest : snd (speedReport RobotState.initial) = "Idle"%string.
Proof.
  unfold speedReport, RobotState.initial, JS.abs; simpl.
  rewrite Rabs_R0.
  assert (E1 : JS.gt 0 0.1 = false) by (apply JSFacts.gt_false; lra).
  assert (E2 : JS.gt 0 0.3 = false) by (apply JSFacts.gt_false; lra).
  rewrite E1, E2. reflexivity.
Qed.

Example full_speed_target :
  targetVelocityOf (Actions.mk true false false false false false) = 2.2
  /\ targetVelocityOf (Actions.mk true true false false false false)
     = -1.32.
Proof.
  unfold targetVelocityOf, PHYSICS.maxSpeed; simpl. split; lra.
Qed.

Example spawn_draws_five :
  let g := Random.mk (fun _ => 0.5) 0 in
  Random.cursor (snd (spawnDustParticle [] g 0 0.1 0 0 0)) = 5%nat.
Proof. reflexivity. Qed.

(* ================================================================== *)
(** * Collision resolver: the wall clamp *)
(* ================================================================== *)

Lemma robotR_value : robotR = 0.6.
Proof. unfold robotR, ROBOT_RADIUS, COLLISION_PADDING. lra. Qed.

Lemma clamp_bounds (lo hi v : R) :
  lo <= hi -> lo <= Rmax lo (Rmin hi v) <= hi.
Proof.
  intros H. unfold Rmax, Rmin.
  destruct (Rle_dec hi v); destruct (Rle_dec lo _); lra.
Qed.

Lemma clamp_id (lo hi v : R) :
  lo <= v <= hi -> Rmax lo (Rmin hi v) = v.
Proof.
  intros H. unfold Rmax, Rmin.
  destruct (Rle_dec hi v); destruct (Rle_dec lo _); lra.
Qed.

Lemma clamp_above (lo hi v : R) :
  lo <= hi -> hi <= v -> Rmax lo (Rmin hi v) = hi.
Proof.
  intros H1 H2. unfold Rmax, Rmin.
  destruct (Rle_dec hi v); destruct (Rle_dec lo _); lra.
Qed.


Lemma wall_x (newX newZ : R) :
  Point.x (checkWallCollision newX newZ) = Rmax (-8.4) (Rmin 8.4 newX).
Proof.
  unfold checkWallCollision, JS.max, JS.min, ROBOT_RADIUS,
    COLLISION_PADDING; simpl.
  replace (-9 + (0.5 + 0.1)) with (-8.4) by lra.
  replace (9 - (0.5 + 0.1)) with 8.4 by lra. reflexivity.
Qed.

Lemma wall_z (newX newZ : R) :
  Point.z (checkWallCollision newX newZ) = Rmax (-8.4) (Rmin 10 newZ).
Proof.
  unfold checkWallCollision, JS.max, JS.min, ROBOT_RADIUS,
    COLLISION_PADDING; simpl.
  replace (-9 + (0.5 + 0.1)) with (-8.4) by lra. reflexivity.
Qed.

(** C5.  The wall clamp returns a point with [x] in [[-8.4, 8.4]] and
    [z] in [[-8.4, 10]] (the arena inset by the effective radius 0.6,
    the +z side open up to 10), and a proposed [x] of 20 is clamped to
    exactly 8.4 whatever the proposed [z]. *)
Theorem wall_clamp_within_arena (newX newZ : R) :
  ROBOT_RADIUS + COLLISION_PADDING = 0.6
  /\ -8.4 <= Point.x (checkWallCollision newX newZ) <= 8.4
  /\ -8.4 <= Point.z (checkWallCollision newX newZ) <= 10
  /\ Point.x (checkWallCollision 20 newZ) = 8.4.
Proof.
  split; [apply robotR_value|].
  rewrite !wall_x, !wall_z. repeat split.
  - apply clamp_bounds; lra.
  - apply clamp_bounds; lra.
  - apply clamp_bounds; lra.
  - apply clamp_bounds; lra.
  - apply clamp_above; lra.
Qed.

(* ================================================================== *)
(** * Collision resolver: the object pass *)
(* ================================================================== *)

Lemma body_push obj newX newZ acc :
  pushes obj newX newZ ->
  objectLoopBody newX newZ acc obj = pushed obj newX newZ acc.
Proof.
  intros (Hw & Hlt & Hgt). unfold objectLoopBody. rewrite Hw.
  fold (distanceTo obj newX newZ). fold (minDistOf obj).
  cbv zeta. fold (distanceTo obj newX newZ). fold (minDistOf obj).
  apply JSFacts.lt_true in Hlt. apply JSFacts.gt_true in Hgt.
  rewrite Hlt, Hgt. reflexivity.
Qed.

Lemma body_skip obj newX newZ acc :
  ~ pushes obj newX newZ ->
  objectLoopBody newX newZ acc obj = acc.
Proof.
  intros Hn. unfold objectLoopBody.
  destruct (isWall obj) eqn:Hw; [reflexivity|].
  cbv zeta. fold (distanceTo obj newX newZ). fold (minDistOf obj).
  destruct (JS.lt (distanceTo obj newX newZ) (minDistOf obj)) eqn:Hlt;
    [|reflexivity].
  destruct (JS.gt (distanceTo obj newX newZ) 0.001) eqn:Hgt;
    [|reflexivity].
  exfalso. apply Hn. apply JSFacts.lt_true in Hlt.
  apply JSFacts.gt_true in Hgt. repeat split; assumption.
Qed.

Lemma pushes_dec obj newX newZ :
  {pushes obj newX newZ} + {~ pushes obj newX newZ}.
Proof.
  unfold pushes. destruct (isWall obj).
  - right. intros (H & _). discriminate.
  - destruct (Rlt_dec (distanceTo obj newX newZ) (minDistOf obj)).
    + destruct (Rlt_dec 0.001 (distanceTo obj newX newZ)).
      * left. auto.
      * right. intros (_ & _ & H). contradiction.
    + right. intros (_ & H & _). contradiction.
Qed.

Lemma pushed_changes obj newX newZ acc :
  pushes obj newX newZ -> pushed obj newX newZ acc <> acc.
Proof.
  intros (Hw & Hlt & Hgt) Heq.
  assert (Hx : Outcome.x (pushed obj newX newZ acc) = Outcome.x acc)
    by (rewrite Heq; reflexivity).
  assert (Hz : Outcome.z (pushed obj newX newZ acc) = Outcome.z acc)
    by (rewrite Heq; reflexivity).
  unfold pushed in Hx, Hz; simpl in Hx, Hz.
  set (d := distanceTo obj newX newZ) in *.
  set (dx := newX - objX obj) in *. set (dz := newZ - objZ obj) in *.
  assert (Hd : d * d = dx * dx + dz * dz)
    by (apply JSFacts.sqrt_sumsq_sq).
  assert (Hpx : dx / d * (minDistOf obj - d) = 0) by lra.
  assert (Hpz : dz / d * (minDistOf obj - d) = 0) by lra.
  assert (Hm : minDistOf obj - d <> 0) by lra.
  assert (Hdx : dx / d = 0).
  { destruct (Rmult_integral _ _ Hpx); [assumption|contradiction]. }
  assert (Hdz : dz / d = 0).
  { destruct (Rmult_integral _ _ Hpz); [assumption|contradiction]. }
  assert (dx = 0).
  { replace dx with (dx / d * d) by (field; lra). rewrite Hdx. lra. }
  assert (dz = 0).
  { replace dz with (dz / d * d) by (field; lra). rewrite Hdz. lra. }
  subst dx dz. nra.
Qed.

(** The checked loop follows the unchecked one: no divisor is zero. *)
Lemma body_checked obj newX newZ acc :
  objectLoopBody_checked newX newZ (Some acc) obj
  = Some (objectLoopBody newX newZ acc obj).
Proof.
  unfold objectLoopBody_checked, objectLoopBody.
  destruct (isWall obj); [reflexivity|]. cbv zeta.
  fold (distanceTo obj newX newZ).
  destruct (JS.lt _ _); [|reflexivity].
  destruct (JS.gt (distanceTo obj newX newZ) 0.001) eqn:Hgt;
    [|reflexivity].
  apply JSFacts.gt_true in Hgt. simpl. unfold JS.divide.
  destruct (Req_dec_T (distanceTo obj newX newZ) 0); [lra|reflexivity].
Qed.

Lemma loop_checked objs newX newZ acc :
  fold_left (objectLoopBody_checked newX newZ) objs (Some acc)
  = Some (fold_left (objectLoopBody newX newZ) objs acc).
Proof.
  revert acc. induction objs as [|obj objs IH]; intros acc;
    cbn [fold_left].
  - reflexivity.
  - rewrite body_checked. apply IH.
Qed.

Lemma checkObjectCollision_checked_total scene newX newZ :
  checkObjectCollision_checked scene newX newZ
  = Some (checkObjectCollision scene newX newZ).
Proof.
  destruct scene as [objs|]; simpl; [apply loop_checked|reflexivity].
Qed.




(** C6.  Where the proposed point lies within 0.001 of the centre of a
    circular obstacle, the object pass divides by no zero (the checked
    pass returns what the plain pass returns) and the turn for that
    obstacle leaves the running result alone; any turn that changes the
    running result is for a non-wall obstacle at a distance strictly
    between 0.001 and the minimum distance, and adds the unit normal
    times the penetration depth. *)
Theorem degenerate_distance_guard (objs : list Collidable.t)
    (obj : Collidable.t) (newX newZ : R) :
  In obj objs ->
  isWall obj = false ->
  distanceTo obj newX newZ <= 0.001 ->
  checkObjectCollision_checked (Some objs) newX newZ
    = Some (checkObjectCollision (Some objs) newX newZ)
  /\ (forall acc, objectLoopBody newX newZ acc obj = acc)
  /\ (forall acc obj',
        objectLoopBody newX newZ acc obj' <> acc ->
        isWall obj' = false
        /\ 0.001 < distanceTo obj' newX newZ < minDistOf obj'
        /\ distanceTo obj' newX newZ <> 0
        /\ objectLoopBody newX newZ acc obj'
           = {| Outcome.x :=
                  Outcome.x acc
                  + (newX - objX obj') / distanceTo obj' newX newZ
                    * (minDistOf obj' - distanceTo obj' newX newZ);
                Outcome.z :=
                  Outcome.z acc
                  + (newZ - objZ obj') / distanceTo obj' newX newZ
                    * (minDistOf obj' - distanceTo obj' newX newZ);
                Outcome.collision := true |}).
Proof.
  intros _ Hw Hd. split; [apply checkObjectCollision_checked_total|].
  split.
  - intros acc. apply body_skip. intros (_ & _ & H). lra.
  - intros acc obj' Hne.
    destruct (pushes_dec obj' newX newZ) as [Hp|Hp].
    + destruct Hp as (Hw' & Hlt & Hgt).
      repeat split; try assumption; try lra.
      apply body_push. repeat split; assumption.
    + exfalso. apply Hne. apply body_skip. exact Hp.
Qed.

(** The proposed point sits exactly on the centre of a cone. *)
Lemma degenerate_distance_guard_witness :
  let obj := prop None "cone" 0.3 3 2 in
  checkObjectCollision_checked (Some [obj]) 3 2
    = Some (checkObjectCollision (Some [obj]) 3 2)
  /\ (forall acc, objectLoopBody 3 2 acc obj = acc).
Proof.
  intros obj.
  assert (Hd : distanceTo obj 3 2 <= 0.001).
  { unfold distanceTo, JS.sqrt, obj, objX, objZ, prop; simpl.
    replace ((3 - 3) * (3 - 3) + (2 - 2) * (2 - 2)) with 0 by lra.
    rewrite sqrt_0. lra. }
  destruct (degenerate_distance_guard [obj] obj 3 2
              (or_introl eq_refl) eq_refl Hd) as (H1 & H2 & _).
  split; assumption.
Defined.

(* ================================================================== *)
(** * Collision resolver: resolving twice *)
(* ================================================================== *)




Lemma distanceTo_nonneg obj X Z : 0 <= distanceTo obj X Z.
Proof. apply sqrt_pos. Qed.





Lemma loop_no_push objs X Z acc :
  (forall obj, In obj objs -> ~ pushes obj X Z) ->
  fold_left (objectLoopBody X Z) objs acc = acc.
Proof.
  revert acc. induction objs as [|obj objs IH]; intros acc H;
    cbn [fold_left].
  - reflexivity.
  - rewrite body_skip by (apply H; left; reflexivity).
    apply IH. intros o Ho. apply H. right. exact Ho.
Qed.


Lemma wall_fixed X Z :
  -8.4 <= X <= 8.4 -> -8.4 <= Z <= 10 ->
  checkWallCollision X Z = Point.mk X Z.
Proof.
  intros HX HZ.
  pose proof (wall_x X Z) as Hx. pose proof (wall_z X Z) as Hz.
  rewrite clamp_id in Hx by lra. rewrite clamp_id in Hz by lra.
  destruct (checkWallCollision X Z) as [x z]. simpl in *. congruence.
Qed.

Lemma Rabs_le_bounds (v b : R) : Rabs v <= b -> - b <= v <= b.
Proof.
  intros H. unfold Rabs in H. destruct (Rcase_abs v); lra.
Qed.


Lemma resolve_x scene X Z :
  Outcome.x (resolveCollisions scene X Z)
  = Rmax (-8.4) (Rmin 8.4 (Outcome.x (checkObjectCollision scene X Z))).
Proof. unfold resolveCollisions. cbn [Outcome.x]. apply wall_x. Qed.

Lemma resolve_z scene X Z :
  Outcome.z (resolveCollisions scene X Z)
  = Rmax (-8.4) (Rmin 10 (Outcome.z (checkObjectCollision scene X Z))).
Proof. unfold resolveCollisions. cbn [Outcome.z]. apply wall_z. Qed.

(** A point inside the bounds that no obstacle pushes is returned as it
    is, without a collision. *)
Lemma resolve_fixed objs X Z :
  (forall obj, In obj objs -> ~ pushes obj X Z) ->
  -8.4 <= X <= 8.4 -> -8.4 <= Z <= 10 ->
  resolveCollisions (Some objs) X Z = Outcome.mk X Z false.
Proof.
  intros Hno HX HZ. unfold resolveCollisions, checkObjectCollision.
  rewrite (loop_no_push _ _ _ _ Hno). cbn [Outcome.x Outcome.z].
  rewrite (wall_fixed _ _ HX HZ). cbn [Point.x Point.z Outcome.collision].
  assert (E1 : JS.strictNe X X = false)
    by (apply JSFacts.strictNe_false; reflexivity).
  assert (E2 : JS.strictNe Z Z = false)
    by (apply JSFacts.strictNe_false; reflexivity).
  rewrite E1, E2. reflexivity.
Qed.





Lemma objR_some (r : R) : r <> 0 -> JS.orElse (Some r) 0.5 = r.
Proof.
  intros H. unfold JS.orElse. destruct (Req_dec_T r 0); [contradiction|].
  reflexivity.
Qed.

Lemma objR_prop m t (r x z : R) : r <> 0 -> objR (prop m t r x z) = r.
Proof. intros H. unfold objR, prop; simpl. apply objR_some, H. Qed.

Lemma minDistOf_prop m t (r x z : R) :
  r <> 0 -> minDistOf (prop m t r x z) = 0.6 + r.
Proof.
  intros H. unfold minDistOf. rewrite robotR_value, objR_prop by exact H.
  reflexivity.
Qed.






(* ================================================================== *)
(** * Motion integrator: one step *)
(* ================================================================== *)

Lemma Rabs_bounds_le (v b : R) : - b <= v <= b -> Rabs v <= b.
Proof. apply Rabs_le. Qed.

Lemma targetVelocity_cases actions :
  targetVelocityOf actions = 0 /\ Actions.forward actions = false
                                /\ Actions.backward actions = false
  \/ targetVelocityOf actions = 2.2 /\ Actions.backward actions = false
  \/ targetVelocityOf actions = -1.32 /\ Actions.backward actions = true.
Proof.
  unfold targetVelocityOf, PHYSICS.maxSpeed.
  destruct (Actions.forward actions), (Actions.backward actions);
    cbv zeta.
  - right; right; split; [lra|reflexivity].
  - right; left; split; [lra|reflexivity].
  - right; right; split; [lra|reflexivity].
  - left; repeat split; reflexivity.
Qed.

(** Under a held input the new velocity never exceeds the target in
    magnitude. *)
Lemma stepVelocity_driven target delta v :
  target <> 0 -> Rabs (stepVelocity target delta v) <= Rabs target.
Proof.
  intros Ht. unfold stepVelocity.
  apply JSFacts.strictNe_true in Ht. rewrite Ht. cbv zeta.
  destruct (JS.gt _ (JS.abs target)) eqn:E.
  - lra.
  - apply JSFacts.gt_false in E. exact E.
Qed.

Lemma stepVelocity_coast delta v :
  stepVelocity 0 delta v
  = if JS.gt (Rabs v) 0.01 then v - JS.sign v * 3 * delta else 0.
Proof.
  unfold stepVelocity.
  assert (E : JS.strictNe 0 0 = false)
    by (apply JSFacts.strictNe_false; reflexivity).
  rewrite E. unfold JS.abs, PHYSICS.friction.
  destruct (JS.gt (Rabs v) 0.01); [|reflexivity]. lra.
Qed.

Lemma stepVelocity_bound actions delta v :
  0 <= delta <= 0.1 -> Rabs v <= 2.2 ->
  Rabs (stepVelocity (targetVelocityOf actions) delta v) <= 2.2.
Proof.
  intros Hd Hv.
  destruct (targetVelocity_cases actions) as [(E & _)|[(E & _)|(E & _)]];
    rewrite E.
  - rewrite stepVelocity_coast. apply Rabs_le_bounds in Hv.
    destruct (JS.gt (Rabs v) 0.01).
    + apply Rabs_le. unfold JS.sign. js_cases; lra.
    + rewrite Rabs_R0. lra.
  - eapply Rle_trans; [apply stepVelocity_driven; lra|].
    rewrite Rabs_pos_eq; lra.
  - eapply Rle_trans; [apply stepVelocity_driven; lra|].
    rewrite Rabs_left; lra.
Qed.

Lemma targetAngularVel_bound actions v :
  Rabs v <= 2.2 -> Rabs (targetAngularVelOf actions v) <= 2.2.
Proof.
  intros Hv. unfold targetAngularVelOf, PHYSICS.maxTurnSpeed,
    PHYSICS.maxSpeed, JS.abs.
  pose proof (Rabs_pos v) as Hp.
  assert (Hs : 0.7 <= 1.0 - Rabs v / 2.2 * 0.3 <= 1) by lra.
  set (sf := 1.0 - Rabs v / 2.2 * 0.3) in *.
  apply Rabs_le.
  destruct (Actions.turnLeft actions), (Actions.turnRight actions);
    cbv zeta; lra.
Qed.

Lemma targetAngularVel_none actions v :
  Actions.turnLeft actions = false -> Actions.turnRight actions = false ->
  targetAngularVelOf actions v = 0.
Proof.
  intros H1 H2. unfold targetAngularVelOf. rewrite H1, H2. lra.
Qed.

Lemma stepAngularVelocity_bound target delta w :
  0 <= delta <= 0.1 -> Rabs target <= 2.2 -> Rabs w <= 2.2 ->
  Rabs (stepAngularVelocity target delta w) <= 2.2.
Proof.
  intros Hd Ht Hw. apply Rabs_le_bounds in Ht. apply Rabs_le_bounds in Hw.
  unfold stepAngularVelocity, PHYSICS.turnAccel, PHYSICS.turnFriction.
  destruct (JS.strictNe target 0).
  - apply Rabs_le.
    replace (w + (target - w) * 6.0 * delta)
      with (w * (1 - 6 * delta) + target * (6 * delta)) by lra.
    assert (0 <= 6 * delta <= 0.6) by lra.
    set (k := 6 * delta) in *. split; nra.
  - destruct (JS.gt (JS.abs w) 0.01).
    + apply Rabs_le.
      assert (0.2 <= 1 - 8.0 * delta <= 1) by lra.
      set (k := 1 - 8.0 * delta) in *. split; nra.
    + rewrite Rabs_R0. lra.
Qed.

(** What [updateMovement] stores, field by field. *)
Lemma updateMovement_velocity scene actions delta s :
  let v := stepVelocity (targetVelocityOf actions) delta
             (RobotState.velocity s) in
  RobotState.velocity (updateMovement scene actions delta s) = v
  \/ RobotState.velocity (updateMovement scene actions delta s) = v * 0.5.
Proof.
  intros v. unfold updateMovement. cbn [RobotState.velocity].
  cbv zeta. fold v.
  destruct (Outcome.collision _); [right|left]; reflexivity.
Qed.

Lemma updateMovement_angularVelocity scene actions delta s :
  RobotState.angularVelocity (updateMovement scene actions delta s)
  = stepAngularVelocity
      (targetAngularVelOf actions
         (stepVelocity (targetVelocityOf actions) delta
            (RobotState.velocity s)))
      delta (RobotState.angularVelocity s).
Proof. reflexivity. Qed.

Lemma updateMovement_headAngularVel scene actions delta s :
  RobotState.headAngularVel (updateMovement scene actions delta s)
  = stepHeadAngularVel (targetHeadVelOf actions) delta
      (RobotState.headAngularVel s).
Proof. reflexivity. Qed.

Lemma updateMovement_headRotY scene actions delta s :
  RobotState.headRotY (updateMovement scene actions delta s)
  = Rmax (- PHYSICS.headMaxRotation)
      (Rmin PHYSICS.headMaxRotation
         (RobotState.headRotY s
          + RobotState.headAngularVel (updateMovement scene actions delta s)
            * delta)).
Proof.
  reflexivity.
Qed.

(** C1.  From a state within the three limits, one step of the
    integrator with [0 <= dt <= 0.1] (the range [animate] clamps the
    frame time to) ends within the three limits: |velocity| <= 2.2,
    |angularVelocity| <= 2.2 and |headRotY| <= 1.2, whatever the flags
    and the scene. *)
Theorem updateMovement_within_limits
    (scene : option (list Collidable.t)) (actions : Actions.t)
    (dt : R) (s : RobotState.t) :
  0 <= dt <= 0.1 ->
  withinLimits s ->
  withinLimits (updateMovement scene actions dt s)
  /\ PHYSICS.maxSpeed = 2.2 /\ PHYSICS.maxTurnSpeed = 2.2
  /\ PHYSICS.headMaxRotation = 1.2.
Proof.
  intros Hd (Hv & Hw & Hh).
  unfold PHYSICS.maxSpeed, PHYSICS.maxTurnSpeed, PHYSICS.headMaxRotation
    in *.
  split; [|repeat split; reflexivity].
  pose proof (stepVelocity_bound actions dt _ Hd Hv) as Hv1.
  unfold withinLimits, PHYSICS.maxSpeed, PHYSICS.maxTurnSpeed,
    PHYSICS.headMaxRotation.
  split; [|split].
  - destruct (updateMovement_velocity scene actions dt s) as [E|E];
      rewrite E; [exact Hv1|].
    apply Rabs_le_bounds in Hv1. apply Rabs_le. lra.
  - rewrite updateMovement_angularVelocity.
    apply stepAngularVelocity_bound; [exact Hd| |exact Hw].
    apply targetAngularVel_bound. exact Hv1.
  - rewrite updateMovement_headRotY. apply Rabs_le.
    apply clamp_bounds. unfold PHYSICS.headMaxRotation. lra.
Qed.


(** The robot at rest, all flags set, a frame of 16 ms. *)
Lemma updateMovement_within_limits_witness :
  withinLimits
    (updateMovement (Some collidableObjects)
       (Actions.mk true true true true true true) 0.016
       RobotState.initial)
  /\ PHYSICS.maxSpeed = 2.2 /\ PHYSICS.maxTurnSpeed = 2.2
  /\ PHYSICS.headMaxRotation = 1.2.
Proof.
  apply updateMovement_within_limits.
  - lra.
  - unfold withinLimits, RobotState.initial; simpl.
    rewrite Rabs_R0.
    unfold PHYSICS.maxSpeed, PHYSICS.maxTurnSpeed, PHYSICS.headMaxRotation.
    lra.
Defined.

(** Near the origin of the scene nothing is in reach. *)
Lemma prop_not_pushing m t (r x z X Z : R) :
  r <> 0 ->
  (0.6 + r) * (0.6 + r) <= (X - x) * (X - x) + (Z - z) * (Z - z) ->
  ~ pushes (prop m t r x z) X Z.
Proof.
  intros Hr H (_ & Hlt & _). rewrite minDistOf_prop in Hlt by exact Hr.
  unfold distanceTo, JS.sqrt, objX, objZ, prop in Hlt; simpl in Hlt.
  pose proof (JSFacts.sqrt_ge_of_sq _ _ H). lra.
Qed.

Lemma wall_not_pushing mx mz X Z : ~ pushes (wall mx mz) X Z.
Proof. intros (H & _). discriminate H. Qed.

Lemma scene_free_near_origin X Z :
  -0.5 <= X <= 0.5 -> -0.5 <= Z <= 0.5 ->
  forall obj, In obj collidableObjects -> ~ pushes obj X Z.
Proof.
  intros HX HZ obj Hin. unfold collidableObjects in Hin. simpl in Hin.
  repeat (destruct Hin as [<-|Hin];
          [first [apply wall_not_pushing
                 |apply prop_not_pushing; [lra|nra]]|]).
  contradiction.
Qed.

Lemma resolve_near_origin X Z :
  -0.5 <= X <= 0.5 -> -0.5 <= Z <= 0.5 ->
  resolveCollisions (Some collidableObjects) X Z = Outcome.mk X Z false.
Proof.
  intros HX HZ. apply resolve_fixed; [|lra|lra].
  apply scene_free_near_origin; assumption.
Qed.

Lemma updateMovement_rotation scene actions delta s :
  RobotState.rotation (updateMovement scene actions delta s)
  = RobotState.rotation s
    + RobotState.angularVelocity (updateMovement scene actions delta s)
      * delta.
Proof. reflexivity. Qed.

(** Position and velocity after the collision response, in terms of the
    resolver's answer for the proposed point. *)
Lemma updateMovement_resolved scene actions delta s :
  let v := stepVelocity (targetVelocityOf actions) delta
             (RobotState.velocity s) in
  let rot := RobotState.rotation (updateMovement scene actions delta s) in
  let res := resolveCollisions scene
               (RobotState.x s + sin rot * (v * delta))
               (RobotState.z s + cos rot * (v * delta)) in
  let s' := updateMovement scene actions delta s in
  RobotState.x s' = Outcome.x res
  /\ RobotState.z s' = Outcome.z res
  /\ RobotState.velocity s'
     = (if Outcome.collision res then v * 0.5 else v).
Proof. repeat split; reflexivity. Qed.

Lemma stepAngularVelocity_rest delta : stepAngularVelocity 0 delta 0 = 0.
Proof.
  unfold stepAngularVelocity.
  assert (E : JS.strictNe 0 0 = false)
    by (apply JSFacts.strictNe_false; reflexivity).
  rewrite E. unfold JS.abs. rewrite Rabs_R0.
  assert (E' : JS.gt 0 0.01 = false) by (apply JSFacts.gt_false; lra).
  rewrite E'. reflexivity.
Qed.

(** Driving straight along the z axis near the origin of the scene. *)
Lemma updateMovement_straight actions delta s :
  Actions.turnLeft actions = false -> Actions.turnRight actions = false ->
  RobotState.rotation s = 0 -> RobotState.angularVelocity s = 0 ->
  RobotState.x s = 0 ->
  let v := stepVelocity (targetVelocityOf actions) delta
             (RobotState.velocity s) in
  -0.5 <= RobotState.z s + v * delta <= 0.5 ->
  let s' := updateMovement (Some collidableObjects) actions delta s in
  RobotState.velocity s' = v
  /\ RobotState.rotation s' = 0
  /\ RobotState.angularVelocity s' = 0
  /\ RobotState.x s' = 0
  /\ RobotState.z s' = RobotState.z s + v * delta.
Proof.
  intros Hl Hr Hrot Hw Hx v Hz s'.
  assert (Ew : RobotState.angularVelocity s' = 0).
  { unfold s'. rewrite updateMovement_angularVelocity.
    rewrite targetAngularVel_none by assumption.
    rewrite Hw. apply stepAngularVelocity_rest. }
  assert (Erot : RobotState.rotation s' = 0).
  { unfold s'. rewrite updateMovement_rotation. fold s'. rewrite Ew, Hrot.
    lra. }
  destruct (updateMovement_resolved (Some collidableObjects) actions delta s)
    as (Ex & Ez & Ev).
  fold s' in Ex, Ez, Ev. fold v in Ex, Ez, Ev.
  rewrite Erot, sin_0, cos_0, Hx in Ex, Ez, Ev.
  replace (0 + 0 * (v * delta)) with 0 in Ex, Ez, Ev by lra.
  replace (RobotState.z s + 1 * (v * delta))
    with (RobotState.z s + v * delta) in Ex, Ez, Ev by lra.
  rewrite resolve_near_origin in Ex, Ez, Ev by lra.
  cbn [Outcome.x Outcome.z Outcome.collision] in Ex, Ez, Ev.
  repeat split; assumption.
Qed.

(* ================================================================== *)
(** * Motion integrator: the overshoot test *)
(* ================================================================== *)

Lemma stepVelocity_snap target delta v :
  target <> 0 ->
  Rabs target
  < Rabs (v + JS.sign (target - v)
              * (if JS.gt target v then PHYSICS.acceleration
                 else PHYSICS.deceleration) * delta) ->
  stepVelocity target delta v = target.
Proof.
  intros Ht H. unfold stepVelocity.
  apply JSFacts.strictNe_true in Ht. rewrite Ht. cbv zeta.
  apply JSFacts.gt_true in H. unfold JS.abs. rewrite H. reflexivity.
Qed.

Lemma stepVelocity_reverse delta v :
  -1.32 < v ->
  stepVelocity (-1.32) delta v
  = if JS.gt (Rabs (v - 5 * delta)) 1.32 then -1.32 else v - 5 * delta.
Proof.
  intros Hv. unfold stepVelocity.
  assert (E : JS.strictNe (-1.32) 0 = true)
    by (apply JSFacts.strictNe_true; lra).
  rewrite E.
  assert (E1 : JS.gt (-1.32) v = false) by (apply JSFacts.gt_false; lra).
  rewrite E1. cbv zeta. rewrite JSFacts.sign_neg by lra.
  unfold PHYSICS.deceleration, JS.abs.
  replace (v + -1 * 5.0 * delta) with (v - 5 * delta) by lra.
  rewrite (Rabs_left (-1.32)) by lra.
  replace (- -1.32) with 1.32 by lra. reflexivity.
Qed.

(** C10, as stated, fails: moving forward at 1.5 (above 0.6 * maxSpeed =
    1.32) with only the backward flag set, one frame of 0.1 s leaves the
    velocity at 1.0, at the origin of the scene as in the velocity block
    alone. *)
Lemma reverse_snap_counterexample :
  let backward := Actions.mk false true false false false false in
  let s := RobotState.mk 0 0 0 1.5 0 0 0 0 0 0 0 0 in
  0.6 * PHYSICS.maxSpeed < RobotState.velocity s
  /\ stepVelocity (targetVelocityOf backward) 0.1 (RobotState.velocity s) = 1
  /\ RobotState.velocity
       (updateMovement (Some collidableObjects) backward 0.1 s) = 1
  /\ 1 <> -0.6 * PHYSICS.maxSpeed.
Proof.
  intros backward s.
  assert (Et : targetVelocityOf backward = -1.32).
  { unfold targetVelocityOf, backward, PHYSICS.maxSpeed; simpl. lra. }
  assert (Ev : stepVelocity (targetVelocityOf backward) 0.1
                 (RobotState.velocity s) = 1).
  { rewrite Et. unfold s; cbn [RobotState.velocity].
    rewrite stepVelocity_reverse by lra.
    replace (1.5 - 5 * 0.1) with 1 by lra.
    rewrite Rabs_pos_eq by lra.
    assert (E : JS.gt 1 1.32 = false) by (apply JSFacts.gt_false; lra).
    rewrite E. reflexivity. }
  unfold PHYSICS.maxSpeed.
  split; [unfold s; simpl; lra|]. split; [exact Ev|]. split; [|lra].
  destruct (updateMovement_straight backward 0.1 s) as (Hv & _);
    try reflexivity.
  - rewrite Ev. unfold s; simpl. lra.
  - rewrite Hv. exact Ev.
Qed.

(** C10, as amended.  Whenever a nonzero target is commanded and the
    velocity left by the acceleration step exceeds the target in
    magnitude, the velocity block stores the target itself, whatever
    the signs.  With the backward flag set and [0 < dt <= 0.1], if the
    velocity left by the deceleration step, [v - deceleration * dt],
    still exceeds 0.6 * maxSpeed forward, the block stores exactly
    -0.6 * maxSpeed = -1.32: a change of more than 2.64, beyond
    [acceleration * dt] and [deceleration * dt].  The frame then ends
    at -1.32, or at half of it when the resolver reports a collision. *)
Theorem reverse_snaps_to_target (actions : Actions.t) (dt v : R) :
  Actions.backward actions = true ->
  0 < dt <= 0.1 ->
  0.6 * PHYSICS.maxSpeed < v - PHYSICS.deceleration * dt ->
  (forall target d u,
     target <> 0 ->
     Rabs target
     < Rabs (u + JS.sign (target - u)
                 * (if JS.gt target u then PHYSICS.acceleration
                    else PHYSICS.deceleration) * d) ->
     stepVelocity target d u = target)
  /\ targetVelocityOf actions = -1.32
  /\ stepVelocity (targetVelocityOf actions) dt v = -1.32
  /\ PHYSICS.acceleration * dt
     < Rabs (stepVelocity (targetVelocityOf actions) dt v - v)
  /\ PHYSICS.deceleration * dt
     < Rabs (stepVelocity (targetVelocityOf actions) dt v - v)
  /\ (forall scene s,
        RobotState.velocity s = v ->
        let s' := updateMovement scene actions dt s in
        RobotState.velocity s' = -1.32
        \/ RobotState.velocity s' = -1.32 * 0.5).
Proof.
  intros Hb Hd Hv.
  unfold PHYSICS.maxSpeed, PHYSICS.deceleration, PHYSICS.acceleration in *.
  split; [intros target d u; apply stepVelocity_snap|].
  assert (Et : targetVelocityOf actions = -1.32).
  { destruct (targetVelocity_cases actions)
      as [(_ & _ & E)|[(_ & E)|(E & _)]]; [congruence|congruence|exact E]. }
  assert (Es : stepVelocity (targetVelocityOf actions) dt v = -1.32).
  { rewrite Et. rewrite stepVelocity_reverse by lra.
    assert (E : JS.gt (Rabs (v - 5 * dt)) 1.32 = true).
    { apply JSFacts.gt_true. rewrite Rabs_pos_eq; lra. }
    rewrite E. reflexivity. }
  split; [exact Et|]. split; [exact Es|].
  rewrite Es. rewrite Rabs_left by lra.
  split; [lra|]. split; [lra|].
  intros scene s Hs. cbv zeta.
  destruct (updateMovement_velocity scene actions dt s) as [E|E];
    rewrite Hs, Es in E; [left|right]; exact E.
Qed.

(** Full speed ahead, then the backward flag, at the longest frame. *)
Lemma reverse_snaps_to_target_witness :
  stepVelocity
    (targetVelocityOf (Actions.mk true true false false false false))
    0.1 2.2 = -1.32.
Proof.
  apply (reverse_snaps_to_target
           (Actions.mk true true false false false false) 0.1 2.2).
  - reflexivity.
  - lra.
  - unfold PHYSICS.maxSpeed, PHYSICS.deceleration. lra.
Defined.

(* ================================================================== *)
(** * Motion integrator: coasting with no input *)
(* ================================================================== *)

Lemma runFrames_S scene actions delta n s :
  runFrames scene actions delta (S n) s
  = updateMovement scene actions delta
      (runFrames scene actions delta n s).
Proof.
  revert s. induction n as [|n IH]; intros s.
  - reflexivity.
  - change (runFrames scene actions delta (S (S n)) s)
      with (runFrames scene actions delta (S n)
              (updateMovement scene actions delta s)).
    rewrite IH. reflexivity.
Qed.

Lemma targetVelocity_none : targetVelocityOf Actions.none = 0.
Proof. reflexivity. Qed.

Lemma targetHeadVel_none : targetHeadVelOf Actions.none = 0.
Proof. reflexivity. Qed.

(** A geometric sequence with ratio in [[0, 1)] falls below any bound. *)
Lemma geometric_small (q a eps : R) :
  0 <= q < 1 -> 0 <= a -> 0 < eps ->
  exists N, forall n, (N <= n)%nat -> a * q ^ n < eps.
Proof.
  intros Hq Ha He.
  destruct (pow_lt_1_zero q) with (y := eps / (a + 1)) as [N HN].
  - rewrite Rabs_pos_eq; lra.
  - apply Rdiv_lt_0_compat; lra.
  - exists N. intros n Hn. specialize (HN n Hn).
    rewrite Rabs_pos_eq in HN by (apply pow_le; lra).
    assert (Hpos : 0 <= q ^ n) by (apply pow_le; lra).
    assert (H1 : (a + 1) * q ^ n < eps).
    { apply Rmult_lt_reg_r with (r := / (a + 1)).
      - apply Rinv_0_lt_compat; lra.
      - replace ((a + 1) * q ^ n * / (a + 1)) with (q ^ n) by (field; lra).
        exact HN. }
    nra.
Qed.

Section Coasting.

Variable scene : option (list Collidable.t).
Variable dt : R.
Hypothesis dt_range : 0 < dt <= 0.1.

(** Head angular velocity: multiplied by [1 - headFriction * dt]. *)
Lemma coast_head s :
  RobotState.headAngularVel (coastStep scene dt s)
  = RobotState.headAngularVel s * (1 - PHYSICS.headFriction * dt).
Proof.
  unfold coastStep. rewrite updateMovement_headAngularVel, targetHeadVel_none.
  unfold stepHeadAngularVel.
  assert (E : JS.strictNe 0 0 = false)
    by (apply JSFacts.strictNe_false; reflexivity).
  rewrite E. reflexivity.
Qed.

Lemma coast_head_n n s :
  RobotState.headAngularVel (coastRun scene dt n s)
  = RobotState.headAngularVel s * (1 - PHYSICS.headFriction * dt) ^ n.
Proof.
  unfold coastRun. induction n as [|n IH].
  - simpl. lra.
  - rewrite runFrames_S. fold (coastStep scene dt). rewrite coast_head, IH.
    simpl. lra.
Qed.

(** Angular velocity: scaled by [1 - turnFriction * dt] above 0.01,
    set to 0 at or below. *)
Lemma coast_angular s :
  RobotState.angularVelocity (coastStep scene dt s)
  = if JS.gt (Rabs (RobotState.angularVelocity s)) 0.01
    then RobotState.angularVelocity s * (1 - PHYSICS.turnFriction * dt)
    else 0.
Proof.
  unfold coastStep. rewrite updateMovement_angularVelocity.
  rewrite targetAngularVel_none by reflexivity.
  unfold stepAngularVelocity.
  assert (E : JS.strictNe 0 0 = false)
    by (apply JSFacts.strictNe_false; reflexivity).
  rewrite E. reflexivity.
Qed.

Lemma coast_angular_n n s :
  RobotState.angularVelocity (coastRun scene dt n s) = 0
  \/ Rabs (RobotState.angularVelocity (coastRun scene dt n s))
     <= Rabs (RobotState.angularVelocity s)
        * (1 - PHYSICS.turnFriction * dt) ^ n.
Proof.
  unfold PHYSICS.turnFriction, coastRun.
  induction n as [|n IH].
  - right. simpl. lra.
  - rewrite runFrames_S. fold (coastStep scene dt). rewrite coast_angular.
    unfold PHYSICS.turnFriction.
    destruct (JS.gt _ 0.01); [|left; reflexivity].
    destruct IH as [IH|IH].
    + left. rewrite IH. lra.
    + right. rewrite Rabs_mult.
      rewrite (Rabs_pos_eq (1 - 8.0 * dt)) by lra.
      simpl. pose proof (Rabs_pos (RobotState.angularVelocity s)).
      assert (0 <= (1 - 8.0 * dt) ^ n) by (apply pow_le; lra).
      nra.
Qed.

Lemma coast_angular_zero n s :
  RobotState.angularVelocity (coastRun scene dt n s) = 0 ->
  forall m, (n <= m)%nat ->
    RobotState.angularVelocity (coastRun scene dt m s) = 0.
Proof.
  unfold coastRun. intros H m Hm. induction Hm as [|m Hm IH]; [exact H|].
  rewrite runFrames_S. fold (coastStep scene dt). rewrite coast_angular.
  rewrite IH, Rabs_R0.
  assert (E : JS.gt 0 0.01 = false) by (apply JSFacts.gt_false; lra).
  rewrite E. reflexivity.
Qed.

Lemma coast_angular_settles s :
  exists N, forall n, (N <= n)%nat ->
    RobotState.angularVelocity (coastRun scene dt n s) = 0.
Proof.
  destruct (geometric_small (1 - PHYSICS.turnFriction * dt)
              (Rabs (RobotState.angularVelocity s)) 0.01) as [N HN].
  - unfold PHYSICS.turnFriction. lra.
  - apply Rabs_pos.
  - lra.
  - exists (S N). intros n Hn.
    apply (coast_angular_zero (S N)); [|exact Hn].
    unfold coastRun. rewrite runFrames_S.
    fold (coastStep scene dt). fold (coastRun scene dt N s).
    rewrite coast_angular.
    destruct (coast_angular_n N s) as [E|E].
    + rewrite E, Rabs_R0.
      assert (E' : JS.gt 0 0.01 = false) by (apply JSFacts.gt_false; lra).
      rewrite E'. reflexivity.
    + specialize (HN N (le_n N)).
      assert (E' : JS.gt (Rabs (RobotState.angularVelocity (coastRun scene dt N s)))
                     0.01 = false)
        by (apply JSFacts.gt_false; lra).
      rewrite E'. reflexivity.
Qed.

(** Linear velocity while coasting. *)
Lemma coast_velocity s :
  let v := stepVelocity 0 dt (RobotState.velocity s) in
  RobotState.velocity (coastStep scene dt s) = v
  \/ RobotState.velocity (coastStep scene dt s) = v * 0.5.
Proof.
  intros v. unfold coastStep.
  destruct (updateMovement_velocity scene Actions.none dt s) as [E|E];
    rewrite targetVelocity_none in E; [left|right]; exact E.
Qed.

Lemma coast_velocity_small s :
  Rabs (RobotState.velocity s) <= 0.01 ->
  RobotState.velocity (coastStep scene dt s) = 0.
Proof.
  intros H.
  assert (E : stepVelocity 0 dt (RobotState.velocity s) = 0).
  { rewrite stepVelocity_coast.
    assert (E' : JS.gt (Rabs (RobotState.velocity s)) 0.01 = false)
      by (apply JSFacts.gt_false; lra).
    rewrite E'. reflexivity. }
  destruct (coast_velocity s) as [E1|E1]; rewrite E1, E; lra.
Qed.

Lemma coast_velocity_zero n s :
  Rabs (RobotState.velocity (coastRun scene dt n s)) <= 0.01 ->
  forall m, (n < m)%nat -> RobotState.velocity (coastRun scene dt m s) = 0.
Proof.
  unfold coastRun. intros H m Hm. induction Hm as [|m Hm IH].
  - rewrite runFrames_S. fold (coastStep scene dt).
    apply coast_velocity_small. exact H.
  - rewrite runFrames_S. fold (coastStep scene dt). apply coast_velocity_small.
    rewrite IH, Rabs_R0. lra.
Qed.

(** With [friction * dt <= 0.02] a step cannot jump over the window
    [[-0.01, 0.01]]. *)
Lemma coast_velocity_descent s :
  PHYSICS.friction * dt <= 0.02 ->
  0.01 < Rabs (RobotState.velocity s) ->
  Rabs (RobotState.velocity (coastStep scene dt s))
  <= Rmax (Rabs (RobotState.velocity s) - PHYSICS.friction * dt) 0.01.
Proof.
  unfold PHYSICS.friction. intros Hf Hv.
  set (v := RobotState.velocity s) in *.
  assert (E : stepVelocity 0 dt v = v - JS.sign v * 3 * dt).
  { rewrite stepVelocity_coast.
    assert (E' : JS.gt (Rabs v) 0.01 = true)
      by (apply JSFacts.gt_true; lra).
    rewrite E'. reflexivity. }
  assert (Hb : Rabs (v - JS.sign v * 3 * dt)
               <= Rmax (Rabs v - 3.0 * dt) 0.01).
  { unfold Rmax, JS.sign, Rabs in *.
    repeat match goal with
           | |- context [Rcase_abs ?a] => destruct (Rcase_abs a)
           | H : context [Rcase_abs ?a] |- _ => destruct (Rcase_abs a)
           | |- context [Rlt_dec ?a ?b] => destruct (Rlt_dec a b)
           | |- context [Rle_dec ?a ?b] => destruct (Rle_dec a b)
           end; lra. }
  assert (Hm : 0 <= Rmax (Rabs v - 3.0 * dt) 0.01).
  { pose proof (Rmax_r (Rabs v - 3.0 * dt) 0.01). lra. }
  destruct (coast_velocity s) as [E1|E1]; fold v in E1; rewrite E1, E.
  - exact Hb.
  - rewrite Rabs_mult, (Rabs_pos_eq 0.5) by lra.
    pose proof (Rabs_pos (v - JS.sign v * 3 * dt)). lra.
Qed.

Lemma coast_velocity_progress s :
  PHYSICS.friction * dt <= 0.02 ->
  forall n,
    (exists k, Rabs (RobotState.velocity (coastRun scene dt k s)) <= 0.01)
    \/ Rabs (RobotState.velocity (coastRun scene dt n s))
       <= Rabs (RobotState.velocity s) - PHYSICS.friction * dt * INR n.
Proof.
  intros Hf n. induction n as [|n IH].
  - right. unfold coastRun. simpl. lra.
  - destruct IH as [IH|IH]; [left; exact IH|].
    destruct (Rle_dec (Rabs (RobotState.velocity (coastRun scene dt n s))) 0.01)
      as [Hs|Hs]; [left; exists n; exact Hs|].
    assert (Hd := coast_velocity_descent (coastRun scene dt n s) Hf ltac:(lra)).
    fold (coastStep scene dt) in Hd.
    assert (Er : coastStep scene dt (coastRun scene dt n s)
                 = coastRun scene dt (S n) s)
      by (unfold coastRun, coastStep; rewrite runFrames_S; reflexivity).
    rewrite Er in Hd.
    destruct (Rle_dec (Rabs (RobotState.velocity (coastRun scene dt (S n) s))) 0.01)
      as [Hs'|Hs']; [left; exists (S n); exact Hs'|].
    right. rewrite S_INR.
    unfold Rmax in Hd. destruct (Rle_dec _ _) in Hd; lra.
Qed.

Lemma coast_velocity_reaches_window s :
  PHYSICS.friction * dt <= 0.02 ->
  exists n0, Rabs (RobotState.velocity (coastRun scene dt n0 s)) <= 0.01.
Proof.
  intros Hf.
  set (a := Rabs (RobotState.velocity s) / (PHYSICS.friction * dt)).
  assert (Hfd : 0 < PHYSICS.friction * dt)
    by (unfold PHYSICS.friction; lra).
  assert (Ha : 0 <= a).
  { unfold a. apply Rmult_le_pos; [apply Rabs_pos|].
    left. apply Rinv_0_lt_compat. exact Hfd. }
  destruct (archimed a) as (Hup & _).
  assert (Hz : (0 <= up a)%Z).
  { apply le_IZR. lra. }
  destruct (coast_velocity_progress s Hf (Z.to_nat (up a))) as [H|H];
    [exact H|].
  exfalso. rewrite INR_IZR_INZ, Z2Nat.id in H by exact Hz.
  pose proof (Rabs_pos (RobotState.velocity (coastRun scene dt (Z.to_nat (up a)) s))).
  assert (Rabs (RobotState.velocity s)
          < PHYSICS.friction * dt * IZR (up a)).
  { replace (Rabs (RobotState.velocity s))
      with (PHYSICS.friction * dt * a)
      by (unfold a, PHYSICS.friction; field; lra).
    apply Rmult_lt_compat_l; lra. }
  lra.
Qed.

(** Suspension once the velocity is inside the window: the plain
    spring-damper step, with no impulse. *)
Lemma coast_suspension s :
  Rabs (RobotState.velocity s) <= 0.01 ->
  RobotState.suspensionVelocity (coastStep scene dt s)
  = RobotState.suspensionVelocity s
    + (- RobotState.suspensionOffset s * PHYSICS.suspensionStiffness
       + - RobotState.suspensionVelocity s * PHYSICS.suspensionDamping)
      * dt
  /\ RobotState.suspensionOffset (coastStep scene dt s)
     = RobotState.suspensionOffset s
       + RobotState.suspensionVelocity (coastStep scene dt s) * dt.
Proof.
  intros H. split; [|reflexivity].
  assert (E : stepVelocity 0 dt (RobotState.velocity s) = 0).
  { rewrite stepVelocity_coast.
    assert (E' : JS.gt (Rabs (RobotState.velocity s)) 0.01 = false)
      by (apply JSFacts.gt_false; lra).
    rewrite E'. reflexivity. }
  unfold coastStep, updateMovement.
  cbn [RobotState.suspensionVelocity]. cbv zeta.
  rewrite targetVelocity_none, E.
  assert (Ez : forall b : bool, (if b then 0 * 0.5 else 0) = 0)
    by (intros []; lra).
  rewrite !Ez. replace (0 - 0) with 0 by lra.
  unfold JS.abs. rewrite Rabs_R0, JSFacts.sign_zero.
  assert (Eg : JS.gt 0 0.5 = false) by (apply JSFacts.gt_false; lra).
  rewrite Eg.
  assert (Es : forall (b : bool) (x : R),
             (if b then x - 0.02 * 0 else x) = x)
    by (intros [] x; lra).
  rewrite !Es. reflexivity.
Qed.

Lemma springEnergy_step s :
  Rabs (RobotState.velocity s) <= 0.01 ->
  springEnergy dt (coastStep scene dt s) = (1 - 8 * dt) * springEnergy dt s.
Proof.
  intros H. destruct (coast_suspension s H) as (Ev & Eo).
  unfold springEnergy. rewrite Eo, Ev.
  replace PHYSICS.suspensionStiffness with 80
    by (unfold PHYSICS.suspensionStiffness; lra).
  replace PHYSICS.suspensionDamping with 8
    by (unfold PHYSICS.suspensionDamping; lra).
  ring.
Qed.

Lemma springEnergy_bounds_offset s :
  64 * (RobotState.suspensionOffset s * RobotState.suspensionOffset s)
  <= springEnergy dt s.
Proof.
  unfold springEnergy.
  set (u := RobotState.suspensionVelocity s).
  set (o := RobotState.suspensionOffset s).
  assert (Hc : 0 < 1 - 8 * dt) by lra.
  assert (Hsq : 0 <= (2 * (1 - 8 * dt) * u + (8 - 80 * dt) * o)
                     * (2 * (1 - 8 * dt) * u + (8 - 80 * dt) * o))
    by apply Rle_0_sqr.
  assert (Hd : (8 - 80 * dt) * (8 - 80 * dt) <= 64 * (1 - 8 * dt))
    by nra.
  assert (Ho : 0 <= o * o) by apply Rle_0_sqr.
  assert (Hk : 0 <= (64 * (1 - 8 * dt) - (8 - 80 * dt) * (8 - 80 * dt))
                    * (o * o))
    by (apply Rmult_le_pos; lra).
  assert (Hq : 0 <= 4 * (1 - 8 * dt)
                    * ((1 - 8 * dt) * (u * u) + (8 - 80 * dt) * (u * o)
                       + 16 * (o * o))).
  { replace (4 * (1 - 8 * dt)
             * ((1 - 8 * dt) * (u * u) + (8 - 80 * dt) * (u * o)
                + 16 * (o * o)))
      with ((2 * (1 - 8 * dt) * u + (8 - 80 * dt) * o)
            * (2 * (1 - 8 * dt) * u + (8 - 80 * dt) * o)
            + (64 * (1 - 8 * dt) - (8 - 80 * dt) * (8 - 80 * dt))
              * (o * o)) by ring.
    lra. }
  assert (Hp : 0 <= (1 - 8 * dt) * (u * u) + (8 - 80 * dt) * (u * o)
                    + 16 * (o * o)).
  { apply Rmult_le_reg_l with (r := 4 * (1 - 8 * dt)); [lra|].
    rewrite Rmult_0_r. exact Hq. }
  lra.
Qed.

Lemma springEnergy_n n0 s :
  Rabs (RobotState.velocity (coastRun scene dt n0 s)) <= 0.01 ->
  forall k,
    springEnergy dt (coastRun scene dt (n0 + k) s)
    = (1 - 8 * dt) ^ k * springEnergy dt (coastRun scene dt n0 s).
Proof.
  intros H k. induction k as [|k IH].
  - rewrite Nat.add_0_r. simpl. lra.
  - replace (n0 + S k)%nat with (S (n0 + k)) by lia.
    unfold coastRun at 1. rewrite runFrames_S.
    fold (coastStep scene dt). fold (coastRun scene dt (n0 + k) s).
    rewrite springEnergy_step.
    + rewrite IH. simpl. ring.
    + destruct k as [|k].
      * rewrite Nat.add_0_r. exact H.
      * rewrite (coast_velocity_zero n0 s H) by lia.
        rewrite Rabs_R0. lra.
Qed.

Lemma coast_suspension_settles n0 s :
  Rabs (RobotState.velocity (coastRun scene dt n0 s)) <= 0.01 ->
  forall eps, 0 < eps ->
    exists N, forall n, (N <= n)%nat ->
      Rabs (RobotState.suspensionOffset (coastRun scene dt n s)) < eps.
Proof.
  intros H eps He.
  pose proof (springEnergy_bounds_offset (coastRun scene dt n0 s)) as H0.
  assert (Hq0 : 0 <= springEnergy dt (coastRun scene dt n0 s)).
  { pose proof (Rle_0_sqr (RobotState.suspensionOffset (coastRun scene dt n0 s))).
    unfold Rsqr in *. lra. }
  destruct (geometric_small (1 - 8 * dt) (springEnergy dt (coastRun scene dt n0 s))
              (64 * (eps * eps))) as [N HN]; [lra|exact Hq0|nra|].
  exists (n0 + N)%nat. intros n Hn.
  replace n with (n0 + (n - n0))%nat by lia.
  pose proof (springEnergy_n n0 s H (n - n0)) as Hk.
  pose proof (springEnergy_bounds_offset (coastRun scene dt (n0 + (n - n0)) s)) as Hb.
  specialize (HN (n - n0)%nat ltac:(lia)).
  set (o := RobotState.suspensionOffset (coastRun scene dt (n0 + (n - n0)) s)) in *.
  assert (Ho : o * o < eps * eps) by lra.
  apply Rabs_def1; nra.
Qed.

End Coasting.

Lemma rocking_step s :
  rocking s ->
  rocking (updateMovement (Some collidableObjects) Actions.none 0.1 s).
Proof.
  intros (Hrot & Hw & Hx & Hv).
  assert (Ev : stepVelocity (targetVelocityOf Actions.none) 0.1
                 (RobotState.velocity s) = - RobotState.velocity s).
  { rewrite targetVelocity_none, stepVelocity_coast.
    destruct Hv as [(E & _)|(E & _)]; rewrite E.
    - rewrite Rabs_pos_eq by lra.
      assert (Eg : JS.gt 0.15 0.01 = true) by (apply JSFacts.gt_true; lra).
      rewrite Eg, JSFacts.sign_pos by lra. lra.
    - rewrite Rabs_left by lra.
      assert (Eg : JS.gt (- -0.15) 0.01 = true)
        by (apply JSFacts.gt_true; lra).
      rewrite Eg, JSFacts.sign_neg by lra. lra. }
  destruct (updateMovement_straight Actions.none 0.1 s)
    as (Hv' & Hrot' & Hw' & Hx' & Hz'); try assumption; try reflexivity.
  - rewrite Ev. destruct Hv as [(E & Ez)|(E & Ez)]; rewrite E, Ez; lra.
  - rewrite Ev in Hv', Hz'. unfold rocking.
    rewrite Hrot', Hw', Hx', Hv', Hz'.
    repeat split; try reflexivity.
    destruct Hv as [(E & Ez)|(E & Ez)]; rewrite E, Ez;
      [right|left]; split; lra.
Qed.

Lemma rocking_forever n s :
  rocking s ->
  rocking (runFrames (Some collidableObjects) Actions.none 0.1 n s).
Proof.
  revert s. induction n as [|n IH]; intros s H.
  - exact H.
  - cbn [runFrames]. apply IH, rocking_step, H.
Qed.

(** C2.  The defect: the velocity block stops the robot only from
    inside the window |velocity| <= 0.01, and a friction step
    [friction * dt] wider than the window jumps over it.  Released at
    0.15 forward at the origin of the scene and stepped with
    [dt = 0.1], the robot rocks between 0.15 forward and 0.15 backward
    for ever (the step 0.3 jumps over the window of width 0.02), so its
    velocity is never 0, at no step count.  The velocity block does the
    same in binary64 arithmetic
    ([DoubleFacts.coasting_rocks_in_doubles]). *)
Lemma coasting_counterexample :
  ~ (exists N, forall n, (N <= n)%nat ->
       RobotState.velocity
         (runFrames (Some collidableObjects) Actions.none 0.1 n
            (RobotState.mk 0 0 0 0.15 0 0 0 0 0 0 0 0)) = 0).
Proof.
  intros (N & HN). specialize (HN N (le_n N)).
  assert (H0 : rocking (RobotState.mk 0 0 0 0.15 0 0 0 0 0 0 0 0)).
  { unfold rocking; simpl. repeat split; try reflexivity.
    left. split; reflexivity. }
  destruct (rocking_forever N _ H0) as (_ & _ & _ & [(E & _)|(E & _)]);
    rewrite E in HN; lra.
Qed.

(** What coasting does reach, numbers read as exact reals (in binary64
    the geometric decay of the head velocity ends in an underflow
    instead, see [DoubleFacts]).  With all six flags false and a fixed
    [dt] in (0, 0.1]: the angular velocity is exactly 0 from some step
    on; the
    head angular velocity after [n] steps is its initial value times
    [(1 - headFriction * dt) ^ n], so it falls below every positive
    bound but, unless it starts at 0, is never 0; once the velocity's
    magnitude is at most 0.01 the velocity is exactly 0 at every later
    step and the suspension offset falls below every positive bound;
    and that point is reached whenever [friction * dt <= 0.02]. *)
Theorem coasting_settles (scene : option (list Collidable.t)) (dt : R)
    (s : RobotState.t) :
  0 < dt <= 0.1 ->
  let after n := runFrames scene Actions.none dt n s in
  (exists N, forall n, (N <= n)%nat ->
     RobotState.angularVelocity (after n) = 0)
  /\ (forall n,
        RobotState.headAngularVel (after n)
        = RobotState.headAngularVel s
          * (1 - PHYSICS.headFriction * dt) ^ n)
  /\ (forall eps, 0 < eps ->
        exists N, forall n, (N <= n)%nat ->
          Rabs (RobotState.headAngularVel (after n)) < eps)
  /\ (RobotState.headAngularVel s <> 0 ->
      forall n, RobotState.headAngularVel (after n) <> 0)
  /\ (forall n0,
        Rabs (RobotState.velocity (after n0)) <= 0.01 ->
        (forall n, (n0 < n)%nat -> RobotState.velocity (after n) = 0)
        /\ (forall eps, 0 < eps ->
              exists N, forall n, (N <= n)%nat ->
                Rabs (RobotState.suspensionOffset (after n)) < eps))
  /\ (PHYSICS.friction * dt <= 0.02 ->
      exists n0, Rabs (RobotState.velocity (after n0)) <= 0.01).
Proof.
  intros Hd after. unfold after.
  change (runFrames scene Actions.none dt) with (coastRun scene dt).
  split; [apply coast_angular_settles; exact Hd|].
  split; [intros n; apply coast_head_n|].
  split.
  - intros eps He.
    destruct (geometric_small (1 - PHYSICS.headFriction * dt)
                (Rabs (RobotState.headAngularVel s)) eps) as [N HN].
    + unfold PHYSICS.headFriction. lra.
    + apply Rabs_pos.
    + exact He.
    + exists N. intros n Hn. rewrite coast_head_n, Rabs_mult.
      rewrite (Rabs_pos_eq ((1 - PHYSICS.headFriction * dt) ^ n)).
      * apply HN, Hn.
      * apply pow_le. unfold PHYSICS.headFriction. lra.
  - split; [|split].
    + intros Hh n. rewrite coast_head_n.
      assert (0 < (1 - PHYSICS.headFriction * dt) ^ n)
        by (apply pow_lt; unfold PHYSICS.headFriction; lra).
      apply Rmult_integral_contrapositive_currified; lra.
    + intros n0 H0. split.
      * apply (coast_velocity_zero scene dt); assumption.
      * apply (coast_suspension_settles scene dt Hd n0); assumption.
    + apply coast_velocity_reaches_window. exact Hd.
Qed.

(** Released at full speed in the scene, at 200 frames a second. *)
Lemma coasting_settles_witness :
  exists N, forall n, (N <= n)%nat ->
    RobotState.angularVelocity
      (runFrames (Some collidableObjects) Actions.none 0.005 n
         (RobotState.mk 0 0 0 2.2 0 0 0 0 0 0 0 0)) = 0.
Proof.
  apply (coasting_settles (Some collidableObjects) 0.005
           (RobotState.mk 0 0 0 2.2 0 0 0 0 0 0 0 0)).
  lra.
Defined.

(* ================================================================== *)
(** * Dust particles: the population cap *)
(* ================================================================== *)

Lemma spawn_at_cap l g x y z vx vz :
  (DUST_CAP <= List.length l)%nat ->
  spawnDustParticle l g x y z vx vz = (l, g).
Proof.
  intros H. unfold spawnDustParticle.
  apply Nat.leb_le in H. rewrite H. reflexivity.
Qed.

Lemma spawn_below_cap l g x y z vx vz :
  (List.length l < DUST_CAP)%nat ->
  List.length (fst (spawnDustParticle l g x y z vx vz))
  = S (List.length l).
Proof.
  intros H. unfold spawnDustParticle.
  assert (E : Nat.leb DUST_CAP (List.length l) = false)
    by (apply Nat.leb_gt; exact H).
  rewrite E. cbn [Random.next fst]. rewrite length_app. simpl. lia.
Qed.

Lemma spawn_length l g x y z vx vz :
  (List.length l <= DUST_CAP)%nat ->
  (List.length (fst (spawnDustParticle l g x y z vx vz)) <= DUST_CAP)%nat.
Proof.
  intros H. destruct (Nat.le_gt_cases DUST_CAP (List.length l)) as [Hc|Hc].
  - rewrite spawn_at_cap by exact Hc. exact H.
  - rewrite spawn_below_cap by exact Hc. lia.
Qed.

Lemma splice1_length {A} (i : nat) (l : list A) :
  (List.length (splice1 i l) <= List.length l)%nat.
Proof.
  unfold splice1. rewrite length_app, length_firstn, length_skipn. lia.
Qed.

Lemma setAt_length {A} (i : nat) (v : A) (l : list A) :
  (i < List.length l)%nat -> List.length (setAt i v l) = List.length l.
Proof.
  intros H. unfold setAt.
  rewrite length_app, length_firstn. cbn [List.length].
  rewrite length_skipn. lia.
Qed.

(** The ageing loop only updates or removes. *)
Lemma ageLoop_length delta n l :
  (List.length (ageLoop delta n l) <= List.length l)%nat.
Proof.
  revert l. induction n as [|n IH]; intros l; cbn [ageLoop].
  - lia.
  - destruct (nth_error l n) as [p|] eqn:E; [|apply IH].
    assert (Hn : (n < List.length l)%nat)
      by (apply nth_error_Some; congruence).
    destruct (JS.ge _ _).
    + eapply Nat.le_trans; [apply IH|apply splice1_length].
    + eapply Nat.le_trans; [apply IH|].
      rewrite setAt_length by exact Hn. lia.
Qed.

Lemma updateDustParticles_length state l g delta :
  (List.length l <= DUST_CAP)%nat ->
  (List.length (fst (updateDustParticles state l g delta)) <= DUST_CAP)%nat.
Proof.
  intros H. unfold updateDustParticles. cbv zeta.
  destruct (JS.gt (JS.abs (RobotState.velocity state)) 0.5).
  - cbn [Random.next].
    destruct (JS.lt _ _).
    + destruct (JS.gt _ 0.5).
      * match goal with
        | |- context [spawnDustParticle ?a ?b ?c ?d ?e ?f ?h] =>
            pose proof (spawn_length a b c d e f h H) as Hs;
            destruct (spawnDustParticle a b c d e f h) as [l' g']
        end.
        cbn [fst] in *.
        eapply Nat.le_trans; [apply ageLoop_length|exact Hs].
      * match goal with
        | |- context [spawnDustParticle ?a ?b ?c ?d ?e ?f ?h] =>
            pose proof (spawn_length a b c d e f h H) as Hs;
            destruct (spawnDustParticle a b c d e f h) as [l' g']
        end.
        cbn [fst] in *.
        eapply Nat.le_trans; [apply ageLoop_length|exact Hs].
    + cbn [fst]. eapply Nat.le_trans; [apply ageLoop_length|exact H].
  - cbn [fst]. eapply Nat.le_trans; [apply ageLoop_length|exact H].
Qed.

Lemma tick_dust_length scene w frame :
  (List.length (Sim.dust w) <= DUST_CAP)%nat ->
  (List.length (Sim.dust (tick scene w frame)) <= DUST_CAP)%nat.
Proof.
  intros H. unfold tick. destruct frame as [actions delta].
  pose proof (updateDustParticles_length
                (updateMovement scene actions delta (Sim.robot w))
                (Sim.dust w) (Sim.rng w) delta H) as Hu.
  destruct (updateDustParticles _ _ _ _) as [l' g']. exact Hu.
Qed.

(** C7.  Over any run of the loop (any flags and frame times, any
    sequence of random draws) that starts with at most 50 particles,
    in particular with none, [dustParticles] holds at most 50 particles
    after every tick; a spawn with 50 or more present changes nothing
    and draws nothing, a spawn never goes past 50, and the ageing loop
    never lengthens the collection. *)
Theorem dust_never_exceeds_cap (scene : option (list Collidable.t))
    (frames : list (Actions.t * R)) (w : Sim.t) :
  (List.length (Sim.dust w) <= 50)%nat ->
  (List.length (Sim.dust (runTicks scene frames w)) <= 50)%nat
  /\ (forall l g x y z vx vz,
        (50 <= List.length l)%nat ->
        spawnDustParticle l g x y z vx vz = (l, g))
  /\ (forall l g x y z vx vz,
        (List.length l <= 50)%nat ->
        (List.length (fst (spawnDustParticle l g x y z vx vz)) <= 50)%nat)
  /\ (forall delta n l,
        (List.length (ageLoop delta n l) <= List.length l)%nat).
Proof.
  intros H. split; [|split; [|split]].
  - unfold runTicks. revert w H.
    induction frames as [|frame frames IH]; intros w H; cbn [fold_left].
    + exact H.
    + apply IH. apply tick_dust_length. exact H.
  - intros. apply spawn_at_cap. assumption.
  - intros. apply spawn_length. assumption.
  - intros. apply ageLoop_length.
Qed.

(** Three frames at full speed from an empty pool, every draw 0. *)
Lemma dust_never_exceeds_cap_witness :
  (List.length
     (Sim.dust
        (runTicks (Some collidableObjects)
           [(Actions.mk true false false false false false, 0.1%R);
            (Actions.mk true false false false false false, 0.1%R);
            (Actions.mk true false false false false false, 0.1%R)]
           (Sim.mk RobotState.initial [] (Random.mk (fun _ => 0%R) 0%nat))))
   <= 50)%nat.
Proof.
  apply (dust_never_exceeds_cap (Some collidableObjects)
           [(Actions.mk true false false false false false, 0.1%R);
            (Actions.mk true false false false false false, 0.1%R);
            (Actions.mk true false false false false false, 0.1%R)]
           (Sim.mk RobotState.initial [] (Random.mk (fun _ => 0%R) 0%nat))).
  simpl. lia.
Defined.

(* ================================================================== *)
(** * Camera capture: the row-reversing copy *)
(* ================================================================== *)

Lemma store_same i v buf : store i v buf i = v.
Proof. unfold store. rewrite Nat.eqb_refl. reflexivity. Qed.

Lemma store_other i j v buf : j <> i -> store i v buf j = buf j.
Proof.
  intros H. unfold store. apply Nat.eqb_neq in H. rewrite H. reflexivity.
Qed.

Lemma copyPixel_inside src y dst x k :
  (k < 4)%nat ->
  copyPixel src y dst x ((y * 640 + x) * 4 + k)%nat
  = src (((359 - y) * 640 + x) * 4 + k)%nat.
Proof.
  intros Hk. unfold copyPixel.
  destruct k as [|[|[|[|k]]]]; try lia.
  - rewrite !Nat.add_0_r.
    rewrite !store_other by lia. apply store_same.
  - rewrite !store_other by lia. apply store_same.
  - rewrite store_other by lia. apply store_same.
  - apply store_same.
Qed.

Lemma copyPixel_outside src y dst x j :
  (j < (y * 640 + x) * 4 \/ (y * 640 + x) * 4 + 4 <= j)%nat ->
  copyPixel src y dst x j = dst j.
Proof.
  intros H. unfold copyPixel. rewrite !store_other by lia. reflexivity.
Qed.

(** The first [n] pixels of row [y] copied. *)
Lemma copyRow_prefix src y n dst j :
  fold_left (copyPixel src y) (seq 0 n) dst j
  = if (Nat.leb ((y * 640) * 4) j && Nat.ltb j ((y * 640 + n) * 4))%bool
    then src (j + (359 - y) * 640 * 4 - y * 640 * 4)%nat
    else dst j.
Proof.
  induction n as [|n IH].
  - cbn [seq fold_left].
    destruct (Nat.leb_spec (y * 640 * 4) j);
      destruct (Nat.ltb_spec j ((y * 640 + 0) * 4)); cbn [andb];
      try reflexivity; lia.
  - rewrite seq_S, fold_left_app. cbn [fold_left plus].
    destruct (Nat.lt_ge_cases j ((y * 640 + n) * 4)) as [Hlt|Hge].
    + rewrite copyPixel_outside by lia. rewrite IH.
      destruct (Nat.leb_spec (y * 640 * 4) j);
        destruct (Nat.ltb_spec j ((y * 640 + n) * 4));
        destruct (Nat.ltb_spec j ((y * 640 + S n) * 4)); cbn [andb];
        try reflexivity; lia.
    + destruct (Nat.lt_ge_cases j ((y * 640 + n) * 4 + 4)) as [Hin|Hout].
      * replace j with ((y * 640 + n) * 4 + (j - (y * 640 + n) * 4))%nat
          at 1 by lia.
        rewrite copyPixel_inside by lia.
        destruct (Nat.leb_spec (y * 640 * 4) j);
          destruct (Nat.ltb_spec j ((y * 640 + S n) * 4)); cbn [andb];
          try lia.
        f_equal. lia.
      * rewrite copyPixel_outside by lia. rewrite IH.
        destruct (Nat.leb_spec (y * 640 * 4) j);
          destruct (Nat.ltb_spec j ((y * 640 + n) * 4));
          destruct (Nat.ltb_spec j ((y * 640 + S n) * 4)); cbn [andb];
          try reflexivity; lia.
Qed.

(** The first [m] rows copied. *)
Lemma copyRows_prefix src m dst j :
  (m <= 360)%nat ->
  fold_left (copyRow src) (seq 0 m) dst j
  = if Nat.ltb j (m * 640 * 4)
    then src (j + (359 - j / 2560) * 2560 - (j / 2560) * 2560)%nat
    else dst j.
Proof.
  intros Hm. induction m as [|m IH].
  - cbn [seq fold_left]. destruct (Nat.ltb_spec j (0 * 640 * 4));
      [lia|reflexivity].
  - rewrite seq_S, fold_left_app. cbn [fold_left plus].
    unfold copyRow at 1. rewrite copyRow_prefix.
    destruct (Nat.leb_spec (m * 640 * 4) j) as [Hlo|Hlo];
      destruct (Nat.ltb_spec j ((m * 640 + 640) * 4)) as [Hhi|Hhi];
      cbn [andb].
    + assert (Hq : (j / 2560 = m)%nat).
      { symmetry. apply Nat.div_unique with (r := (j - m * 2560)%nat); lia. }
      destruct (Nat.ltb_spec j (S m * 640 * 4)); [|lia].
      rewrite Hq. f_equal. lia.
    + rewrite IH by lia.
      destruct (Nat.ltb_spec j (m * 640 * 4));
        destruct (Nat.ltb_spec j (S m * 640 * 4)); try reflexivity; lia.
    + rewrite IH by lia.
      destruct (Nat.ltb_spec j (m * 640 * 4));
        destruct (Nat.ltb_spec j (S m * 640 * 4)); try reflexivity; lia.
    + lia.
Qed.

(** Every byte of the 640 by 360 image comes from the row mirrored
    about the middle, same column and channel; nothing of the old image
    is left. *)
Lemma copyFlipped_pixel src dst y x k :
  (y < 360)%nat -> (x < 640)%nat -> (k < 4)%nat ->
  copyFlipped src dst ((y * 640 + x) * 4 + k)%nat
  = src (((359 - y) * 640 + x) * 4 + k)%nat.
Proof.
  intros Hy Hx Hk. unfold copyFlipped.
  rewrite copyRows_prefix by lia.
  destruct (Nat.ltb_spec ((y * 640 + x) * 4 + k) (360 * 640 * 4)); [|lia].
  assert (Hq : (((y * 640 + x) * 4 + k) / 2560 = y)%nat).
  { symmetry. apply Nat.div_unique with (r := (x * 4 + k)%nat); lia. }
  rewrite Hq. f_equal. lia.
Qed.

Lemma copyFlipped_beyond src dst j :
  (360 * 640 * 4 <= j)%nat -> copyFlipped src dst j = dst j.
Proof.
  intros H. unfold copyFlipped. rewrite copyRows_prefix by lia.
  destruct (Nat.ltb_spec j (360 * 640 * 4)); [lia|reflexivity].
Qed.

(* ================================================================== *)
(** * Camera capture: a missing destination surface *)
(* ================================================================== *)

Section CaptureSkip.

Variable renderScene : World.t -> Camera.t -> Pixels.

Lemma renderRobotPOV_skips w :
  unavailable (World.pov w) ->
  renderRobotPOV renderScene w = (w, Returned).
Proof.
  unfold unavailable, renderRobotPOV. intros [H|H]; rewrite H.
  - reflexivity.
  - destruct (Rig.ctx (World.pov w)); reflexivity.
Qed.

Lemma renderSecurityCamera_skips w :
  unavailable (World.sec w) ->
  renderSecurityCamera renderScene w = (w, Returned).
Proof.
  unfold unavailable, renderSecurityCamera. intros [H|H]; rewrite H.
  - reflexivity.
  - destruct (Rig.ctx (World.sec w)); reflexivity.
Qed.

(** Behind the guard nothing throws. *)
Lemma renderRobotPOV_returns w :
  snd (renderRobotPOV renderScene w) = Returned.
Proof.
  unfold renderRobotPOV.
  destruct (Rig.ctx (World.pov w)) eqn:Ec; [|reflexivity].
  destruct (Rig.imageData (World.pov w)) eqn:Ei; [|reflexivity].
  unfold capturePOV. rewrite Ec, Ei. reflexivity.
Qed.

Lemma renderSecurityCamera_returns w :
  snd (renderSecurityCamera renderScene w) = Returned.
Proof.
  unfold renderSecurityCamera.
  destruct (Rig.ctx (World.sec w)) eqn:Ec; [|reflexivity].
  destruct (Rig.imageData (World.sec w)) eqn:Ei; [|reflexivity].
  unfold captureSecurity.
  cbn [World.sec World.setSec World.setRenderTarget
       World.setMountRotationY].
  rewrite Ec, Ei. reflexivity.
Qed.

Lemma captureStage_skips currentTime lastPovRenderTime w :
  unavailable (World.pov w) -> unavailable (World.sec w) ->
  POV_RENDER_INTERVAL < currentTime - lastPovRenderTime ->
  captureStage renderScene currentTime lastPovRenderTime w
  = (w, currentTime, Returned).
Proof.
  intros Hp Hs Ht. unfold captureStage.
  apply JSFacts.gt_true in Ht. rewrite Ht.
  rewrite (renderRobotPOV_skips w Hp).
  rewrite (renderSecurityCamera_skips w Hs). reflexivity.
Qed.

End CaptureSkip.

(** C9.  For each camera, when its 2D context or its image buffer is
    missing the capture routine returns normally and leaves the whole
    world as it was: no camera is moved, nothing is rendered, read back
    or drawn.  Neither routine ever throws.  When both surfaces are
    missing a due capture stage changes only its own time stamp, so the
    routines are called again once the next interval has passed. *)
Theorem capture_skips_without_surface
    (renderScene : World.t -> Camera.t -> Pixels) (w : World.t) :
  (unavailable (World.pov w) ->
   renderRobotPOV renderScene w = (w, Returned))
  /\ (unavailable (World.sec w) ->
      renderSecurityCamera renderScene w = (w, Returned))
  /\ snd (renderRobotPOV renderScene w) = Returned
  /\ snd (renderSecurityCamera renderScene w) = Returned
  /\ (forall currentTime lastPovRenderTime,
        unavailable (World.pov w) -> unavailable (World.sec w) ->
        POV_RENDER_INTERVAL < currentTime - lastPovRenderTime ->
        captureStage renderScene currentTime lastPovRenderTime w
        = (w, currentTime, Returned)).
Proof.
  split; [apply renderRobotPOV_skips|].
  split; [apply renderSecurityCamera_skips|].
  split; [apply renderRobotPOV_returns|].
  split; [apply renderSecurityCamera_returns|].
  intros. apply captureStage_skips; assumption.
Qed.

(** Before the canvases are mounted both captures are skipped. *)
Lemma capture_skips_without_surface_witness :
  let gpu : World.t -> Camera.t -> Pixels := fun _ _ _ => 0%Z in
  renderRobotPOV gpu unmountedWorld = (unmountedWorld, Returned)
  /\ renderSecurityCamera gpu unmountedWorld = (unmountedWorld, Returned).
Proof.
  intros gpu.
  destruct (capture_skips_without_surface gpu unmountedWorld)
    as (Hp & Hs & _).
  split; [apply Hp|apply Hs]; left; reflexivity.
Defined.

(* ================================================================== *)
(** * Expression renderer: what an invocation inherits *)
(* ================================================================== *)

Section RendererState.

Variable measureText : string -> string -> R.

Import Canvas.

(** The opening fill replaces the whole bitmap. *)
Lemma background_replaces w h st sv p r :
  neutral st ->
  fillRect 0 0 w h
    (setFillStyle (Color "#0a0a1a") (mkCtx w h st sv p r))
  = paint (fun _ => [Solid "#0a0a1a"])
      (setFillStyle (Color "#0a0a1a") (mkCtx w h st sv p r)).
Proof.
  intros (Ha & Ho & Ht). unfold fillRect, replacesAll.
  cbn [setFillStyle withState state fillStyle transform globalAlpha
       globalCompositeOperation width height].
  rewrite Ht, Ha, Ho.
  assert (E1 : JS.strictEq 1 1 = true)
    by (apply JSFacts.strictEq_true; reflexivity).
  assert (E2 : JS.ge 0 0 = true) by (apply JSFacts.ge_true; lra).
  assert (E3 : JS.ge (0 + w) w = true) by (apply JSFacts.ge_true; lra).
  assert (E4 : JS.ge (0 + h) h = true) by (apply JSFacts.ge_true; lra).
  rewrite E1, E2, E3, E4. reflexivity.
Qed.

(** With no override text, what an invocation paints depends on
    the context it is handed only through the bitmap size and the
    text alignment and baseline. *)
Lemma expression_raster_inherits expr color time a b na nb :
  sameTextLayout a b ->
  neutral (state a) -> neutral (state b) ->
  raster (Face.faceCtx
            (drawFaceLocal measureText expr color None time
               (Face.mk a na)))
  = raster (Face.faceCtx
              (drawFaceLocal measureText expr color None time
                 (Face.mk b nb))).
Proof.
  destruct a as [w h sa sva pa ra], b as [w' h' sb svb pb rb].
  unfold sameTextLayout. cbn [width height state].
  intros (Ew & Eh & Eta & Etb) Hna Hnb. subst w' h'.
  unfold drawFaceLocal.
  cbn [Face.faceCtx width height JSString.truthyOpt].
  rewrite !background_replaces by assumption.
  destruct sa as [f1 s1 sc1 sbl1 lw1 lc1 fo1 ta1 tb1 ga1 go1 tr1].
  destruct sb as [f2 s2 sc2 sbl2 lw2 lc2 fo2 ta2 tb2 ga2 go2 tr2].
  destruct Hna as (Ha1 & Ho1 & Ht1). destruct Hnb as (Ha2 & Ho2 & Ht2).
  cbn [textAlign textBaseline globalAlpha globalCompositeOperation
       transform] in *.
  subst. unfold drawExpression.
  repeat match goal with
         | |- context [String.eqb expr ?k] => destruct (String.eqb expr k)
         end; reflexivity.
Qed.

Lemma fillLines_state w startY lineHeight lines i c :
  state (fillLines w startY lineHeight i lines c) = state c.
Proof.
  revert i c. induction lines as [|line lines IH]; intros i c;
    cbn [fillLines].
  - reflexivity.
  - rewrite IH. reflexivity.
Qed.

(** The text branch leaves its alignment and baseline behind. *)
Lemma text_branch_leaves_layout expr color text time face :
  JSString.truthy text = true ->
  let c := Face.faceCtx
             (drawFaceLocal measureText expr color (Some text) time face) in
  textAlign (state c) = "center"%string
  /\ textBaseline (state c) = "middle"%string
  /\ width c = width (Face.faceCtx face)
  /\ height c = height (Face.faceCtx face).
Proof.
  intros Ht c. subst c. unfold drawFaceLocal.
  cbn [JSString.truthyOpt]. rewrite Ht. cbn [Face.faceCtx].
  unfold drawText.
  assert (Hk : forall w startY lineHeight lines i c,
             width (fillLines w startY lineHeight i lines c) = width c
             /\ height (fillLines w startY lineHeight i lines c)
                = height c).
  { intros w startY lineHeight lines.
    induction lines as [|line lines IH]; intros i c; cbn [fillLines].
    - split; reflexivity.
    - destruct (IH (S i) (fillText line (w / 2)
                           (startY + INR i * lineHeight) c)) as (E1 & E2).
      rewrite E1, E2. split; reflexivity. }
  cbv zeta. rewrite fillLines_state.
  match goal with
  | |- context [fillLines ?w ?y ?lh ?i ?ls ?c] =>
      destruct (Hk w y lh ls i c) as (E1 & E2); rewrite E1, E2
  end.
  destruct (Face.faceCtx face) as [w h st sv p r].
  unfold fillRect. destruct (replacesAll _ _ _ _ _);
    repeat split; reflexivity.
Qed.

(** Every invocation hands on neutral compositing settings. *)
Lemma drawFaceLocal_neutral expr color text time face :
  neutral (state (Face.faceCtx face)) ->
  neutral
    (state (Face.faceCtx
              (drawFaceLocal measureText expr color text time face))).
Proof.
  destruct face as [[w h st sv p r] n]. cbn [Face.faceCtx state].
  intros Hn. unfold drawFaceLocal. cbn [Face.faceCtx width height].
  rewrite background_replaces by assumption.
  destruct st as [f1 s1 sc1 sbl1 lw1 lc1 fo1 ta1 tb1 ga1 go1 tr1].
  destruct Hn as (Ha & Ho & Ht).
  cbn [globalAlpha globalCompositeOperation transform] in *. subst.
  destruct (JSString.truthyOpt text).
  - cbn [Face.faceCtx]. unfold drawText. cbv zeta.
    rewrite fillLines_state. repeat split; reflexivity.
  - cbn [Face.faceCtx]. unfold drawExpression.
    assert (E1 : JS.ge 1 0 = true) by (apply JSFacts.ge_true; lra).
    assert (E2 : JS.ge 1 1 = true) by (apply JSFacts.ge_true; lra).
    repeat match goal with
           | |- context [String.eqb expr ?k] => destruct (String.eqb expr k)
           end;
      unfold neutral;
      cbn [fold_left seq loadingDot setGlobalAlpha withState state
           globalAlpha globalCompositeOperation transform beginPath
           withPath arc addSeg fill paint];
      rewrite ?E1, ?E2; repeat split; reflexivity.
Qed.

(** An expression branch keeps size, alignment and baseline. *)
Lemma expression_keeps_layout expr color time face :
  neutral (state (Face.faceCtx face)) ->
  sameTextLayout (Face.faceCtx face)
    (Face.faceCtx (drawFaceLocal measureText expr color None time face)).
Proof.
  destruct face as [[w h st sv p r] n]. cbn [Face.faceCtx state].
  intros Hn. unfold drawFaceLocal.
  cbn [Face.faceCtx width height JSString.truthyOpt].
  rewrite background_replaces by assumption.
  destruct st as [f1 s1 sc1 sbl1 lw1 lc1 fo1 ta1 tb1 ga1 go1 tr1].
  destruct Hn as (Ha & Ho & Ht).
  cbn [globalAlpha globalCompositeOperation transform] in *. subst.
  unfold drawExpression, sameTextLayout.
  repeat match goal with
         | |- context [String.eqb expr ?k] => destruct (String.eqb expr k)
         end; repeat split; reflexivity.
Qed.

(** The fifth mark of a 'sleepy' face: the first "z", laid out with
    whatever alignment and baseline the context came with. *)
Lemma sleepy_first_z color time c n :
  neutral (state c) ->
  nth_error
    (raster (Face.faceCtx
               (drawFaceLocal measureText "sleepy" color None time
                  (Face.mk c n)))) 4
  = Some (FilledText "z" (width c * 0.75) (height c * 0.35)
            (Color color) "bold 18px Inter, sans-serif"
            (textAlign (state c)) (textBaseline (state c))
            (mkCompositing 1 "source-over" color 20 [])).
Proof.
  destruct c as [w h st sv p r]. cbn [state width height].
  intros Hn. unfold drawFaceLocal.
  cbn [Face.faceCtx width height JSString.truthyOpt].
  rewrite background_replaces by assumption.
  destruct st as [f1 s1 sc1 sbl1 lw1 lc1 fo1 ta1 tb1 ga1 go1 tr1].
  destruct Hn as (Ha & Ho & Ht).
  cbn [globalAlpha globalCompositeOperation transform] in *. subst.
  reflexivity.
Qed.

End RendererState.

Lemma fresh_neutral w h : neutral (Canvas.state (Canvas.fresh w h)).
Proof. repeat split; reflexivity. Qed.

(** What holds of the renderer's determinism.  With no override text,
    two invocations with the same expression, colour and time paint the
    same bitmap whatever the two bitmaps held before, provided the two
    contexts agree on [textAlign] and [textBaseline]: the opening fill
    replaces every pixel and every other setting that is read is
    written first. *)
Lemma expression_raster_deterministic
    (measureText : string -> string -> R) (expr color : string) (time : R)
    (a b : Face.t) :
  sameTextLayout (Face.faceCtx a) (Face.faceCtx b) ->
  neutral (Canvas.state (Face.faceCtx a)) ->
  neutral (Canvas.state (Face.faceCtx b)) ->
  Canvas.raster
    (Face.faceCtx (drawFaceLocal measureText expr color None time a))
  = Canvas.raster
      (Face.faceCtx (drawFaceLocal measureText expr color None time b))
  /\ neutral
       (Canvas.state
          (Face.faceCtx (drawFaceLocal measureText expr color None time a))).
Proof.
  intros Hs Ha Hb. split.
  - destruct a as [ca na], b as [cb nb].
    apply expression_raster_inherits; assumption.
  - apply drawFaceLocal_neutral. exact Ha.
Qed.

(** The same face drawn over a blank bitmap and over a painted one. *)
Lemma expression_raster_deterministic_witness :
  let painted :=
    drawFaceLocal monospace14 "love" "#ff00ff" None 0 Face.created in
  Canvas.raster
    (Face.faceCtx
       (drawFaceLocal monospace14 "wink" "#00ffff" None 40 Face.created))
  = Canvas.raster
      (Face.faceCtx
         (drawFaceLocal monospace14 "wink" "#00ffff" None 40 painted)).
Proof.
  intros painted.
  apply (expression_raster_deterministic monospace14 "wink" "#00ffff" 40
           Face.created painted).
  - apply expression_keeps_layout. apply fresh_neutral.
  - apply fresh_neutral.
  - apply drawFaceLocal_neutral. apply fresh_neutral.
Defined.

(** C8 at its failing input.  The renderer is not a function of
    (expression, colour, time, no override text) alone: the 'sleepy'
    face drawn at the same time in the same colour, once on the 256 by
    160 canvas as created and once on the same canvas after "Hello!"
    has been shown on it, gives two different bitmaps, the first "z"
    being laid out [start]/[alphabetic] in the one and
    [center]/[middle] in the other. *)
Theorem expression_text_layout_leak :
  let shown :=
    drawFaceLocal monospace14 "happy" "#00ffff" (Some "Hello!"%string) 0
      Face.created in
  let first :=
    drawFaceLocal monospace14 "sleepy" "#00ffff" None 5000 Face.created in
  let second :=
    drawFaceLocal monospace14 "sleepy" "#00ffff" None 5000 shown in
  Canvas.raster (Face.faceCtx first) <> Canvas.raster (Face.faceCtx second)
  /\ Canvas.width (Face.faceCtx shown) = 256
  /\ Canvas.height (Face.faceCtx shown) = 160.
Proof.
  intros shown first second.
  destruct (text_branch_leaves_layout monospace14 "happy" "#00ffff"
              "Hello!" 0 Face.created eq_refl) as (Eta & Etb & Ew & Eh).
  fold shown in Eta, Etb, Ew, Eh.
  assert (Hn : neutral (Canvas.state (Face.faceCtx shown))).
  { apply drawFaceLocal_neutral. apply fresh_neutral. }
  split; [|split; [exact Ew|exact Eh]].
  intros H.
  pose proof (sleepy_first_z monospace14 "#00ffff" 5000
                (Face.faceCtx Face.created) false (fresh_neutral 256 160))
    as H1.
  pose proof (sleepy_first_z monospace14 "#00ffff" 5000
                (Face.faceCtx shown) (Face.needsUpdate shown) Hn) as H2.
  assert (Es : Face.mk (Face.faceCtx shown) (Face.needsUpdate shown) = shown)
    by (destruct shown; reflexivity).
  rewrite Es in H2. fold second in H2.
  change (Face.mk (Face.faceCtx Face.created) false) with Face.created in H1.
  fold first in H1.
  rewrite H, H2, Eta, Etb in H1.
  injection H1 as _ _ Ealign _. discriminate Ealign.
Qed.

(* ================================================================== *)
(** * Further properties: the resolver and one frame of motion *)
(* ================================================================== *)

Lemma frame_in_arena scene actions delta s :
  insideArena (updateMovement scene actions delta s).
Proof.
  destruct (updateMovement_resolved scene actions delta s) as (Ex & Ez & _).
  cbv zeta in Ex, Ez. unfold insideArena. rewrite Ex, Ez.
  rewrite resolve_x, resolve_z. split; apply clamp_bounds; lra.
Qed.

(** X1.  Whatever the state, the flags, the frame time and the scene,
    a frame of the integrator leaves the robot's centre inside the wall
    bounds: x in [-8.4, 8.4] and z in [-8.4, 10]. *)
Theorem updateMovement_stays_in_arena
    (scene : option (list Collidable.t)) (actions : Actions.t)
    (delta : R) (s : RobotState.t) :
  insideArena (updateMovement scene actions delta s).
Proof. apply frame_in_arena. Qed.

Lemma body_keeps_flag X Z acc obj :
  Outcome.collision acc = true ->
  Outcome.collision (objectLoopBody X Z acc obj) = true.
Proof.
  intros H. destruct (pushes_dec obj X Z) as [Hp|Hp].
  - rewrite (body_push _ _ _ _ Hp). reflexivity.
  - rewrite (body_skip _ _ _ _ Hp). exact H.
Qed.

Lemma loop_keeps_flag X Z objs acc :
  Outcome.collision acc = true ->
  Outcome.collision (fold_left (objectLoopBody X Z) objs acc) = true.
Proof.
  revert acc. induction objs as [|obj objs IH]; intros acc H;
    cbn [fold_left].
  - exact H.
  - apply IH. apply body_keeps_flag. exact H.
Qed.

(** A pass that ends with the flag down has pushed nowhere. *)
Lemma loop_unflagged X Z objs acc :
  Outcome.collision (fold_left (objectLoopBody X Z) objs acc) = false ->
  fold_left (objectLoopBody X Z) objs acc = acc
  /\ forall obj, In obj objs -> ~ pushes obj X Z.
Proof.
  revert acc. induction objs as [|obj objs IH]; intros acc H;
    cbn [fold_left] in *.
  - split; [reflexivity|intros ? []].
  - destruct (pushes_dec obj X Z) as [Hp|Hp].
    + rewrite (body_push _ _ _ _ Hp) in H.
      rewrite loop_keeps_flag in H by reflexivity. discriminate H.
    + rewrite (body_skip _ _ _ _ Hp) in *.
      destruct (IH acc H) as (E & Hno). split; [exact E|].
      intros o [<-|Ho]; [exact Hp|apply Hno; exact Ho].
Qed.

Lemma resolve_unflagged scene newX newZ :
  Outcome.collision (resolveCollisions scene newX newZ) = false ->
  resolveCollisions scene newX newZ = Outcome.mk newX newZ false
  /\ insideArena (RobotState.mk newX newZ 0 0 0 0 0 0 0 0 0 0)
  /\ (forall objs obj, scene = Some objs -> In obj objs ->
      ~ pushes obj newX newZ).
Proof.
  intros H. unfold resolveCollisions in H. cbn [Outcome.collision] in H.
  apply orb_false_iff in H. destruct H as (Hobj & Hwall).
  apply orb_false_iff in Hwall. destruct Hwall as (Hwx & Hwz).
  apply JSFacts.strictNe_false in Hwx. apply JSFacts.strictNe_false in Hwz.
  assert (Eo : checkObjectCollision scene newX newZ
               = Outcome.mk newX newZ false
               /\ (forall objs obj, scene = Some objs -> In obj objs ->
                   ~ pushes obj newX newZ)).
  { destruct scene as [objs|]; cbn [checkObjectCollision] in *.
    - destruct (loop_unflagged _ _ _ _ Hobj) as (E & Hno).
      split; [exact E|]. intros objs' obj Es. injection Es as <-.
      apply Hno.
    - split; [reflexivity|]. intros objs obj Es. discriminate Es. }
  destruct Eo as (Eo & Hno). rewrite Eo in Hwx, Hwz.
  cbn [Outcome.x Outcome.z] in Hwx, Hwz.
  assert (Hin : -8.4 <= newX <= 8.4 /\ -8.4 <= newZ <= 10).
  { rewrite wall_x in Hwx. rewrite wall_z in Hwz.
    rewrite <- Hwx at 1 2. rewrite <- Hwz at 1 2.
    split; apply clamp_bounds; lra. }
  split; [|split; [exact Hin|exact Hno]].
  unfold resolveCollisions. rewrite Eo. cbn [Outcome.x Outcome.z].
  destruct Hin as (HX & HZ). rewrite (wall_fixed _ _ HX HZ).
  cbn [Point.x Point.z Outcome.collision].
  assert (E1 : JS.strictNe newX newX = false)
    by (apply JSFacts.strictNe_false; reflexivity).
  assert (E2 : JS.strictNe newZ newZ = false)
    by (apply JSFacts.strictNe_false; reflexivity).
  rewrite E1, E2. reflexivity.
Qed.



(** X3.  In exact arithmetic: a frame in which the resolver reports no
    collision keeps the velocity [v] this frame's velocity block
    produced and puts the robot at the proposed point, [v * delta]
    along its new heading, so that the displacement has length
    [|v * delta|] (its square is [(v * delta)^2]).  The rounded sine,
    cosine and products of the program only approximate that length;
    the velocity kept and the point taken are the program's own. *)
Theorem free_frame_displacement
    (scene : option (list Collidable.t)) (actions : Actions.t)
    (delta : R) (s : RobotState.t) :
  frameCollided scene actions delta s = false ->
  let v := stepVelocity (targetVelocityOf actions) delta
             (RobotState.velocity s) in
  let s' := updateMovement scene actions delta s in
  RobotState.velocity s' = v
  /\ RobotState.x s' = RobotState.x s + sin (RobotState.rotation s') * (v * delta)
  /\ RobotState.z s' = RobotState.z s + cos (RobotState.rotation s') * (v * delta)
  /\ (RobotState.x s' - RobotState.x s) * (RobotState.x s' - RobotState.x s)
     + (RobotState.z s' - RobotState.z s) * (RobotState.z s' - RobotState.z s)
     = (v * delta) * (v * delta).
Proof.
  intros Hfree v s'.
  destruct (updateMovement_resolved scene actions delta s) as (Ex & Ez & Ev).
  cbv zeta in Ex, Ez, Ev. fold v s' in Ex, Ez, Ev.
  unfold frameCollided in Hfree. cbv zeta in Hfree. fold v s' in Hfree.
  destruct (resolve_unflagged _ _ _ Hfree) as (Er & _).
  rewrite Er in Ex, Ez, Ev. cbn [Outcome.x Outcome.z Outcome.collision] in *.
  split; [exact Ev|]. split; [exact Ex|]. split; [exact Ez|].
  rewrite Ex, Ez. pose proof (sin2_cos2 (RobotState.rotation s')) as Hsc.
  unfold Rsqr in Hsc. set (sn := sin _) in *. set (cs := cos _) in *.
  replace ((RobotState.x s + sn * (v * delta) - RobotState.x s)
           * (RobotState.x s + sn * (v * delta) - RobotState.x s)
           + (RobotState.z s + cs * (v * delta) - RobotState.z s)
             * (RobotState.z s + cs * (v * delta) - RobotState.z s))
    with ((sn * sn + cs * cs) * ((v * delta) * (v * delta))) by ring.
  rewrite Hsc. ring.
Qed.

Lemma frame_free_straight actions delta s :
  Actions.turnLeft actions = false -> Actions.turnRight actions = false ->
  RobotState.rotation s = 0 -> RobotState.angularVelocity s = 0 ->
  RobotState.x s = 0 ->
  -0.5 <= RobotState.z s
          + stepVelocity (targetVelocityOf actions) delta
              (RobotState.velocity s) * delta <= 0.5 ->
  frameCollided (Some collidableObjects) actions delta s = false.
Proof.
  intros Hl Hr Hrot Hw Hx Hz. unfold frameCollided. cbv zeta.
  set (s' := updateMovement (Some collidableObjects) actions delta s).
  set (v := stepVelocity _ _ _) in *.
  assert (Ew : RobotState.angularVelocity s' = 0).
  { unfold s'. rewrite updateMovement_angularVelocity.
    rewrite targetAngularVel_none by assumption.
    rewrite Hw. apply stepAngularVelocity_rest. }
  assert (Erot : RobotState.rotation s' = 0).
  { unfold s'. rewrite updateMovement_rotation. fold s'. rewrite Ew, Hrot.
    lra. }
  rewrite Erot, sin_0, cos_0, Hx.
  rewrite resolve_near_origin by lra. reflexivity.
Qed.

(** From rest at the origin, driving forward for a frame of 100 ms. *)
Lemma free_frame_displacement_witness :
  let actions := Actions.mk true false false false false false in
  let v := stepVelocity (targetVelocityOf actions) 0.1
             (RobotState.velocity RobotState.initial) in
  let s' := updateMovement (Some collidableObjects) actions 0.1
              RobotState.initial in
  RobotState.velocity s' = v
  /\ RobotState.x s'
     = RobotState.x RobotState.initial
       + sin (RobotState.rotation s') * (v * 0.1)
  /\ RobotState.z s'
     = RobotState.z RobotState.initial
       + cos (RobotState.rotation s') * (v * 0.1)
  /\ (RobotState.x s' - RobotState.x RobotState.initial)
     * (RobotState.x s' - RobotState.x RobotState.initial)
     + (RobotState.z s' - RobotState.z RobotState.initial)
       * (RobotState.z s' - RobotState.z RobotState.initial)
     = (v * 0.1) * (v * 0.1).
Proof.
  apply (free_frame_displacement (Some collidableObjects)
           (Actions.mk true false false false false false) 0.1
           RobotState.initial).
  apply frame_free_straight; try reflexivity.
  pose proof (stepVelocity_bound
                (Actions.mk true false false false false false) 0.1
                (RobotState.velocity RobotState.initial)) as Hb.
  assert (Hv : Rabs (RobotState.velocity RobotState.initial) <= 2.2).
  { cbn [RobotState.velocity RobotState.initial]. rewrite Rabs_R0. lra. }
  specialize (Hb ltac:(lra) Hv). apply Rabs_le_bounds in Hb.
  cbn [RobotState.z RobotState.initial]. lra.
Defined.

(* ------------------------------------------------------------------ *)
(** ** The object pass and the order of registration *)

Lemma body_comm X Z acc a b :
  objectLoopBody X Z (objectLoopBody X Z acc a) b
  = objectLoopBody X Z (objectLoopBody X Z acc b) a.
Proof.
  destruct (pushes_dec a X Z) as [Ha|Ha], (pushes_dec b X Z) as [Hb|Hb];
    repeat first [rewrite (body_push a) by exact Ha
                 |rewrite (body_push b) by exact Hb
                 |rewrite (body_skip a) by exact Ha
                 |rewrite (body_skip b) by exact Hb];
    try reflexivity.
  unfold pushed. cbn [Outcome.x Outcome.z Outcome.collision].
  f_equal; unfold Rdiv; ring.
Qed.

Lemma loop_permutation X Z objs objs' :
  Permutation objs objs' ->
  forall acc,
    fold_left (objectLoopBody X Z) objs acc
    = fold_left (objectLoopBody X Z) objs' acc.
Proof.
  induction 1 as [|o l l' _ IH|a b l|l l' l'' _ IH1 _ IH2]; intros acc;
    cbn [fold_left].
  - reflexivity.
  - apply IH.
  - rewrite body_comm. reflexivity.
  - rewrite IH1. apply IH2.
Qed.

(** X4.  In exact arithmetic the resolver's answer does not depend on
    the order in which the obstacles were registered: every push is
    computed from the proposed point and added to the running point, so
    reordering the list leaves the object pass, and with it the whole
    resolver, unchanged. *)
Theorem resolver_order_independent
    (objs objs' : list Collidable.t) (newX newZ : R) :
  Permutation objs objs' ->
  checkObjectCollision (Some objs) newX newZ
  = checkObjectCollision (Some objs') newX newZ
  /\ resolveCollisions (Some objs) newX newZ
     = resolveCollisions (Some objs') newX newZ.
Proof.
  intros Hp.
  assert (E : checkObjectCollision (Some objs) newX newZ
              = checkObjectCollision (Some objs') newX newZ).
  { cbn [checkObjectCollision]. apply loop_permutation. exact Hp. }
  split; [exact E|]. unfold resolveCollisions. rewrite E. reflexivity.
Qed.

(** The two cones of the scene, in either order, for a point in reach
    of both. *)
Lemma resolver_order_independent_witness :
  checkObjectCollision
    (Some [prop None "cone" 0.3 3 2; prop None "cone" 0.3 3.5 1.5]) 3.2 1.8
  = checkObjectCollision
      (Some [prop None "cone" 0.3 3.5 1.5; prop None "cone" 0.3 3 2]) 3.2 1.8
  /\ resolveCollisions
       (Some [prop None "cone" 0.3 3 2; prop None "cone" 0.3 3.5 1.5])
       3.2 1.8
     = resolveCollisions
         (Some [prop None "cone" 0.3 3.5 1.5; prop None "cone" 0.3 3 2])
         3.2 1.8.
Proof.
  apply resolver_order_independent. apply perm_swap.
Defined.

(* ------------------------------------------------------------------ *)
(** ** One object pass among well-separated obstacles *)





(* ------------------------------------------------------------------ *)
(** ** Head turn rate, tilt and lean *)

Lemma updateMovement_bodyTilt scene actions delta s :
  let s' := updateMovement scene actions delta s in
  RobotState.bodyTilt s'
  = RobotState.bodyTilt s
    + (- ((targetVelocityOf actions - RobotState.velocity s') * 0.5)
         * PHYSICS.tiltAmount
       - RobotState.bodyTilt s) * PHYSICS.tiltSmoothing * delta.
Proof. reflexivity. Qed.

Lemma updateMovement_bodyLean scene actions delta s :
  let s' := updateMovement scene actions delta s in
  RobotState.bodyLean s'
  = RobotState.bodyLean s
    + (- RobotState.angularVelocity s' * PHYSICS.leanAmount
         * JS.max 0.3 (JS.abs (RobotState.velocity s') / PHYSICS.maxSpeed)
       - RobotState.bodyLean s) * PHYSICS.leanSmoothing * delta.
Proof. reflexivity. Qed.

Lemma frame_keeps_limits scene actions dt s :
  0 <= dt <= 0.1 -> withinLimits s ->
  withinLimits (updateMovement scene actions dt s).
Proof.
  intros Hd (Hv & Hw & Hh).
  unfold PHYSICS.maxSpeed, PHYSICS.maxTurnSpeed, PHYSICS.headMaxRotation
    in *.
  pose proof (stepVelocity_bound actions dt _ Hd Hv) as Hv1.
  unfold withinLimits, PHYSICS.maxSpeed, PHYSICS.maxTurnSpeed,
    PHYSICS.headMaxRotation.
  split; [|split].
  - destruct (updateMovement_velocity scene actions dt s) as [E|E];
      rewrite E; [exact Hv1|].
    apply Rabs_le_bounds in Hv1. apply Rabs_le. lra.
  - rewrite updateMovement_angularVelocity.
    apply stepAngularVelocity_bound; [exact Hd| |exact Hw].
    apply targetAngularVel_bound. exact Hv1.
  - rewrite updateMovement_headRotY. apply Rabs_le.
    apply clamp_bounds. unfold PHYSICS.headMaxRotation. lra.
Qed.

Lemma targetHeadVel_bound actions :
  Rabs (targetHeadVelOf actions) <= 2.5.
Proof.
  unfold targetHeadVelOf, PHYSICS.headTurnSpeed.
  destruct (Actions.headLeft actions), (Actions.headRight actions);
    cbv zeta; apply Rabs_le; lra.
Qed.

Lemma stepHeadAngularVel_bound target delta h :
  0 <= delta <= 0.1 -> Rabs target <= 2.5 -> Rabs h <= 2.5 ->
  Rabs (stepHeadAngularVel target delta h) <= 2.5.
Proof.
  intros Hd Ht Hh. apply Rabs_le_bounds in Ht. apply Rabs_le_bounds in Hh.
  unfold stepHeadAngularVel, PHYSICS.headFriction.
  destruct (JS.strictNe target 0); apply Rabs_le; nra.
Qed.

Lemma frame_keeps_pose scene actions dt s :
  0 <= dt <= 0.1 -> withinLimits s -> poseWithinLimits s ->
  poseWithinLimits (updateMovement scene actions dt s).
Proof.
  intros Hd Hlim (Hh & Ht & Hl).
  pose proof (frame_keeps_limits scene actions dt s Hd Hlim)
    as (Hv' & Hw' & _).
  unfold PHYSICS.maxSpeed, PHYSICS.maxTurnSpeed, PHYSICS.headTurnSpeed in *.
  set (s' := updateMovement scene actions dt s) in *.
  unfold poseWithinLimits, PHYSICS.headTurnSpeed. split; [|split].
  - unfold s'. rewrite updateMovement_headAngularVel.
    apply stepHeadAngularVel_bound; [exact Hd| |exact Hh].
    apply targetHeadVel_bound.
  - unfold s'. rewrite updateMovement_bodyTilt. cbv zeta. fold s'.
    unfold PHYSICS.tiltAmount, PHYSICS.tiltSmoothing.
    apply Rabs_le_bounds in Hv'. apply Rabs_le_bounds in Ht.
    assert (Htv : -1.32 <= targetVelocityOf actions <= 2.2).
    { destruct (targetVelocity_cases actions)
        as [(E & _)|[(E & _)|(E & _)]]; rewrite E; lra. }
    set (tv := targetVelocityOf actions) in *.
    set (v := RobotState.velocity s') in *.
    set (b := RobotState.bodyTilt s) in *.
    apply Rabs_le. nra.
  - unfold s'. rewrite updateMovement_bodyLean. cbv zeta. fold s'.
    unfold PHYSICS.leanAmount, PHYSICS.leanSmoothing, PHYSICS.maxSpeed,
      JS.abs, JS.max.
    pose proof (Rabs_pos (RobotState.velocity s')) as Hp.
    assert (Hm : 0.3 <= Rmax 0.3 (Rabs (RobotState.velocity s') / 2.2) <= 1).
    { split; [apply Rmax_l|]. apply Rmax_lub; lra. }
    set (m := Rmax _ _) in *.
    apply Rabs_le_bounds in Hw'. apply Rabs_le_bounds in Hl.
    set (w := RobotState.angularVelocity s') in *.
    set (b := RobotState.bodyLean s) in *.
    assert (Hwm : -2.2 <= w * m <= 2.2) by nra.
    set (wm := w * m) in *.
    replace (- w * 0.06 * m) with (- 0.06 * wm) by (unfold wm; lra).
    apply Rabs_le. nra.
Qed.

(** X6.  With a frame time in [0, 0.1] and a state within the three
    limits, the head turn rate stays within 2.5 rad/s, the body tilt
    within 0.176 rad and the body lean within 0.132 rad, once they are:
    each is eased toward a target that is itself within the bound. *)
Theorem updateMovement_pose_within_limits
    (scene : option (list Collidable.t)) (actions : Actions.t)
    (dt : R) (s : RobotState.t) :
  0 <= dt <= 0.1 -> withinLimits s -> poseWithinLimits s ->
  poseWithinLimits (updateMovement scene actions dt s).
Proof. apply frame_keeps_pose. Qed.

Lemma initial_within_limits :
  withinLimits RobotState.initial /\ poseWithinLimits RobotState.initial.
Proof.
  unfold withinLimits, poseWithinLimits, RobotState.initial,
    PHYSICS.maxSpeed, PHYSICS.maxTurnSpeed, PHYSICS.headMaxRotation,
    PHYSICS.headTurnSpeed; simpl.
  rewrite Rabs_R0. repeat split; lra.
Qed.

(** The robot at rest, all flags set, a frame of 16 ms. *)
Lemma updateMovement_pose_within_limits_witness :
  poseWithinLimits
    (updateMovement (Some collidableObjects)
       (Actions.mk true true true true true true) 0.016
       RobotState.initial).
Proof.
  apply updateMovement_pose_within_limits.
  - lra.
  - apply initial_within_limits.
  - apply initial_within_limits.
Defined.

(* ------------------------------------------------------------------ *)
(** ** The velocity block under a held input *)

Lemma nat_above (x : R) : exists n : nat, x < INR n.
Proof.
  destruct (archimed x) as (Hup & _).
  exists (Z.to_nat (up x)). rewrite INR_IZR_INZ.
  destruct (Z_le_gt_dec 0 (up x)) as [Hz|Hz].
  - rewrite Z2Nat.id by exact Hz. lra.
  - assert (E : Z.to_nat (up x) = 0%nat) by lia. rewrite E. simpl.
    assert (IZR (up x) <= 0) by (apply IZR_le; lia). lra.
Qed.

Lemma stepVelocity_fixed target delta :
  target <> 0 -> stepVelocity target delta target = target.
Proof.
  intros Ht. unfold stepVelocity.
  apply JSFacts.strictNe_true in Ht. rewrite Ht. cbv zeta.
  replace (target - target) with 0 by lra. rewrite JSFacts.sign_zero.
  destruct (JS.gt _ (JS.abs target)); [reflexivity|]. lra.
Qed.

(** Below a positive target the block ramps up by [4 * delta] a frame
    and stops at the target. *)
Lemma stepVelocity_up target delta w :
  0 < target -> 0 <= delta -> - target <= w < target ->
  stepVelocity target delta w = Rmin target (w + 4 * delta).
Proof.
  intros Ht Hd Hw. unfold stepVelocity.
  assert (E : JS.strictNe target 0 = true)
    by (apply JSFacts.strictNe_true; lra).
  rewrite E. cbv zeta.
  assert (Eg : JS.gt target w = true) by (apply JSFacts.gt_true; lra).
  rewrite Eg. rewrite JSFacts.sign_pos by lra.
  unfold PHYSICS.acceleration, JS.abs.
  rewrite (Rabs_pos_eq target) by lra.
  replace (w + 1 * 4.0 * delta) with (w + 4 * delta) by lra.
  unfold Rmin. destruct (Rle_dec target (w + 4 * delta)) as [H|H].
  - destruct (JS.gt _ target) eqn:G; [reflexivity|].
    apply JSFacts.gt_false in G. rewrite Rabs_pos_eq in G by lra. lra.
  - assert (G : JS.gt (Rabs (w + 4 * delta)) target = false).
    { apply JSFacts.gt_false. apply Rabs_le. lra. }
    rewrite G. reflexivity.
Qed.

(** Above a negative target it ramps down by [5 * delta] a frame. *)
Lemma stepVelocity_down target delta w :
  target < 0 -> 0 <= delta -> target < w <= - target ->
  stepVelocity target delta w = Rmax target (w - 5 * delta).
Proof.
  intros Ht Hd Hw. unfold stepVelocity.
  assert (E : JS.strictNe target 0 = true)
    by (apply JSFacts.strictNe_true; lra).
  rewrite E. cbv zeta.
  assert (Eg : JS.gt target w = false) by (apply JSFacts.gt_false; lra).
  rewrite Eg. rewrite JSFacts.sign_neg by lra.
  unfold PHYSICS.deceleration, JS.abs.
  rewrite (Rabs_left target) by lra.
  replace (w + -1 * 5.0 * delta) with (w - 5 * delta) by lra.
  unfold Rmax. destruct (Rle_dec target (w - 5 * delta)) as [H|H].
  - assert (G : JS.gt (Rabs (w - 5 * delta)) (- target) = false).
    { apply JSFacts.gt_false. apply Rabs_le. lra. }
    rewrite G. reflexivity.
  - destruct (JS.gt _ (- target)) eqn:G; [reflexivity|].
    apply JSFacts.gt_false in G. rewrite Rabs_left in G by lra. lra.
Qed.

Lemma ramp_up target delta w (n : nat) :
  0 < target -> 0 <= delta -> - target <= w <= target ->
  Nat.iter n (stepVelocity target delta) w
  = Rmin target (w + 4 * delta * INR n).
Proof.
  intros Ht Hd Hw. induction n as [|n IH].
  - simpl. rewrite Rmult_0_r, Rplus_0_r. rewrite Rmin_right; lra.
  - rewrite Nat.iter_succ, IH. rewrite S_INR.
    pose proof (pos_INR n) as Hn.
    assert (0 <= 4 * delta * INR n) by nra.
    unfold Rmin at 1. destruct (Rle_dec target (w + 4 * delta * INR n)).
    + rewrite stepVelocity_fixed by lra. rewrite Rmin_left; nra.
    + rewrite stepVelocity_up by lra. f_equal. lra.
Qed.

Lemma ramp_down target delta w (n : nat) :
  target < 0 -> 0 <= delta -> target <= w <= - target ->
  Nat.iter n (stepVelocity target delta) w
  = Rmax target (w - 5 * delta * INR n).
Proof.
  intros Ht Hd Hw. induction n as [|n IH].
  - simpl. rewrite Rmult_0_r, Rminus_0_r. rewrite Rmax_right; lra.
  - rewrite Nat.iter_succ, IH. rewrite S_INR.
    pose proof (pos_INR n) as Hn.
    assert (0 <= 5 * delta * INR n) by nra.
    unfold Rmax at 1. destruct (Rle_dec target (w - 5 * delta * INR n)).
    + destruct (Req_dec target (w - 5 * delta * INR n)) as [E|E].
      * rewrite <- E. rewrite stepVelocity_fixed by lra.
        rewrite Rmax_left; nra.
      * rewrite stepVelocity_down by lra. f_equal. lra.
    + rewrite stepVelocity_fixed by lra. rewrite Rmax_left; nra.
Qed.

Lemma held_input_settles target delta v :
  target <> 0 -> 0 < delta ->
  exists N, forall n, (N <= n)%nat ->
    Nat.iter n (stepVelocity target delta) v = target.
Proof.
  intros Ht Hd.
  set (w := stepVelocity target delta v).
  pose proof (stepVelocity_driven target delta v Ht) as Hw. fold w in Hw.
  apply Rabs_le_bounds in Hw.
  destruct (nat_above (2 * Rabs target / delta)) as (K & HK).
  assert (HK' : 2 * Rabs target < delta * INR K).
  { apply Rmult_lt_compat_l with (r := delta) in HK; [|exact Hd].
    replace (delta * (2 * Rabs target / delta)) with (2 * Rabs target)
      in HK by (field; lra).
    exact HK. }
  exists (S K). intros n Hn.
  destruct n as [|n]; [lia|]. rewrite Nat.iter_succ_r. fold w.
  assert (HKn : INR K <= INR n) by (apply le_INR; lia).
  destruct (Rlt_dec 0 target) as [Hpos|Hneg].
  - rewrite Rabs_pos_eq in Hw, HK' by lra.
    rewrite ramp_up by lra. apply Rmin_left. nra.
  - assert (Hn0 : target < 0) by lra.
    rewrite Rabs_left in Hw, HK' by lra.
    rewrite ramp_down by lra. apply Rmax_left. nra.
Qed.

(** X7.  While a drive input is held ([target] is 2.2 or -1.32, here any
    non-zero target) and frames take time, the velocity block reaches
    the target exactly after finitely many frames and stays there: it
    ramps by a fixed amount a frame and snaps on overshoot. *)
Theorem held_input_reaches_target (target delta v : R) :
  target <> 0 -> 0 < delta ->
  exists N, forall n, (N <= n)%nat ->
    Nat.iter n (stepVelocity target delta) v = target.
Proof. apply held_input_settles. Qed.

(** Full speed ahead from rest at 16 ms a frame. *)
Lemma held_input_reaches_target_witness :
  exists N, forall n, (N <= n)%nat ->
    Nat.iter n (stepVelocity PHYSICS.maxSpeed 0.016) 0 = PHYSICS.maxSpeed.
Proof.
  apply (held_input_reaches_target PHYSICS.maxSpeed 0.016 0).
  - unfold PHYSICS.maxSpeed. lra.
  - lra.
Defined.

(* ================================================================== *)
(** * Further properties: the dust pool *)
(* ================================================================== *)

Lemma firstn_length_app {A} (l1 l2 : list A) :
  firstn (List.length l1) (l1 ++ l2) = l1.
Proof. induction l1 as [|a l1 IH]; simpl; [now destruct l2|now rewrite IH]. Qed.

Lemma skipn_length_app {A} (l1 l2 : list A) :
  skipn (List.length l1) (l1 ++ l2) = l2.
Proof. induction l1 as [|a l1 IH]; simpl; [reflexivity|exact IH]. Qed.

Lemma firstn_S_app {A} (l1 : list A) (x : A) (l2 : list A) :
  firstn (S (List.length l1)) (l1 ++ x :: l2) = l1 ++ [x].
Proof.
  induction l1 as [|a l1 IH]; cbn [List.length app firstn].
  - reflexivity.
  - f_equal. exact IH.
Qed.

Lemma skipn_S_app {A} (l1 : list A) (x : A) (l2 : list A) :
  skipn (S (List.length l1)) (l1 ++ x :: l2) = l2.
Proof.
  induction l1 as [|a l1 IH]; cbn [List.length app skipn].
  - reflexivity.
  - exact IH.
Qed.

(** After the turns [i = n - 1] down to [i = 0] the first [n] entries
    are the aged survivors, in order, and the rest is untouched. *)
Lemma ageLoop_prefix delta n :
  forall l, (n <= List.length l)%nat ->
  ageLoop delta n l
  = filter survives (map (ageParticle delta) (firstn n l)) ++ skipn n l.
Proof.
  induction n as [|n IH]; intros l Hn.
  - reflexivity.
  - cbn [ageLoop]. destruct (nth_error l n) as [p|] eqn:E.
    2:{ apply nth_error_None in E. lia. }
    apply nth_error_split in E. destruct E as (l1 & l2 & -> & Hlen).
    subst n. rewrite firstn_S_app, skipn_S_app.
    rewrite map_app, filter_app. cbn [map filter].
    unfold splice1, setAt.
    rewrite firstn_length_app, skipn_S_app.
    unfold survives at 2.
    destruct (JS.ge _ _); cbn [negb].
    + rewrite IH by (rewrite length_app; lia).
      rewrite firstn_length_app, skipn_length_app.
      rewrite app_nil_r. reflexivity.
    + rewrite IH by (rewrite length_app; lia).
      rewrite firstn_length_app, skipn_length_app.
      rewrite <- app_assoc. reflexivity.
Qed.

Lemma ageLoop_as_filter delta l :
  ageLoop delta (List.length l) l
  = filter survives (map (ageParticle delta) l).
Proof.
  rewrite ageLoop_prefix by lia.
  rewrite firstn_all, skipn_all, app_nil_r. reflexivity.
Qed.

(** X8.  The backward loop with [splice] is a filter: run
    over the whole array it leaves exactly the aged particles whose age
    is still below their lifetime, in their old order; none is skipped
    and none is aged twice. *)
Theorem ageing_loop_is_filter (delta : R) (dustParticles : list DustParticle.t) :
  ageLoop delta (List.length dustParticles) dustParticles
  = filter survives (map (ageParticle delta) dustParticles)
  /\ Forall (fun p => DustParticle.life p < DustParticle.maxLife p)
       (ageLoop delta (List.length dustParticles) dustParticles).
Proof.
  split; [apply ageLoop_as_filter|].
  rewrite ageLoop_as_filter. apply Forall_forall. intros p Hp.
  apply filter_In in Hp. destruct Hp as (_ & Hs).
  unfold survives in Hs. apply negb_true_iff in Hs.
  apply JSFacts.ge_false in Hs. exact Hs.
Qed.






Lemma half_draws_unit : unitDraws (Random.mk (fun _ => 0.5) 0).
Proof. intros i. cbn [Random.draws]. lra. Qed.


(* ================================================================== *)
(** * Further properties: the idle animation *)
(* ================================================================== *)

Lemma pickLook_glance currentTime idle g :
  unitDraws g -> glanceWithinLimits idle ->
  glanceWithinLimits (fst (pickLook currentTime idle g))
  /\ Random.draws (snd (pickLook currentTime idle g)) = Random.draws g.
Proof.
  intros Hg (Ht & Hc). unfold pickLook.
  destruct (JS.gt currentTime _); cbn [Random.next fst snd Random.draws].
  - split; [|reflexivity]. unfold glanceWithinLimits.
    cbn [IdleState.headLookTarget IdleState.headLookCurrent].
    split; [|exact Hc]. destruct (Hg (Random.cursor g)).
    apply Rabs_le. lra.
  - split; [split; assumption|reflexivity].
Qed.

Lemma easeLook_glance delta idle :
  0 <= delta <= 0.1 -> glanceWithinLimits idle ->
  glanceWithinLimits (easeLook delta idle).
Proof.
  intros Hd (Ht & Hc). apply Rabs_le_bounds in Ht.
  apply Rabs_le_bounds in Hc. unfold easeLook, glanceWithinLimits.
  destruct (IdleState.isLooking idle);
    cbn [IdleState.headLookTarget IdleState.headLookCurrent];
    (split; [apply Rabs_le; lra|]); apply Rabs_le; nra.
Qed.

Lemma updateIdleAnimations_glance state actions currentTime delta idle g :
  0 <= delta <= 0.1 -> unitDraws g -> glanceWithinLimits idle ->
  let '(idle', g', _) :=
    updateIdleAnimations state actions currentTime delta idle g in
  glanceWithinLimits idle' /\ Random.draws g' = Random.draws g.
Proof.
  intros Hd Hg Hi. unfold updateIdleAnimations. cbv zeta.
  destruct (negb (idleIsMoving state)
            && negb (Actions.headLeft actions || Actions.headRight actions)).
  - destruct (pickLook_glance currentTime idle g Hg Hi) as (Hp & Hdr).
    destruct (pickLook currentTime idle g) as [idle1 g1].
    cbn [fst snd] in Hp, Hdr.
    pose proof (easeLook_glance delta idle1 Hd Hp) as He.
    split; [exact He|exact Hdr].
  - split; [exact Hi|reflexivity].
Qed.

(** X10.  With a frame time in [0, 0.1] and draws in [0, 1) the idle
    glance never exceeds half a radian either way, so the yaw the call
    writes to the head stays within 1.7 rad for a head within its own
    limit; the breathing moves the body by at most 3 mm and the
    attention tilt is at most 0.01 rad. *)
Theorem idle_glance_bounded
    (state : RobotState.t) (actions : Actions.t) (currentTime delta : R)
    (idle : IdleState.t) (g : Random.t) :
  0 <= delta <= 0.1 -> unitDraws g -> glanceWithinLimits idle ->
  withinLimits state ->
  let '(idle', _, pose) :=
    updateIdleAnimations state actions currentTime delta idle g in
  glanceWithinLimits idle'
  /\ (forall y, IdlePose.headGroupRotationY pose = Some y -> Rabs y <= 1.7)
  /\ Rabs (IdlePose.bodyPositionY pose
           - (0.8 + RobotState.suspensionOffset state)) <= 0.003
  /\ (forall x, IdlePose.headGroupRotationX pose = Some x ->
                Rabs x <= 0.01).
Proof.
  intros Hd Hg Hi (_ & _ & Hh).
  unfold PHYSICS.headMaxRotation in Hh. apply Rabs_le_bounds in Hh.
  pose proof (updateIdleAnimations_glance state actions currentTime delta
                idle g Hd Hg Hi) as Hgl.
  unfold updateIdleAnimations in *. cbv zeta in *.
  destruct (negb (idleIsMoving state)
            && negb (Actions.headLeft actions || Actions.headRight actions)).
  - destruct (pickLook currentTime idle g) as [idle1 g1].
    destruct Hgl as (Hgl & _). split; [exact Hgl|].
    cbn [IdlePose.headGroupRotationY IdlePose.bodyPositionY
         IdlePose.headGroupRotationX].
    split; [|split].
    + intros y Ey. injection Ey as <-.
      destruct Hgl as (_ & Hc). apply Rabs_le_bounds in Hc.
      cbn [IdleState.headLookCurrent] in *. apply Rabs_le. lra.
    + pose proof (SIN_bound
                    (IdleState.breathPhase (easeLook delta idle1)
                     + delta * 1.5)).
      apply Rabs_le. lra.
    + intros x Ex. destruct (negb (idleIsMoving state)); [|discriminate Ex].
      injection Ex as <-.
      pose proof (SIN_bound
                    (IdleState.attentionPhase (easeLook delta idle1)
                     + delta * 0.8)).
      apply Rabs_le. lra.
  - destruct Hgl as (Hgl & _). split; [exact Hgl|].
    cbn [IdlePose.headGroupRotationY IdlePose.bodyPositionY
         IdlePose.headGroupRotationX].
    split; [|split].
    + intros y Ey. discriminate Ey.
    + pose proof (SIN_bound (IdleState.breathPhase idle + delta * 1.5)).
      apply Rabs_le. lra.
    + intros x Ex. destruct (negb (idleIsMoving state)); [|discriminate Ex].
      injection Ex as <-.
      pose proof (SIN_bound
                    (IdleState.attentionPhase idle + delta * 0.8)).
      apply Rabs_le. lra.
Qed.

Lemma initial_glance : glanceWithinLimits IdleState.initial.
Proof.
  unfold glanceWithinLimits, IdleState.initial; simpl.
  rewrite Rabs_R0. lra.
Qed.

(** The robot at rest four seconds in, when the first glance is due. *)
Lemma idle_glance_bounded_witness :
  let '(idle', _, pose) :=
    updateIdleAnimations RobotState.initial Actions.none 4000 0.016
      IdleState.initial (Random.mk (fun _ => 0.5) 0) in
  glanceWithinLimits idle'
  /\ (forall y, IdlePose.headGroupRotationY pose = Some y -> Rabs y <= 1.7)
  /\ Rabs (IdlePose.bodyPositionY pose
           - (0.8 + RobotState.suspensionOffset RobotState.initial))
     <= 0.003
  /\ (forall x, IdlePose.headGroupRotationX pose = Some x ->
                Rabs x <= 0.01).
Proof.
  apply (idle_glance_bounded RobotState.initial Actions.none 4000 0.016
           IdleState.initial (Random.mk (fun _ => 0.5) 0)).
  - lra.
  - exact half_draws_unit.
  - exact initial_glance.
  - apply initial_within_limits.
Defined.

(** The idle test and the telemetry label use the same thresholds. *)
Lemma idleIsMoving_label state :
  idleIsMoving state = false <-> snd (speedReport state) = "Idle"%string.
Proof.
  unfold idleIsMoving, speedReport. cbn [snd].
  destruct (JS.gt (JS.abs (RobotState.velocity state)) 0.1),
           (JS.gt (JS.abs (RobotState.angularVelocity state)) 0.3),
           (JS.lt (RobotState.velocity state) (-0.1));
    cbn [andb orb]; split; intros H; try reflexivity; discriminate H.
Qed.

(** X11.  The idle glance runs exactly when the telemetry label is
    "Idle" and neither head key is held.  Otherwise the call draws no
    random number, leaves the glance state as it was and does not write
    the head yaw; and the attention tilt is written exactly when the
    label is "Idle". *)
Theorem idle_glance_yields
    (state : RobotState.t) (actions : Actions.t) (currentTime delta : R)
    (idle : IdleState.t) (g : Random.t) :
  let '(idle', g', pose) :=
    updateIdleAnimations state actions currentTime delta idle g in
  let busy :=
    snd (speedReport state) <> "Idle"%string
    \/ Actions.headLeft actions = true \/ Actions.headRight actions = true in
  (busy <-> IdlePose.headGroupRotationY pose = None)
  /\ (busy ->
      g' = g
      /\ IdleState.headLookTarget idle' = IdleState.headLookTarget idle
      /\ IdleState.headLookCurrent idle' = IdleState.headLookCurrent idle
      /\ IdleState.nextLookTime idle' = IdleState.nextLookTime idle
      /\ IdleState.isLooking idle' = IdleState.isLooking idle)
  /\ (snd (speedReport state) = "Idle"%string
      <-> IdlePose.headGroupRotationX pose <> None).
Proof.
  unfold updateIdleAnimations. cbv zeta.
  pose proof (idleIsMoving_label state) as Hlab.
  assert (Hbusy : (snd (speedReport state) <> "Idle"%string
                   \/ Actions.headLeft actions = true
                   \/ Actions.headRight actions = true)
                  <-> negb (idleIsMoving state)
                      && negb (Actions.headLeft actions
                               || Actions.headRight actions) = false).
  { destruct (idleIsMoving state), (Actions.headLeft actions),
             (Actions.headRight actions); cbn [negb andb orb];
      split; intros H; try reflexivity; try discriminate H; auto.
    - left. intros E. apply Hlab in E. discriminate E.
    - exfalso. destruct H as [H|[H|H]]; try discriminate H.
      apply H. apply Hlab. reflexivity. }
  destruct (negb (idleIsMoving state)
            && negb (Actions.headLeft actions || Actions.headRight actions))
    eqn:Egl.
  - destruct (pickLook currentTime idle g) as [idle1 g1].
    cbn [IdlePose.headGroupRotationY IdlePose.headGroupRotationX].
    split; [|split].
    + split; [|intros H; discriminate H].
      intros H. apply Hbusy in H. discriminate H.
    + intros H. apply Hbusy in H. discriminate H.
    + apply andb_true_iff in Egl. destruct Egl as (Em & _).
      rewrite Em. apply negb_true_iff in Em.
      split; [intros _; discriminate|intros _; apply Hlab; exact Em].
  - cbn [IdlePose.headGroupRotationY IdlePose.headGroupRotationX
         IdleState.headLookTarget IdleState.headLookCurrent
         IdleState.nextLookTime IdleState.isLooking].
    split; [|split].
    + split; [intros _; reflexivity|intros _; apply Hbusy; reflexivity].
    + intros _. repeat split; reflexivity.
    + destruct (idleIsMoving state); cbn [negb].
      * split; [intros H; apply Hlab in H; discriminate H
               |intros H; exfalso; apply H; reflexivity].
      * split; [intros _; discriminate|intros _; apply Hlab; reflexivity].
Qed.

(* ================================================================== *)
(** * Further properties: a run of [animate] *)
(* ================================================================== *)







(* ================================================================== *)
(** * Further properties: the camera captures *)
(* ================================================================== *)

(** X13.  The copy into the image mirrors the rows of the read-back
    buffer: channel [k] of pixel [(x, y)] of the image is channel [k]
    of pixel [(x, 359 - y)] of the buffer, whatever the image held
    before; copying the result once more restores the buffer's byte;
    and no byte past the 640 by 360 image is written. *)
Theorem flip_copy_mirrors_rows (src dst : Pixels) (y x k : nat) :
  (y < 360)%nat -> (x < 640)%nat -> (k < 4)%nat ->
  copyFlipped src dst (channelIndex y x k)
  = src (channelIndex (359 - y) x k)
  /\ (forall dst', copyFlipped (copyFlipped src dst) dst'
                     (channelIndex y x k)
                   = src (channelIndex y x k))
  /\ (forall j, (360 * 640 * 4 <= j)%nat -> copyFlipped src dst j = dst j).
Proof.
  intros Hy Hx Hk. unfold channelIndex. split; [|split].
  - apply copyFlipped_pixel; assumption.
  - intros dst'. rewrite copyFlipped_pixel by assumption.
    rewrite copyFlipped_pixel by (try assumption; lia).
    f_equal. lia.
  - intros j Hj. apply copyFlipped_beyond. exact Hj.
Qed.

(** The red channel of the top left pixel of a gradient. *)
Lemma flip_copy_mirrors_rows_witness :
  copyFlipped (fun j => Z.of_nat j) (fun _ => 0%Z) (channelIndex 0 0 0)
  = Z.of_nat (channelIndex (359 - 0) 0 0)
  /\ (forall dst',
        copyFlipped (copyFlipped (fun j => Z.of_nat j) (fun _ => 0%Z)) dst'
          (channelIndex 0 0 0)
        = Z.of_nat (channelIndex 0 0 0))
  /\ (forall j, (360 * 640 * 4 <= j)%nat ->
        copyFlipped (fun j => Z.of_nat j) (fun _ => 0%Z) j = 0%Z).
Proof.
  apply (flip_copy_mirrors_rows (fun j => Z.of_nat j) (fun _ => 0%Z)
           0 0 0); lia.
Defined.

Section CanvasOverwrite.

Import Canvas.

Lemma putImageData_full data c :
  width c <= 640 -> height c <= 360 ->
  putImageData data 640 360 0 0 c = paint (fun _ => [Image data]) c.
Proof.
  intros Hw Hh. unfold putImageData.
  assert (E0 : JS.ge 0 0 = true) by (apply JSFacts.ge_true; lra).
  assert (E1 : JS.ge (0 + 640) (width c) = true)
    by (apply JSFacts.ge_true; lra).
  assert (E2 : JS.ge (0 + 360) (height c) = true)
    by (apply JSFacts.ge_true; lra).
  assert (E3 : JS.strictEq 0 0 = true)
    by (apply JSFacts.strictEq_true; reflexivity).
  rewrite E0, E1, E2, E3. reflexivity.
Qed.

(** A fill in a colour that is not known to be opaque adds a mark. *)
Lemma fillRect_translucent css x y w h c :
  fillStyle (state c) = Color css -> opaqueCss css = false ->
  fillRect x y w h c
  = paint (fun r => r ++ [FilledRect x y w h (Color css)
                            (compositing (state c))]) c.
Proof.
  intros Hf Ho. unfold fillRect, replacesAll. rewrite Hf, Ho.
  destruct (transform (state c)); reflexivity.
Qed.

Lemma fillRect_gradient x0 y0 r0 x1 y1 r1 stops x y w h c :
  fillStyle (state c) = RadialGradient x0 y0 r0 x1 y1 r1 stops ->
  fillRect x y w h c
  = paint (fun r => r ++ [FilledRect x y w h
                            (RadialGradient x0 y0 r0 x1 y1 r1 stops)
                            (compositing (state c))]) c.
Proof.
  intros Hf. unfold fillRect, replacesAll. rewrite Hf. reflexivity.
Qed.

Lemma scanlines_marks css step count c :
  fillStyle (state c) = Color css -> opaqueCss css = false ->
  scanlines step count c
  = paint (fun r =>
             r ++ map (fun i => FilledRect 0 (INR (step * i)) 640 1
                                  (Color css) (compositing (state c)))
                    (seq 0 count)) c.
Proof.
  intros Hf Ho. unfold scanlines. induction count as [|n IH].
  - cbn [seq fold_left map]. unfold paint. rewrite app_nil_r.
    destruct c; reflexivity.
  - rewrite seq_S, fold_left_app, map_app. cbn [fold_left map plus].
    rewrite IH. rewrite (fillRect_translucent css) by assumption.
    unfold paint. cbn [width height state saved path raster].
    rewrite <- app_assoc. reflexivity.
Qed.

Lemma postProcessPOV_length image c :
  width c <= 640 -> height c <= 360 ->
  List.length (raster (postProcessPOV image c)) = 123%nat
  /\ hd_error (raster (postProcessPOV image c)) = Some (Image image).
Proof.
  intros Hw Hh. unfold postProcessPOV.
  rewrite putImageData_full by assumption.
  match goal with
  | |- context [fillRect 0 0 640 360 (setFillStyle (Color ?css) ?c0)] =>
      rewrite (fillRect_translucent css 0 0 640 360
                 (setFillStyle (Color css) c0)) by reflexivity
  end.
  rewrite (scanlines_marks "rgba(0, 0, 0, 0.015)") by reflexivity.
  erewrite fillRect_gradient by reflexivity.
  cbn [paint raster setFillStyle setGlobalCompositeOperation withState].
  rewrite !length_app, length_map, length_seq.
  split; reflexivity.
Qed.

Lemma postProcessSecurity_length image c :
  width c <= 640 -> height c <= 360 ->
  List.length (raster (postProcessSecurity image c)) = 183%nat
  /\ hd_error (raster (postProcessSecurity image c)) = Some (Image image).
Proof.
  intros Hw Hh. unfold postProcessSecurity.
  rewrite putImageData_full by assumption.
  match goal with
  | |- context [fillRect 0 0 640 360 (setFillStyle (Color ?css) ?c0)] =>
      rewrite (fillRect_translucent css 0 0 640 360
                 (setFillStyle (Color css) c0)) by reflexivity
  end.
  rewrite (scanlines_marks "rgba(0, 0, 0, 0.02)") by reflexivity.
  erewrite fillRect_gradient by reflexivity.
  cbn [paint raster setFillStyle setGlobalCompositeOperation withState].
  rewrite !length_app, length_map, length_seq.
  split; reflexivity.
Qed.

Lemma postProcess_forgets image c marks :
  width c <= 640 -> height c <= 360 ->
  postProcessPOV image (paint (fun _ => marks) c) = postProcessPOV image c
  /\ postProcessSecurity image (paint (fun _ => marks) c)
     = postProcessSecurity image c.
Proof.
  intros Hw Hh. unfold postProcessPOV, postProcessSecurity.
  rewrite !putImageData_full by assumption. split; reflexivity.
Qed.

End CanvasOverwrite.

(** X14.  On a canvas no larger than the 640 by 360 image, each capture
    replaces what the canvas showed: the outcome does not depend on the
    marks that were there, the image is the first mark, and the marks
    number 123 for the POV view (image, brightening, 120 scanlines,
    vignette) and 183 for the security view, so nothing accumulates
    from capture to capture. *)
Theorem capture_replaces_canvas
    (image : Pixels) (c : Canvas.Ctx) (marks : list Canvas.Mark) :
  Canvas.width c <= 640 -> Canvas.height c <= 360 ->
  postProcessPOV image (Canvas.paint (fun _ => marks) c)
  = postProcessPOV image c
  /\ postProcessSecurity image (Canvas.paint (fun _ => marks) c)
     = postProcessSecurity image c
  /\ List.length (Canvas.raster (postProcessPOV image c)) = 123%nat
  /\ List.length (Canvas.raster (postProcessSecurity image c)) = 183%nat
  /\ hd_error (Canvas.raster (postProcessPOV image c))
     = Some (Canvas.Image image)
  /\ hd_error (Canvas.raster (postProcessSecurity image c))
     = Some (Canvas.Image image).
Proof.
  intros Hw Hh.
  destruct (postProcess_forgets image c marks Hw Hh) as (E1 & E2).
  destruct (postProcessPOV_length image c Hw Hh) as (L1 & H1).
  destruct (postProcessSecurity_length image c Hw Hh) as (L2 & H2).
  split; [exact E1|]. split; [exact E2|]. split; [exact L1|].
  split; [exact L2|]. split; [exact H1|exact H2].
Qed.

(** The 640 by 360 canvas of the page, showing an earlier frame. *)
Lemma capture_replaces_canvas_witness :
  let image : Pixels := fun _ => 255%Z in
  let c := Canvas.fresh 640 360 in
  let marks := [Canvas.Image (fun _ => 0%Z)] in
  postProcessPOV image (Canvas.paint (fun _ => marks) c)
  = postProcessPOV image c
  /\ postProcessSecurity image (Canvas.paint (fun _ => marks) c)
     = postProcessSecurity image c
  /\ List.length (Canvas.raster (postProcessPOV image c)) = 123%nat
  /\ List.length (Canvas.raster (postProcessSecurity image c)) = 183%nat
  /\ hd_error (Canvas.raster (postProcessPOV image c))
     = Some (Canvas.Image image)
  /\ hd_error (Canvas.raster (postProcessSecurity image c))
     = Some (Canvas.Image image).
Proof.
  apply (capture_replaces_canvas (fun _ => 255%Z) (Canvas.fresh 640 360)
           [Canvas.Image (fun _ => 0%Z)]).
  - cbn [Canvas.width Canvas.fresh]. lra.
  - cbn [Canvas.height Canvas.fresh]. lra.
Defined.

(* ------------------------------------------------------------------ *)
(** ** Where the security camera's mount points *)

Lemma atan_polar (x y : R) :
  x <> 0 ->
  JS.sqrt (y * y + x * x) * cos (atan (y / x)) = Rabs x
  /\ JS.sqrt (y * y + x * x) * sin (atan (y / x)) = Rabs x * (y / x).
Proof.
  intros Hx. set (t := y / x). set (a := atan t).
  set (d := JS.sqrt (y * y + x * x)).
  assert (Hc : 0 < cos a).
  { destruct (atan_bound t) as (H1 & H2). fold a in H1, H2.
    apply cos_gt_0; lra. }
  assert (Hs : sin a = t * cos a).
  { pose proof (tan_atan t) as Ht. fold a in Ht. unfold tan in Ht.
    rewrite <- Ht at 1. field. lra. }
  pose proof (sin2_cos2 a) as Hsc. unfold Rsqr in Hsc.
  assert (Hd0 : 0 <= d) by (apply sqrt_pos).
  assert (Hdd : d * d = y * y + x * x).
  { unfold d, JS.sqrt. apply sqrt_sqrt. nra. }
  assert (Hy : y = t * x) by (unfold t; field; exact Hx).
  assert (Hdc : d * cos a = Rabs x).
  { assert (Hsq : (d * cos a) * (d * cos a) = Rabs x * Rabs x).
    { replace (Rabs x * Rabs x) with (x * x)
        by (unfold Rabs; destruct (Rcase_abs x); ring).
      replace (d * cos a * (d * cos a))
        with ((d * d) * (cos a * cos a)) by ring.
      rewrite Hdd, Hy.
      replace ((t * x * (t * x) + x * x) * (cos a * cos a))
        with (x * x * ((t * cos a) * (t * cos a) + cos a * cos a)) by ring.
      rewrite <- Hs. rewrite Hsc. ring. }
    pose proof (Rabs_pos x). assert (0 <= d * cos a) by nra. nra. }
  split; [exact Hdc|]. rewrite Hs.
  replace (d * (t * cos a)) with (d * cos a * t) by ring.
  rewrite Hdc. reflexivity.
Qed.

(** [Math.atan2(y, x)] is the angle of the point [(x, y)]: the point
    lies at its distance from the origin in the direction of the
    angle, and the angle is in (-PI, PI]. *)
Lemma atan2_polar (y x : R) :
  let theta := JSMath.atan2 y x in
  let d := JS.sqrt (y * y + x * x) in
  d * sin theta = y /\ d * cos theta = x /\ - PI < theta <= PI.
Proof.
  cbv zeta. unfold JSMath.atan2. pose proof PI_RGT_0 as Hpi.
  destruct (Rlt_dec 0 x) as [Hx|Hx].
  - destruct (atan_polar x y ltac:(lra)) as (Hc & Hs).
    rewrite Rabs_pos_eq in Hc, Hs by lra.
    destruct (atan_bound (y / x)).
    split; [rewrite Hs; field; lra|]. split; [exact Hc|lra].
  - destruct (Rlt_dec x 0) as [Hx'|Hx'].
    + destruct (atan_polar x y ltac:(lra)) as (Hc & Hs).
      rewrite Rabs_left in Hc, Hs by lra.
      destruct (atan_bound (y / x)) as (Hb1 & Hb2).
      destruct (Rle_dec 0 y) as [Hy|Hy].
      * rewrite neg_sin, neg_cos.
        split; [|split].
        -- replace (JS.sqrt (y * y + x * x) * - sin (atan (y / x)))
             with (- (JS.sqrt (y * y + x * x) * sin (atan (y / x))))
             by ring.
           rewrite Hs. field. lra.
        -- replace (JS.sqrt (y * y + x * x) * - cos (atan (y / x)))
             with (- (JS.sqrt (y * y + x * x) * cos (atan (y / x))))
             by ring.
           rewrite Hc. ring.
        -- assert (Ht : y / x <= 0).
           { apply Rmult_le_reg_r with (r := - x); [lra|].
             replace (y / x * - x) with (- y) by (field; lra). lra. }
           assert (atan (y / x) <= 0).
           { destruct (Req_dec (y / x) 0) as [E|E].
             - rewrite E, atan_0. lra.
             - pose proof (atan_increasing (y / x) 0 ltac:(lra)) as Hi.
               rewrite atan_0 in Hi. lra. }
           lra.
      * rewrite sin_minus, cos_minus, cos_PI, sin_PI.
        split; [|split].
        -- replace (JS.sqrt (y * y + x * x)
                    * (sin (atan (y / x)) * -1 - cos (atan (y / x)) * 0))
             with (- (JS.sqrt (y * y + x * x) * sin (atan (y / x))))
             by ring.
           rewrite Hs. field. lra.
        -- replace (JS.sqrt (y * y + x * x)
                    * (cos (atan (y / x)) * -1 + sin (atan (y / x)) * 0))
             with (- (JS.sqrt (y * y + x * x) * cos (atan (y / x))))
             by ring.
           rewrite Hc. ring.
        -- assert (Ht : 0 < y / x).
           { apply Rmult_lt_reg_r with (r := - x); [lra|].
             replace (y / x * - x) with (- y) by (field; lra). lra. }
           pose proof (atan_increasing 0 (y / x) Ht) as Hi.
           rewrite atan_0 in Hi. lra.
    + assert (E : x = 0) by lra. subst x.
      replace (y * y + 0 * 0) with (y * y) by ring.
      destruct (Rlt_dec 0 y) as [Hy|Hy].
      * unfold JS.sqrt. rewrite sqrt_square by lra.
        rewrite sin_PI2, cos_PI2. split; [ring|]. split; [ring|lra].
      * destruct (Rlt_dec y 0) as [Hy'|Hy'].
        -- replace (- PI / 2) with (- (PI / 2)) by field.
           rewrite sin_neg, cos_neg, sin_PI2, cos_PI2.
           replace (y * y) with ((- y) * (- y)) by ring.
           unfold JS.sqrt. rewrite sqrt_square by lra.
           split; [ring|]. split; [ring|lra].
        -- assert (E : y = 0) by lra. subst y.
           rewrite sin_0, cos_0. replace (0 * 0) with 0 by ring.
           unfold JS.sqrt. rewrite sqrt_0. split; [ring|]. split; [ring|lra].
Qed.

Section CaptureScene.

Variable renderScene : World.t -> Camera.t -> Pixels.

Lemma renderSecurityCamera_yaw w :
  available (World.sec w) ->
  World.secCamMountRotationY (fst (renderSecurityCamera renderScene w))
  = JSMath.atan2
      (Vector3.x (World.robotPosition w)
       - Vector3.x (World.secCamMountPosition w))
      (Vector3.z (World.robotPosition w)
       - Vector3.z (World.secCamMountPosition w)).
Proof.
  intros (Hc & Hi). unfold renderSecurityCamera.
  destruct (Rig.ctx (World.sec w)) as [c|] eqn:Ec; [|contradiction].
  destruct (Rig.imageData (World.sec w)) as [d|] eqn:Ei; [|contradiction].
  unfold captureSecurity.
  cbn [World.sec World.setSec World.setRenderTarget World.setMountRotationY
       World.robotPosition World.secCamMountPosition].
  rewrite Ec, Ei. reflexivity.
Qed.

(** X15.  When the security view has its surface, the capture turns the
    camera mount to face the robot: with [d] the ground distance from
    the mount to the robot and [theta] the yaw written, the robot is at
    [d * (sin theta, cos theta)] from the mount, and the yaw is in
    (-PI, PI]. *)
Theorem security_mount_faces_robot (w : World.t) :
  available (World.sec w) ->
  let dx := Vector3.x (World.robotPosition w)
            - Vector3.x (World.secCamMountPosition w) in
  let dz := Vector3.z (World.robotPosition w)
            - Vector3.z (World.secCamMountPosition w) in
  let d := JS.sqrt (dx * dx + dz * dz) in
  let theta :=
    World.secCamMountRotationY (fst (renderSecurityCamera renderScene w)) in
  d * sin theta = dx /\ d * cos theta = dz /\ - PI < theta <= PI.
Proof.
  intros Ha. cbv zeta. rewrite renderSecurityCamera_yaw by exact Ha.
  apply atan2_polar.
Qed.

(** What both captures leave alone, on every path. *)
Lemma renderRobotPOV_scene w :
  let w' := fst (renderRobotPOV renderScene w) in
  World.robotState w' = World.robotState w
  /\ World.robotPosition w' = World.robotPosition w
  /\ World.headWorldPosition w' = World.headWorldPosition w
  /\ World.secCamMountPosition w' = World.secCamMountPosition w
  /\ World.sec w' = World.sec w
  /\ (World.robotVisible w = true -> World.robotVisible w' = true)
  /\ (World.boundTarget w = Screen -> World.boundTarget w' = Screen).
Proof.
  cbv zeta. unfold renderRobotPOV.
  destruct (Rig.ctx (World.pov w)) as [c|] eqn:Ec;
    [|repeat split; auto].
  destruct (Rig.imageData (World.pov w)) as [d|] eqn:Ei;
    [|repeat split; auto].
  unfold capturePOV. rewrite Ec, Ei. repeat split; reflexivity.
Qed.

Lemma renderSecurityCamera_scene w :
  let w' := fst (renderSecurityCamera renderScene w) in
  World.robotState w' = World.robotState w
  /\ World.robotPosition w' = World.robotPosition w
  /\ World.headWorldPosition w' = World.headWorldPosition w
  /\ World.secCamMountPosition w' = World.secCamMountPosition w
  /\ World.pov w' = World.pov w
  /\ World.robotVisible w' = World.robotVisible w
  /\ (World.boundTarget w = Screen -> World.boundTarget w' = Screen).
Proof.
  cbv zeta. unfold renderSecurityCamera.
  destruct (Rig.ctx (World.sec w)) as [c|] eqn:Ec;
    [|repeat split; auto].
  destruct (Rig.imageData (World.sec w)) as [d|] eqn:Ei;
    [|repeat split; auto].
  unfold captureSecurity.
  cbn [World.sec World.setSec World.setRenderTarget World.setMountRotationY].
  rewrite Ec, Ei. repeat split; reflexivity.
Qed.

(** The POV frame is rendered with the robot hidden and the POV target
    bound. *)
Lemma renderRobotPOV_hidden w :
  available (World.pov w) ->
  exists hidden,
    World.robotVisible hidden = false
    /\ World.boundTarget hidden = RobotCameraRT
    /\ World.robotState hidden = World.robotState w
    /\ Rig.renderTarget (World.pov (fst (renderRobotPOV renderScene w)))
       = renderScene hidden
           (Rig.camera (World.pov (fst (renderRobotPOV renderScene w)))).
Proof.
  intros (Hc & Hi). unfold renderRobotPOV.
  destruct (Rig.ctx (World.pov w)) as [c|] eqn:Ec; [|contradiction].
  destruct (Rig.imageData (World.pov w)) as [d|] eqn:Ei; [|contradiction].
  unfold capturePOV. rewrite Ec, Ei.
  cbn [fst World.pov World.setPov Rig.renderTarget Rig.camera].
  eexists. split; [|split; [|split; [|reflexivity]]]; reflexivity.
Qed.

End CaptureScene.

Lemma mountedWorld_available :
  available (World.pov mountedWorld) /\ available (World.sec mountedWorld).
Proof. repeat split; discriminate. Qed.

(** The robot at the origin, seen from the mount at (7, 1.5, 4). *)
Lemma security_mount_faces_robot_witness :
  let gpu : World.t -> Camera.t -> Pixels := fun _ _ _ => 0%Z in
  let dx := Vector3.x (World.robotPosition mountedWorld)
            - Vector3.x (World.secCamMountPosition mountedWorld) in
  let dz := Vector3.z (World.robotPosition mountedWorld)
            - Vector3.z (World.secCamMountPosition mountedWorld) in
  let d := JS.sqrt (dx * dx + dz * dz) in
  let theta :=
    World.secCamMountRotationY
      (fst (renderSecurityCamera gpu mountedWorld)) in
  d * sin theta = dx /\ d * cos theta = dz /\ - PI < theta <= PI.
Proof.
  intros gpu.
  apply (security_mount_faces_robot gpu mountedWorld).
  apply mountedWorld_available.
Defined.

(** X16.  The capture stage of a frame leaves the scene as it found it:
    robot state and positions are untouched, the robot is visible and
    the screen is the bound render target again afterwards, on every
    path, and the stage returns normally; the POV frame itself is
    rendered with the robot hidden; and the stage runs only when more
    than 50 ms have passed since it last ran. *)
Theorem capture_stage_restores_scene
    (renderScene : World.t -> Camera.t -> Pixels)
    (currentTime lastPovRenderTime : R) (w : World.t) :
  World.robotVisible w = true -> World.boundTarget w = Screen ->
  let '(w', last', outcome) :=
    captureStage renderScene currentTime lastPovRenderTime w in
  World.robotState w' = World.robotState w
  /\ World.robotPosition w' = World.robotPosition w
  /\ World.headWorldPosition w' = World.headWorldPosition w
  /\ World.secCamMountPosition w' = World.secCamMountPosition w
  /\ World.robotVisible w' = true
  /\ World.boundTarget w' = Screen
  /\ outcome = Returned
  /\ (w' = w /\ last' = lastPovRenderTime
      \/ last' = currentTime /\ 50 < currentTime - lastPovRenderTime)
  /\ (available (World.pov w) -> 50 < currentTime - lastPovRenderTime ->
      exists hidden,
        World.robotVisible hidden = false
        /\ World.boundTarget hidden = RobotCameraRT
        /\ Rig.renderTarget (World.pov w')
           = renderScene hidden (Rig.camera (World.pov w'))).
Proof.
  intros Hv Hb. unfold captureStage, POV_RENDER_INTERVAL.
  destruct (JS.gt (currentTime - lastPovRenderTime) 50) eqn:Edue.
  2:{ apply JSFacts.gt_false in Edue.
      repeat split; auto. intros _ H. lra. }
  apply JSFacts.gt_true in Edue.
  pose proof (renderRobotPOV_scene renderScene w) as Hp.
  pose proof (renderRobotPOV_returns renderScene w) as Hpr.
  pose proof (renderRobotPOV_hidden renderScene w) as Hph.
  destruct (renderRobotPOV renderScene w) as [w1 o1].
  cbn [fst snd] in Hp, Hpr, Hph. subst o1.
  pose proof (renderSecurityCamera_scene renderScene w1) as Hs.
  pose proof (renderSecurityCamera_returns renderScene w1) as Hsr.
  destruct (renderSecurityCamera renderScene w1) as [w2 o2].
  cbn [fst snd] in Hs, Hsr. subst o2. cbv zeta in Hp, Hs.
  destruct Hp as (P1 & P2 & P3 & P4 & P5 & P6 & P7).
  destruct Hs as (S1 & S2 & S3 & S4 & S5 & S6 & S7).
  split; [congruence|]. split; [congruence|]. split; [congruence|].
  split; [congruence|]. split; [rewrite S6; auto|]. split; [auto|].
  split; [reflexivity|]. split; [right; split; [reflexivity|exact Edue]|].
  intros Ha _. destruct (Hph Ha) as (hidden & H1 & H2 & _ & H4).
  exists hidden. rewrite S5. auto.
Qed.

(** The mounted world, 60 ms after the last capture. *)
Lemma capture_stage_restores_scene_witness :
  let gpu : World.t -> Camera.t -> Pixels := fun _ _ _ => 0%Z in
  let '(w', last', outcome) := captureStage gpu 60 0 mountedWorld in
  World.robotState w' = World.robotState mountedWorld
  /\ World.robotPosition w' = World.robotPosition mountedWorld
  /\ World.headWorldPosition w' = World.headWorldPosition mountedWorld
  /\ World.secCamMountPosition w' = World.secCamMountPosition mountedWorld
  /\ World.robotVisible w' = true
  /\ World.boundTarget w' = Screen
  /\ outcome = Returned
  /\ (w' = mountedWorld /\ last' = 0
      \/ last' = 60 /\ 50 < 60 - 0)
  /\ (available (World.pov mountedWorld) -> 50 < 60 - 0 ->
      exists hidden,
        World.robotVisible hidden = false
        /\ World.boundTarget hidden = RobotCameraRT
        /\ Rig.renderTarget (World.pov w')
           = gpu hidden (Rig.camera (World.pov w'))).
Proof.
  intros gpu.
  apply (capture_stage_restores_scene gpu 60 0 mountedWorld); reflexivity.
Defined.

(* ================================================================== *)
(** * Further properties: the face renderer *)
(* ================================================================== *)

Section FaceRenderer.

Variable measureText : string -> string -> R.

Import Canvas.

Lemma fillLines_frame w startY lineHeight lines :
  forall i c,
    width (fillLines w startY lineHeight i lines c) = width c
    /\ height (fillLines w startY lineHeight i lines c) = height c
    /\ saved (fillLines w startY lineHeight i lines c) = saved c
    /\ raster (fillLines w startY lineHeight i lines c)
       = raster c
         ++ map (fun e : nat * string =>
                   FilledText (snd e) (w / 2)
                     (startY + INR (fst e) * lineHeight)
                     (fillStyle (state c)) (font (state c))
                     (textAlign (state c)) (textBaseline (state c))
                     (compositing (state c)))
              (combine (seq i (List.length lines)) lines).
Proof.
  induction lines as [|line lines IH]; intros i c;
    cbn [fillLines List.length seq combine map].
  - rewrite app_nil_r. repeat split; reflexivity.
  - destruct (IH (S i) (fillText line (w / 2)
                          (startY + INR i * lineHeight) c))
      as (E1 & E2 & E3 & E4).
    rewrite E1, E2, E3, E4. cbn [fillText paint width height saved raster
                                 state fst snd].
    rewrite <- app_assoc. repeat split; reflexivity.
Qed.

(** One call: the context is handed on in order and the bitmap begins
    with the background. *)
Lemma drawFaceLocal_in_order expr color text time face :
  faceInOrder face ->
  faceInOrder (drawFaceLocal measureText expr color text time face)
  /\ wiped (drawFaceLocal measureText expr color text time face)
  /\ Face.needsUpdate (drawFaceLocal measureText expr color text time face)
     = true.
Proof.
  destruct face as [[w h st sv p r] n]. unfold faceInOrder, wiped.
  cbn [Face.faceCtx state saved width height].
  intros (Hn & Hsv & Hw & Hh).
  unfold drawFaceLocal. cbn [Face.faceCtx width height].
  rewrite background_replaces by assumption.
  destruct st as [f1 s1 sc1 sbl1 lw1 lc1 fo1 ta1 tb1 ga1 go1 tr1].
  destruct Hn as (Ha & Ho & Ht).
  cbn [globalAlpha globalCompositeOperation transform] in *. subst.
  destruct (JSString.truthyOpt text).
  - cbn [Face.faceCtx Face.needsUpdate]. unfold drawText. cbv zeta.
    match goal with
    | |- context [fillLines ?w ?y ?lh ?i ?ls ?c] =>
        destruct (fillLines_frame w y lh ls i c) as (E1 & E2 & E3 & E4)
    end.
    rewrite fillLines_state, E1, E2, E3, E4.
    split; [repeat split; reflexivity|].
    split; [|reflexivity]. eexists. reflexivity.
  - cbn [Face.faceCtx Face.needsUpdate]. unfold drawExpression.
    assert (E1 : JS.ge 1 0 = true) by (apply JSFacts.ge_true; lra).
    assert (E2 : JS.ge 1 1 = true) by (apply JSFacts.ge_true; lra).
    repeat match goal with
           | |- context [String.eqb expr ?k] => destruct (String.eqb expr k)
           end;
      unfold neutral, drawHeart, drawStar;
      lazy beta iota zeta delta
        [fold_left seq loadingDot starPoint setGlobalAlpha withState
         state saved width height raster path
         fillStyle strokeStyle shadowColor shadowBlur lineWidth lineCap
         font textAlign textBaseline compositing
         globalAlpha globalCompositeOperation transform beginPath
         withPath arc ellipse moveTo lineTo quadraticCurveTo
         bezierCurveTo closePath addSeg fill stroke fillText paint
         setLineWidth setFillStyle setStrokeStyle setFont setShadowColor
         setShadowBlur setLineCap save restore translate rotate
         pushXform fillRect replacesAll Nat.eqb app];
      rewrite ?E1, ?E2;
      (split;
       [split; [split; [reflexivity|split; reflexivity]
               |split; [reflexivity|split; reflexivity]]
       |split; [eexists; reflexivity|reflexivity]]).
Qed.

End FaceRenderer.

Lemma drawFaces_in_order measureText frames :
  forall face, faceInOrder face ->
    faceInOrder (drawFaces measureText frames face)
    /\ (frames <> [] ->
        wiped (drawFaces measureText frames face)
        /\ Face.needsUpdate (drawFaces measureText frames face) = true).
Proof.
  unfold drawFaces.
  induction frames as [|f frames IH]; intros face Hf; cbn [fold_left].
  - split; [exact Hf|]. intros H. contradiction.
  - destruct (drawFaceLocal_in_order measureText (FaceFrame.expression f)
                (FaceFrame.faceColor f) (FaceFrame.displayText f)
                (FaceFrame.time f) face Hf) as (H1 & H2 & H3).
    fold (drawFaceFrame measureText face f) in H1, H2, H3.
    destruct (IH _ H1) as (I1 & I2). split; [exact I1|]. intros _.
    destruct frames as [|f' frames']; [|apply I2; discriminate].
    cbn [fold_left]. split; assumption.
Qed.

(** X17.  Over any run of face draws (any expressions, colours, texts
    and times, under any text metrics) from a context in order, the
    LCD context stays in order: full alpha, [source-over] and no
    transform, the stack of saved states empty (every [save] is matched
    by its [restore]), the panel's size unchanged; and after at least
    one draw the bitmap begins with the background fill, so no frame
    paints over the one before, and the texture is flagged for
    upload. *)
Theorem face_draws_keep_context
    (measureText : string -> string -> R) (frames : list FaceFrame.t)
    (face : Face.t) :
  faceInOrder face ->
  faceInOrder (drawFaces measureText frames face)
  /\ (frames <> [] ->
      wiped (drawFaces measureText frames face)
      /\ Face.needsUpdate (drawFaces measureText frames face) = true).
Proof. apply drawFaces_in_order. Qed.

Lemma created_in_order : faceInOrder Face.created.
Proof.
  unfold faceInOrder, Face.created, neutral.
  cbn [Face.faceCtx Canvas.fresh Canvas.state Canvas.saved Canvas.width
       Canvas.height Canvas.defaultState Canvas.globalAlpha
       Canvas.globalCompositeOperation Canvas.transform].
  repeat split; reflexivity.
Qed.

(** The new panel: angry, then loading, then a text over happy. *)
Lemma face_draws_keep_context_witness :
  let frames :=
    [FaceFrame.mk "angry" "#ff4444" None 0;
     FaceFrame.mk "loading" "#ffdd00" None 33;
     FaceFrame.mk "happy" "#00ff88" (Some "Hello there"%string) 66] in
  faceInOrder (drawFaces monospace14 frames Face.created)
  /\ (frames <> [] ->
      wiped (drawFaces monospace14 frames Face.created)
      /\ Face.needsUpdate (drawFaces monospace14 frames Face.created)
         = true).
Proof.
  intros frames.
  apply (face_draws_keep_context monospace14 frames Face.created).
  exact created_in_order.
Defined.

(* ------------------------------------------------------------------ *)
(** ** The word wrap of the text branch *)

Lemma withoutSpaces_app a b :
  withoutSpaces (a ++ b) = (withoutSpaces a ++ withoutSpaces b)%string.
Proof.
  induction a as [|c a IH]; cbn [String.append withoutSpaces].
  - reflexivity.
  - destruct (Ascii.eqb c " "); [exact IH|].
    cbn [String.append]. rewrite IH. reflexivity.
Qed.

Lemma split_nonempty s : JSString.split s <> [].
Proof.
  destruct s as [|c s]; cbn [JSString.split]; [discriminate|].
  destruct (Ascii.eqb c " "); [discriminate|].
  destruct (JSString.split s); discriminate.
Qed.

(** The pieces of a split, put together, are the string without its
    spaces; and no piece holds a space. *)
Lemma split_joinAll s :
  joinAll (JSString.split s) = withoutSpaces s
  /\ Forall (fun word => withoutSpaces word = word) (JSString.split s).
Proof.
  induction s as [|c s (IH1 & IH2)]; cbn [JSString.split withoutSpaces].
  - split; [reflexivity|]. constructor; [reflexivity|constructor].
  - destruct (Ascii.eqb c " ") eqn:Ec.
    + split; [exact IH1|]. constructor; [reflexivity|exact IH2].
    + pose proof (split_nonempty s) as Hne.
      destruct (JSString.split s) as [|h t]; [contradiction|].
      cbn [joinAll fold_right String.append] in *.
      split; [rewrite IH1; reflexivity|].
      inversion IH2 as [|? ? Hh Ht]; subst.
      constructor; [|exact Ht].
      cbn [withoutSpaces]. rewrite Ec, Hh. reflexivity.
Qed.

Lemma joinAll_app l1 l2 :
  joinAll (l1 ++ l2) = (joinAll l1 ++ joinAll l2)%string.
Proof.
  unfold joinAll. induction l1 as [|a l1 IH]; cbn [app fold_right].
  - reflexivity.
  - rewrite IH. 
    generalize (fold_right String.append ""%string l1) as x.
    generalize (fold_right String.append ""%string l2) as y.
    intros y x. induction a as [|c a IHa]; cbn [String.append].
    + reflexivity.
    + rewrite IHa. reflexivity.
Qed.

Lemma string_append_assoc (a b c : string) :
  ((a ++ b) ++ c)%string = (a ++ (b ++ c))%string.
Proof.
  induction a as [|x a IH]; cbn [String.append];
    [reflexivity|rewrite IH; reflexivity].
Qed.

Lemma append_empty_r s : (s ++ "")%string = s.
Proof.
  induction s as [|c s IH]; cbn [String.append];
    [reflexivity|rewrite IH; reflexivity].
Qed.

Section WordWrap.

Variable measureText : string -> string -> R.

Lemma wrapStep_chars c w st word :
  withoutSpaces word = word ->
  let st' := wrapStep measureText c w st word in
  withoutSpaces (joinAll (fst st' ++ [snd st']))
  = (withoutSpaces (joinAll (fst st ++ [snd st])) ++ word)%string.
Proof.
  intros Hw. destruct st as [lines current]. unfold wrapStep.
  destruct (JS.gt _ _); cbn [fst snd].
  - rewrite !joinAll_app, !withoutSpaces_app.
    cbn [joinAll fold_right]. rewrite !append_empty_r, Hw.
    rewrite <- ?string_append_assoc. reflexivity.
  - rewrite !joinAll_app, !withoutSpaces_app.
    cbn [joinAll fold_right]. rewrite !append_empty_r.
    rewrite !withoutSpaces_app, Hw.
    destruct (JSString.truthy current).
    + change (withoutSpaces " ") with ""%string.
      cbn [String.append]. rewrite <- ?string_append_assoc. reflexivity.
    + change (withoutSpaces "") with ""%string.
      cbn [String.append]. rewrite <- ?string_append_assoc. reflexivity.
Qed.

Lemma wrapFold_chars c w words :
  Forall (fun word => withoutSpaces word = word) words ->
  forall st,
    let st' := fold_left (wrapStep measureText c w) words st in
    withoutSpaces (joinAll (fst st' ++ [snd st']))
    = (withoutSpaces (joinAll (fst st ++ [snd st])) ++ joinAll words)%string.
Proof.
  induction 1 as [|word words Hw _ IH]; intros st; cbn [fold_left].
  - cbn [joinAll fold_right]. rewrite append_empty_r. reflexivity.
  - cbv zeta in *. rewrite IH.
    rewrite (wrapStep_chars c w st word Hw).
    cbn [joinAll fold_right]. rewrite string_append_assoc. reflexivity.
Qed.

Lemma wrapStep_allowed c w words st word :
  In word words ->
  Forall (lineAllowed measureText c w words) (fst st) ->
  lineAllowed measureText c w words (snd st) ->
  let st' := wrapStep measureText c w st word in
  Forall (lineAllowed measureText c w words) (fst st')
  /\ lineAllowed measureText c w words (snd st').
Proof.
  intros Hin Hl Hc. destruct st as [lines current]. unfold wrapStep.
  cbn [fst snd] in *.
  destruct (JS.gt _ _) eqn:E; cbn [fst snd].
  - split.
    + apply Forall_app. split; [exact Hl|]. constructor; [exact Hc|].
      constructor.
    + right. left. exact Hin.
  - split; [exact Hl|]. left. apply JSFacts.gt_false in E. exact E.
Qed.

Lemma wrapFold_allowed c w words rest :
  incl rest words ->
  forall st,
    Forall (lineAllowed measureText c w words) (fst st) ->
    lineAllowed measureText c w words (snd st) ->
    let st' := fold_left (wrapStep measureText c w) rest st in
    Forall (lineAllowed measureText c w words) (fst st')
    /\ lineAllowed measureText c w words (snd st').
Proof.
  induction rest as [|word rest IH]; intros Hincl st Hl Hc;
    cbn [fold_left].
  - split; assumption.
  - destruct (wrapStep_allowed c w words st word
                (Hincl word (or_introl eq_refl)) Hl Hc) as (Hl' & Hc').
    apply IH; [|exact Hl'|exact Hc'].
    intros x Hx. apply Hincl. right. exact Hx.
Qed.

(** X18.  The word wrap of an override text loses nothing and cuts only
    at spaces: the lines put together hold the text's characters other
    than spaces, in order; and a line is wider than the panel less its
    40-pixel margin only when it is a single word of the text (the
    first line is empty when the first word is already too wide). *)
Theorem word_wrap_keeps_text (c : Canvas.Ctx) (w : R) (displayText : string) :
  withoutSpaces (joinAll (wrapLines measureText c w displayText))
  = withoutSpaces displayText
  /\ Forall (lineAllowed measureText c w (JSString.split displayText))
       (wrapLines measureText c w displayText).
Proof.
  unfold wrapLines. cbv zeta.
  destruct (split_joinAll displayText) as (Hj & Hw).
  pose proof (wrapFold_chars c w _ Hw ([], ""%string)) as Hc.
  pose proof (wrapFold_allowed c w (JSString.split displayText)
                (JSString.split displayText) (incl_refl _)
                ([], ""%string)) as Ha.
  cbv zeta in Hc, Ha.
  destruct (fold_left (wrapStep measureText c w)
              (JSString.split displayText) ([], ""%string))
    as [lines current].
  cbn [fst snd] in Hc, Ha. split.
  - rewrite Hc. cbn [app joinAll fold_right withoutSpaces String.append].
    rewrite Hj. reflexivity.
  - destruct Ha as (Hl & Hcur).
    + constructor.
    + right. right. reflexivity.
    + apply Forall_app. split; [exact Hl|].
      constructor; [exact Hcur|constructor].
Qed.

End WordWrap.

Section TextBranch.

Variable measureText : string -> string -> R.

Import Canvas.

Lemma wrapLines_font_only c1 c2 w text :
  font (state c1) = font (state c2) ->
  wrapLines measureText c1 w text = wrapLines measureText c2 w text.
Proof.
  intros Hf. unfold wrapLines. cbv zeta.
  assert (E : forall words st,
             fold_left (wrapStep measureText c1 w) words st
             = fold_left (wrapStep measureText c2 w) words st).
  { induction words as [|word words IH]; intros st; cbn [fold_left].
    - reflexivity.
    - rewrite IH. f_equal. unfold wrapStep. rewrite Hf. reflexivity. }
  rewrite E. reflexivity.
Qed.

(** X19.  An override text replaces the expression: whatever the
    expression and the time, the call paints the background and then
    one text mark for each wrapped line and nothing else; every line
    is centred on the panel's vertical axis and the block of lines,
    32 pixels apart, is centred on its horizontal axis. *)
Theorem text_overrides_expression
    (expr color text : string) (time : R) (face : Face.t) :
  JSString.truthy text = true ->
  neutral (state (Face.faceCtx face)) ->
  let w := width (Face.faceCtx face) in
  let h := height (Face.faceCtx face) in
  let lines :=
    wrapLines measureText
      (setFont "bold 28px Inter, sans-serif" (Face.faceCtx face)) w text in
  raster (Face.faceCtx
            (drawFaceLocal measureText expr color (Some text) time face))
  = Solid "#0a0a1a"
    :: map (textLineMark w h (List.length lines) color
              (mkCompositing 1 "source-over" color 20 []))
         (combine (seq 0 (List.length lines)) lines).
Proof.
  intros Ht Hn. destruct face as [[w h st sv p r] n].
  cbn [Face.faceCtx state width height] in *. cbv zeta.
  unfold drawFaceLocal. cbn [Face.faceCtx width height JSString.truthyOpt].
  rewrite Ht. cbn [Face.faceCtx].
  rewrite background_replaces by assumption.
  destruct st as [f1 s1 sc1 sbl1 lw1 lc1 fo1 ta1 tb1 ga1 go1 tr1].
  destruct Hn as (Ha & Ho & Htr).
  cbn [globalAlpha globalCompositeOperation transform] in *. subst.
  unfold drawText. cbv zeta.
  match goal with
  | |- context [fillLines ?w ?y ?lh ?i ?ls ?c] =>
      destruct (fillLines_frame w y lh ls i c) as (_ & _ & _ & E4);
      rewrite E4; clear E4
  end.
  match goal with
  | |- context [wrapLines measureText ?c1 w text] =>
      rewrite (wrapLines_font_only c1
                 (setFont "bold 28px Inter, sans-serif"
                    (mkCtx w h
                       (mkDrawState f1 s1 sc1 sbl1 lw1 lc1 fo1 ta1 tb1 1
                          "source-over" []) sv p r)) w text)
        by reflexivity
  end.
  set (lines := wrapLines measureText _ w text).
  lazy beta iota zeta delta
    [raster paint setFillStyle setStrokeStyle setShadowColor
     setShadowBlur setLineWidth setLineCap setFont setTextAlign
     setTextBaseline withState state saved width height path
     fillStyle strokeStyle shadowColor shadowBlur lineWidth lineCap
     font textAlign textBaseline compositing
     globalAlpha globalCompositeOperation transform app].
  f_equal. apply map_ext. intros [k line].
  unfold textLineMark. cbn [fst snd].
  f_equal. lra.
Qed.

End TextBranch.

(** "Hello world" on the new panel, while the expression is "angry". *)
Lemma text_overrides_expression_witness :
  let face := Face.created in
  let w := Canvas.width (Face.faceCtx face) in
  let h := Canvas.height (Face.faceCtx face) in
  let lines :=
    wrapLines monospace14
      (Canvas.setFont "bold 28px Inter, sans-serif" (Face.faceCtx face))
      w "Hello world" in
  Canvas.raster
    (Face.faceCtx
       (drawFaceLocal monospace14 "angry" "#ff4444" (Some "Hello world"%string)
          0 face))
  = Canvas.Solid "#0a0a1a"
    :: map (textLineMark w h (List.length lines) "#ff4444"
              (Canvas.mkCompositing 1 "source-over" "#ff4444" 20 []))
         (combine (seq 0 (List.length lines)) lines).
Proof.
  apply (text_overrides_expression monospace14 "angry" "#ff4444"
           "Hello world" 0 Face.created).
  - reflexivity.
  - apply created_in_order.
Defined.

(* ================================================================== *)
(** * Further properties: keyboard, buttons and voice *)
(* ================================================================== *)

Lemma keyMapAt_names code action :
  keyMapAt code = Some action ->
  In action ["forward"; "backward"; "turnLeft"; "turnRight"; "headLeft";
             "headRight"]%string.
Proof.
  unfold keyMapAt, keyMap. cbn [find fst snd].
  repeat match goal with
         | |- context [String.eqb ?k code] => destruct (String.eqb k code)
         end;
    cbn [option_map snd]; intros H; try discriminate H;
    injection H as <-; cbn [In]; tauto.
Qed.

Lemma get_set_same action value a :
  In action ["forward"; "backward"; "turnLeft"; "turnRight"; "headLeft";
             "headRight"]%string ->
  getAction action (setAction action value a) = Some value.
Proof.
  cbn [In]. intros [<-|[<-|[<-|[<-|[<-|[<-|[]]]]]]]; reflexivity.
Qed.

Lemma get_set_other action other value a :
  other <> action ->
  getAction other (setAction action value a) = getAction other a.
Proof.
  intros Hne. unfold setAction.
  repeat match goal with
         | |- context [String.eqb action ?k] =>
             destruct (String.eqb_spec action k)
         end; try reflexivity; subst action; unfold getAction;
  repeat match goal with
         | |- context [String.eqb other ?k] =>
             destruct (String.eqb_spec other k)
         end; try reflexivity; try contradiction; try discriminate.
Qed.

Lemma truthy_name action :
  In action ["forward"; "backward"; "turnLeft"; "turnRight"; "headLeft";
             "headRight"]%string ->
  JSString.truthy action = true.
Proof.
  cbn [In]. intros [<-|[<-|[<-|[<-|[<-|[<-|[]]]]]]]; reflexivity.
Qed.

Lemma keyRun_snoc events e a :
  keyRun (events ++ [e]) a = keyStep (keyRun events a) e.
Proof. unfold keyRun. rewrite fold_left_app. reflexivity. Qed.

(** X20.  A flag follows the last event of any key bound to its action:
    a key press raises it and a key release lowers it whatever other
    keys bound to the same action are still held (the handlers keep no
    count), and neither touches the flag of another action; and the
    press of a bound key has its default action prevented. *)
Theorem key_flags_follow_last_event
    (events : list KeyEvent) (code action : string) (a : Actions.t) :
  keyMapAt code = Some action ->
  getAction action (keyRun (events ++ [KeyDown code]) a) = Some true
  /\ getAction action (keyRun (events ++ [KeyUp code]) a) = Some false
  /\ (forall other, other <> action ->
        getAction other (keyRun (events ++ [KeyDown code]) a)
        = getAction other (keyRun events a)
        /\ getAction other (keyRun (events ++ [KeyUp code]) a)
           = getAction other (keyRun events a))
  /\ snd (handleKeyDown code (keyRun events a)) = true.
Proof.
  intros Hk. pose proof (keyMapAt_names code action Hk) as Hin.
  pose proof (truthy_name action Hin) as Ht.
  rewrite !keyRun_snoc. unfold keyStep, handleKeyDown, handleKeyUp.
  rewrite Hk. cbn [JSString.truthyOpt]. rewrite Ht. cbn [fst snd].
  split; [apply get_set_same; exact Hin|].
  split; [apply get_set_same; exact Hin|].
  split; [|reflexivity].
  intros other Hne. split; apply get_set_other; exact Hne.
Qed.

(** W and the up arrow held together, then W released. *)
Lemma key_flags_follow_last_event_witness :
  let events := [KeyDown "KeyW"; KeyDown "ArrowUp"] in
  getAction "forward" (keyRun (events ++ [KeyDown "KeyW"]) Actions.none)
  = Some true
  /\ getAction "forward" (keyRun (events ++ [KeyUp "KeyW"]) Actions.none)
     = Some false
  /\ (forall other, other <> "forward"%string ->
        getAction other (keyRun (events ++ [KeyDown "KeyW"]) Actions.none)
        = getAction other (keyRun events Actions.none)
        /\ getAction other (keyRun (events ++ [KeyUp "KeyW"]) Actions.none)
           = getAction other (keyRun events Actions.none))
  /\ snd (handleKeyDown "KeyW" (keyRun events Actions.none)) = true.
Proof.
  intros events.
  apply (key_flags_follow_last_event events "KeyW" "forward" Actions.none).
  reflexivity.
Defined.

Lemma handleVoiceCommand_oneTimer command duration v :
  oneTimer v -> oneTimer (handleVoiceCommand command duration v).
Proof.
  intros Hv. unfold handleVoiceCommand.
  assert (Hclear :
    let v1 := match Voice.commandTimeoutRef v with
              | Some id =>
                  if Nat.eqb id 0 then v else stopMoving (clearTimeout id v)
              | None => v
              end in
    Voice.timers v1 = []
    /\ Voice.commandTimeoutRef v1 = Voice.commandTimeoutRef v
    /\ (Voice.commandTimeoutRef v = None
        \/ exists id, id <> 0%nat /\ Voice.commandTimeoutRef v = Some id)).
  { cbv zeta. destruct Hv as [(Hr & Ht)|(id & Hid & Hr & Ht)]; rewrite Hr.
    - split; [exact Ht|]. split; [exact Hr|left; reflexivity].
    - apply Nat.eqb_neq in Hid. rewrite Hid.
      cbn [stopMoving setRobotAction clearTimeout Voice.timers
           Voice.commandTimeoutRef].
      split; [|split; [exact Hr|right; exists id; split;
                                 [apply Nat.eqb_neq; exact Hid|reflexivity]]].
      destruct Ht as [->|(delay & c & ->)]; cbn [filter fst].
      + reflexivity.
      + rewrite Nat.eqb_refl. reflexivity. }
  cbv zeta in Hclear.
  set (v1 := match Voice.commandTimeoutRef v with
             | Some id =>
                 if Nat.eqb id 0 then v else stopMoving (clearTimeout id v)
             | None => v
             end) in *.
  destruct Hclear as (Ht1 & Hr1 & Href).
  destruct (String.eqb command "stop").
  - unfold oneTimer.
    cbn [stopMoving setRobotAction Voice.timers Voice.commandTimeoutRef].
    rewrite Ht1, Hr1.
    destruct Href as [Hn|(id & Hid & Hs)].
    + left. split; [exact Hn|reflexivity].
    + right. exists id. split; [exact Hid|]. split; [exact Hs|].
      left. reflexivity.
  - right. exists (S (Voice.lastTimerId (setRobotAction command true v1))).
    split; [discriminate|].
    cbn [Voice.commandTimeoutRef Voice.timers setRobotAction
         Voice.lastTimerId].
    split; [reflexivity|]. right. rewrite Ht1. cbn [app].
    eexists. eexists. reflexivity.
Qed.

Lemma timerFires_oneTimer id v :
  oneTimer v ->
  oneTimer (timerFires id v)
  /\ (Voice.commandTimeoutRef v <> Some id -> timerFires id v = v).
Proof.
  intros Hv. unfold timerFires.
  destruct Hv as [(Hr & Ht)|(id0 & Hid & Hr & [Ht|(delay & c & Ht)])];
    rewrite Ht; cbn [find fst].
  - split; [left; split; assumption|reflexivity].
  - split; [right; exists id0; auto|reflexivity].
  - destruct (Nat.eqb_spec id0 id) as [E|E].
    + subst id0. split.
      * right. exists id. split; [exact Hid|].
        cbn [setRobotAction clearTimeout Voice.commandTimeoutRef
             Voice.timers].
        split; [exact Hr|]. left. rewrite Ht. cbn [filter fst].
        rewrite Nat.eqb_refl. reflexivity.
      * intros Hne. contradiction.
    + split; [|reflexivity]. right. exists id0.
      split; [exact Hid|]. split; [exact Hr|]. right.
      exists delay, c. exact Ht.
Qed.

Lemma voiceStep_oneTimer v e : oneTimer v -> oneTimer (voiceStep v e).
Proof.
  intros Hv. destruct e as [command duration|id|action value];
    cbn [voiceStep].
  - apply handleVoiceCommand_oneTimer. exact Hv.
  - apply timerFires_oneTimer. exact Hv.
  - exact Hv.
Qed.

Lemma voiceRun_oneTimer events :
  forall v, oneTimer v -> oneTimer (voiceRun events v).
Proof.
  unfold voiceRun. induction events as [|e events IH]; intros v Hv;
    cbn [fold_left].
  - exact Hv.
  - apply IH. apply voiceStep_oneTimer. exact Hv.
Qed.

Lemma initial_oneTimer a : oneTimer (Voice.initial a).
Proof. left. split; reflexivity. Qed.

(** X21.  Whatever voice commands, timer callbacks and button presses
    the page has seen, at most one stop timer is pending and it is the
    one of the last command; so the timer of a command that has been
    superseded, or stopped, never fires: running the callback of any
    other timer changes nothing. *)
Theorem voice_keeps_one_timer
    (events : list VoiceEvent) (a : option Actions.t) :
  let v := voiceRun events (Voice.initial a) in
  oneTimer v
  /\ (List.length (Voice.timers v) <= 1)%nat
  /\ (forall id, Voice.commandTimeoutRef v <> Some id ->
                 timerFires id v = v).
Proof.
  cbv zeta.
  pose proof (voiceRun_oneTimer events _ (initial_oneTimer a)) as Hv.
  split; [exact Hv|]. split.
  - destruct Hv as [(_ & ->)|(id & _ & _ & [->|(d & c & ->)])];
      cbn [List.length]; lia.
  - intros id. apply timerFires_oneTimer. exact Hv.
Qed.

Lemma voiceStep_mounted v e a :
  Voice.robotActions v = Some a ->
  exists a', Voice.robotActions (voiceStep v e) = Some a'.
Proof.
  intros Ha. destruct v as [ra ref timers last].
  cbn [Voice.robotActions] in Ha. subst ra.
  destruct e as [command duration|id|action value]; cbn [voiceStep].
  - unfold handleVoiceCommand. cbn [Voice.commandTimeoutRef].
    destruct ref as [id|]; [destruct (Nat.eqb id 0)|];
      destruct (String.eqb command "stop");
      cbn [stopMoving setRobotAction clearTimeout Voice.robotActions
           option_map]; eexists; reflexivity.
  - unfold timerFires. cbn [Voice.timers].
    destruct (find _ timers) as [[i [d c]]|];
      cbn [setRobotAction clearTimeout Voice.robotActions option_map];
      eexists; reflexivity.
  - cbn [setRobotAction Voice.robotActions option_map].
    eexists; reflexivity.
Qed.

Lemma voiceRun_mounted events :
  forall v a, Voice.robotActions v = Some a ->
    exists a', Voice.robotActions (voiceRun events v) = Some a'.
Proof.
  unfold voiceRun. induction events as [|e events IH]; intros v a Ha;
    cbn [fold_left].
  - exists a. exact Ha.
  - destruct (voiceStep_mounted v e a Ha) as (a' & Ha').
    apply (IH _ a'). exact Ha'.
Qed.

Lemma stopDuration_tool command k duration :
  k <> 0 -> (if includes "turn" command then 500 else 1000) = k ->
  stopDuration command (Some (JS.orElse duration k))
  = stopDuration command duration.
Proof.
  intros Hk Hd. unfold stopDuration. rewrite Hd. unfold JS.orElse.
  destruct duration as [x|].
  - destruct (Req_dec_T x 0) as [E|E].
    + destruct (Req_dec_T k 0); [contradiction|reflexivity].
    + destruct (Req_dec_T x 0); [contradiction|reflexivity].
  - destruct (Req_dec_T k 0); [contradiction|reflexivity].
Qed.

Lemma stop_effect v a0 duration :
  oneTimer v -> Voice.robotActions v = Some a0 ->
  let v' := handleVoiceCommand "stop" duration v in
  Voice.timers v' = []
  /\ exists a', Voice.robotActions v' = Some a'
       /\ driveFlagsDown a'
       /\ Actions.headLeft a' = Actions.headLeft a0
       /\ Actions.headRight a' = Actions.headRight a0.
Proof.
  intros Hv Ha. destruct v as [ra ref timers last].
  cbn [Voice.robotActions] in Ha. subst ra. unfold oneTimer in Hv.
  cbn [Voice.commandTimeoutRef Voice.timers] in Hv.
  cbv zeta. unfold handleVoiceCommand. cbn [Voice.commandTimeoutRef].
  destruct Hv as [(-> & ->)|(id & Hid & -> & Ht)].
  - cbn. split; [reflexivity|]. eexists. split; [reflexivity|].
    unfold driveFlagsDown. cbn. repeat split; reflexivity.
  - apply Nat.eqb_neq in Hid. rewrite Hid.
    destruct Ht as [->|(d & c & ->)]; cbn; rewrite ?Nat.eqb_refl; cbn;
      (split; [reflexivity|]); eexists; (split; [reflexivity|]);
      unfold driveFlagsDown; cbn; repeat split; reflexivity.
Qed.

Lemma command_effect v a0 command duration :
  oneTimer v -> Voice.robotActions v = Some a0 ->
  In command driveNames ->
  let v' := handleVoiceCommand command duration v in
  let id := S (Voice.lastTimerId v) in
  Voice.timers v' = [(id, (stopDuration command duration, command))]
  /\ Voice.timers (timerFires id v') = []
  /\ exists a' a'',
       Voice.robotActions v' = Some a'
       /\ Voice.robotActions (timerFires id v') = Some a''
       /\ getAction command a' = Some true
       /\ getAction command a'' = Some false
       /\ Actions.headLeft a' = Actions.headLeft a0
       /\ Actions.headRight a' = Actions.headRight a0
       /\ (Voice.commandTimeoutRef v <> None ->
           forall other, In other driveNames -> other <> command ->
                         getAction other a' = Some false).
Proof.
  intros Hv Ha Hin. destruct v as [ra ref timers last].
  cbn [Voice.robotActions] in Ha. subst ra. unfold oneTimer in Hv.
  cbn [Voice.commandTimeoutRef Voice.timers] in Hv.
  cbv zeta. unfold handleVoiceCommand, timerFires.
  cbn [Voice.commandTimeoutRef Voice.lastTimerId].
  unfold driveNames in *. cbn [In] in Hin.
  destruct Hv as [(-> & ->)|(id & Hid & -> & Ht)].
  - destruct Hin as [<-|[<-|[<-|[<-|[]]]]];
      cbn; repeat (rewrite Nat.eqb_refl; cbn);
      (split; [reflexivity|]); (split; [reflexivity|]);
      eexists; eexists; repeat (split; [reflexivity|]);
      intros H; contradiction.
  - apply Nat.eqb_neq in Hid. rewrite Hid.
    destruct Ht as [->|(d & c & ->)];
      destruct Hin as [<-|[<-|[<-|[<-|[]]]]];
      cbn; repeat (rewrite Nat.eqb_refl; cbn);
      (split; [reflexivity|]); (split; [reflexivity|]);
      eexists; eexists; repeat (split; [reflexivity|]);
      intros _ other Ho Hne;
      destruct Ho as [<-|[<-|[<-|[<-|[]]]]];
      try reflexivity; contradiction.
Qed.

Lemma handleVoiceCommand_ref command duration v :
  Voice.commandTimeoutRef (handleVoiceCommand command duration v) = None
  <-> Voice.commandTimeoutRef v = None
      /\ negb (String.eqb command "stop") = false.
Proof.
  unfold handleVoiceCommand.
  assert (E : Voice.commandTimeoutRef
                (match Voice.commandTimeoutRef v with
                 | Some id =>
                     if Nat.eqb id 0 then v
                     else stopMoving (clearTimeout id v)
                 | None => v
                 end) = Voice.commandTimeoutRef v).
  { destruct (Voice.commandTimeoutRef v) as [id|] eqn:Er;
      [destruct (Nat.eqb id 0)|]; exact Er. }
  destruct (String.eqb command "stop"); cbn [negb].
  - cbn [stopMoving setRobotAction Voice.commandTimeoutRef].
    rewrite E.
    split; [intros H; split; [exact H|reflexivity]|intros (H & _); exact H].
  - cbn [Voice.commandTimeoutRef].
    split; [intros H; discriminate H|intros (_ & H); discriminate H].
Qed.

Lemma voiceStep_ref v e :
  Voice.commandTimeoutRef (voiceStep v e) = None
  <-> Voice.commandTimeoutRef v = None /\ commandedBefore [e] = false.
Proof.
  destruct e as [command duration|id|action value];
    cbn [voiceStep commandedBefore existsb orb].
  - rewrite handleVoiceCommand_ref, orb_false_r. reflexivity.
  - unfold timerFires.
    destruct (find _ (Voice.timers v)) as [[i [d c]]|];
      cbn [setRobotAction clearTimeout Voice.commandTimeoutRef];
      split; [intros H; split; [exact H|reflexivity]|intros (H & _); exact H
             |intros H; split; [exact H|reflexivity]|intros (H & _); exact H].
  - cbn [setRobotAction Voice.commandTimeoutRef].
    split; [intros H; split; [exact H|reflexivity]|intros (H & _); exact H].
Qed.

(** [commandTimeoutRef] is null exactly until the first voice command
    other than "stop". *)
Lemma voiceRun_ref events :
  forall v,
    Voice.commandTimeoutRef (voiceRun events v) = None
    <-> Voice.commandTimeoutRef v = None /\ commandedBefore events = false.
Proof.
  unfold voiceRun. induction events as [|e events IH]; intros v;
    cbn [fold_left].
  - cbn [commandedBefore existsb]. tauto.
  - rewrite IH, voiceStep_ref. unfold commandedBefore.
    cbn [existsb]. rewrite orb_false_r, orb_false_iff. tauto.
Qed.

Lemma first_command_effect v a0 command duration :
  Voice.commandTimeoutRef v = None -> Voice.robotActions v = Some a0 ->
  command <> "stop"%string ->
  Voice.robotActions (handleVoiceCommand command duration v)
  = Some (setAction command true a0).
Proof.
  intros Hr Ha Hc. unfold handleVoiceCommand. rewrite Hr.
  apply String.eqb_neq in Hc. rewrite Hc.
  cbn [setRobotAction Voice.robotActions]. rewrite Ha. reflexivity.
Qed.

(** X22.  A tool call of the voice agent, in any state the page can be
    in: ["robot_stop"] lowers the four drive flags and leaves no timer
    pending; a drive tool raises its flag and leaves exactly one timer,
    whose callback lowers the flag again; it lowers the other three
    drive flags when a voice command other than "stop" has been handled
    before (that is what sets [commandTimeoutRef]), and otherwise
    leaves every other flag as it is, a held button's included; the
    timer's delay is the given duration or, for none or zero, 1000 ms
    for a move and 500 ms for a turn, the tool's default and the page's
    being the same; the head flags are never touched. *)
Theorem voice_tool_effect
    (events : list VoiceEvent) (a : Actions.t)
    (tool : string) (duration : option R)
    (command : string) (d : option R) :
  clientTool tool duration = Some (command, d) ->
  let v := voiceRun events (Voice.initial (Some a)) in
  let v' := handleVoiceCommand command d v in
  exists a0 a',
    Voice.robotActions v = Some a0 /\ Voice.robotActions v' = Some a'
    /\ Actions.headLeft a' = Actions.headLeft a0
    /\ Actions.headRight a' = Actions.headRight a0
    /\ (command = "stop"%string ->
        Voice.timers v' = [] /\ driveFlagsDown a')
    /\ (command <> "stop"%string ->
        getAction command a' = Some true
        /\ (commandedBefore events = true ->
            forall other, In other driveNames -> other <> command ->
                          getAction other a' = Some false)
        /\ (commandedBefore events = false ->
            forall other, other <> command ->
                          getAction other a' = getAction other a0)
        /\ exists id a'',
             Voice.timers v'
             = [(id, (stopDuration command duration, command))]
             /\ Voice.timers (timerFires id v') = []
             /\ Voice.robotActions (timerFires id v') = Some a''
             /\ getAction command a'' = Some false).
Proof.
  intros Hc. cbv zeta.
  pose proof (voiceRun_oneTimer events _ (initial_oneTimer (Some a))) as Hv.
  destruct (voiceRun_mounted events (Voice.initial (Some a)) a eq_refl)
    as (a0 & Ha0).
  set (v := voiceRun events (Voice.initial (Some a))) in *.
  unfold clientTool in Hc.
  assert (Hcases :
    (command = "stop"%string /\ d = None)
    \/ (In command driveNames
        /\ stopDuration command d = stopDuration command duration)).
  { repeat match type of Hc with
           | context [String.eqb tool ?k] => destruct (String.eqb tool k)
           end; try discriminate Hc; injection Hc as <- <-.
    - right. split; [cbn; tauto|].
      apply stopDuration_tool; [lra|reflexivity].
    - right. split; [cbn; tauto|].
      apply stopDuration_tool; [lra|reflexivity].
    - right. split; [cbn; tauto|].
      apply stopDuration_tool; [lra|reflexivity].
    - right. split; [cbn; tauto|].
      apply stopDuration_tool; [lra|reflexivity].
    - left. split; reflexivity. }
  destruct Hcases as [(-> & ->)|(Hin & Hd)].
  - destruct (stop_effect v a0 None Hv Ha0) as (Ht & a' & Ha' & Hdown & H1 & H2).
    exists a0, a'. split; [exact Ha0|]. split; [exact Ha'|].
    split; [exact H1|]. split; [exact H2|]. split.
    + intros _. split; [exact Ht|exact Hdown].
    + intros H. exfalso. apply H. reflexivity.
  - destruct (command_effect v a0 command d Hv Ha0 Hin)
      as (Ht & Hf & a' & a'' & Ha' & Ha'' & Hg & Hg' & H1 & H2 & Ho).
    exists a0, a'. split; [exact Ha0|]. split; [exact Ha'|].
    split; [exact H1|]. split; [exact H2|]. split.
    + intros ->. exfalso. unfold driveNames in Hin. cbn [In] in Hin.
      destruct Hin as [H|[H|[H|[H|[]]]]]; discriminate H.
    + intros Hns. split; [exact Hg|].
      pose proof (voiceRun_ref events (Voice.initial (Some a))) as Href.
      fold v in Href. cbn [Voice.initial Voice.commandTimeoutRef] in Href.
      split; [|split].
      * intros Hcb. apply Ho. intros Hn. apply Href in Hn.
        destruct Hn as (_ & Hn). rewrite Hcb in Hn. discriminate Hn.
      * intros Hcb other Hne.
        assert (Hr : Voice.commandTimeoutRef v = None)
          by (apply Href; split; [reflexivity|exact Hcb]).
        rewrite (first_command_effect v a0 command d Hr Ha0 Hns) in Ha'.
        injection Ha' as <-. apply get_set_other. exact Hne.
      * exists (S (Voice.lastTimerId v)), a''.
        rewrite <- Hd. split; [exact Ht|]. split; [exact Hf|].
        split; [exact Ha''|exact Hg'].
Qed.

(** "Turn left" with no duration, after "move forward" for 2 s. *)
Lemma voice_tool_effect_witness :
  let v := voiceRun [Command "forward" (Some 2000)]
             (Voice.initial (Some Actions.none)) in
  let v' := handleVoiceCommand "turnLeft" (Some (JS.orElse None 500)) v in
  exists a0 a',
    Voice.robotActions v = Some a0 /\ Voice.robotActions v' = Some a'
    /\ Actions.headLeft a' = Actions.headLeft a0
    /\ Actions.headRight a' = Actions.headRight a0
    /\ ("turnLeft"%string = "stop"%string ->
        Voice.timers v' = [] /\ driveFlagsDown a')
    /\ ("turnLeft"%string <> "stop"%string ->
        getAction "turnLeft" a' = Some true
        /\ (commandedBefore [Command "forward" (Some 2000)] = true ->
            forall other, In other driveNames ->
                          other <> "turnLeft"%string ->
                          getAction other a' = Some false)
        /\ (commandedBefore [Command "forward" (Some 2000)] = false ->
            forall other, other <> "turnLeft"%string ->
                          getAction other a' = getAction other a0)
        /\ exists id a'',
             Voice.timers v'
             = [(id, (stopDuration "turnLeft" None, "turnLeft"%string))]
             /\ Voice.timers (timerFires id v') = []
             /\ Voice.robotActions (timerFires id v') = Some a''
             /\ getAction "turnLeft" a'' = Some false).
Proof.
  apply (voice_tool_effect [Command "forward" (Some 2000)] Actions.none
           "robot_turn_left" None "turnLeft" (Some (JS.orElse None 500))).
  reflexivity.
Defined.

(** * The same blocks in binary64 arithmetic

    The theorems above read JavaScript numbers as real numbers.  The
    facts below evaluate the embedding of the same source lines over
    binary64 floats ([Double]), where each operation rounds: they show
    which of the exact statements the program's own arithmetic keeps
    and which it misses by a rounding error. *)
Module DoubleFacts.
Import Floats.
#[local] Set Warnings "-inexact-float".
Local Open Scope float_scope.

(** The robot's effective radius and the barrel's reach are the
    binary64 numbers 0.6 and 1.1. *)
Lemma effective_radius_double :
  Double.ROBOT_RADIUS + Double.COLLISION_PADDING = 0.6
  /\ Double.ROBOT_RADIUS + Double.COLLISION_PADDING + 0.5 = 1.1.
Proof. split; vm_compute; reflexivity. Qed.


(** Every point for which the pass computes distance 0.3 is reported as
    a collision and moved along its own offset from the centre by the
    rounded difference of 1.1 and 0.3; how far from the centre that
    leaves it depends on the rounding of the quotient, the product and
    the sum. *)
Lemma single_obstacle_push_double (x z : float) :
  Double.distanceBetween x z 0 0 = 0.3 ->
  Double.checkObjectCollision (Some [Double.barrelAtOrigin]) x z
  = Double.Outcome.mk (x + (x - 0) / 0.3 * (1.1 - 0.3))
      (z + (z - 0) / 0.3 * (1.1 - 0.3)) true.
Proof.
  unfold Double.distanceBetween. cbv zeta. intros H.
  unfold Double.checkObjectCollision, Double.barrelAtOrigin.
  cbn [fold_left]. unfold Double.objectLoopBody.
  cbn [Double.Collidable.type Double.Collidable.radius Double.objX
       Double.objZ Double.Collidable.x Double.Collidable.z
       Double.Outcome.x Double.Outcome.z].
  change (String.eqb "barrel" "wall") with false. cbv iota zeta.
  rewrite H.
  change (Double.orElse (Some 0.5) 0.5) with 0.5.
  change (Double.ROBOT_RADIUS + Double.COLLISION_PADDING + 0.5) with 1.1.
  change ((0.3 <? 1.1) && (0.001 <? 0.3))%bool with true.
  cbv iota. reflexivity.
Qed.

(** Resolving twice in binary64.  The single barrel stands clear of
    everything, yet
    resolving the resolved point again moves it by a rounding error and
    reports a collision: the first pass left the point where the
    computed distance is just below the reach. *)
Lemma resolve_twice_moves_in_doubles :
  let scene := Some [Double.barrelAtOrigin] in
  let once := Double.resolveCollisions scene Double.nearX Double.nearZ in
  let twice :=
    Double.resolveCollisions scene (Double.Outcome.x once)
      (Double.Outcome.z once) in
  once = Double.Outcome.mk (-1.045069851367231) 0.34326229877933534 true
  /\ twice
     = Double.Outcome.mk (-1.0450698513672312) 0.3432622987793354 true
  /\ (Double.Outcome.x twice =? Double.Outcome.x once) = false.
Proof. cbv zeta. repeat split; vm_compute; reflexivity. Qed.

(** Resolving twice in binary64.  The two barrels too narrow for the
    robot send the
    point back and forth in binary64 as they do in exact arithmetic. *)
Lemma resolve_twice_swings_in_doubles :
  let scene := Some [Double.barrelAtOrigin; Double.barrelAtTwo] in
  let once := Double.resolveCollisions scene 0.95 0 in
  let twice :=
    Double.resolveCollisions scene (Double.Outcome.x once)
      (Double.Outcome.z once) in
  once = Double.Outcome.mk 1.05 0 true
  /\ twice = Double.Outcome.mk 0.95 0 true.
Proof. cbv zeta. split; vm_compute; reflexivity. Qed.

(** Coasting in binary64.  With no drive flag set and frames of 0.1 s, the
    velocity block takes 0.15 to -0.15000000000000005 and that back to
    0.15: the friction step 0.3 is wider than the window of 0.01 on
    either side of zero, and the velocity is never zero. *)
Lemma coasting_rocks_in_doubles (n : nat) :
  Nat.iter n (Double.stepVelocity 0 0.1) 0.15
  = if Nat.even n then 0.15 else -0.15000000000000005.
Proof.
  induction n as [|n IH]; [reflexivity|].
  rewrite Nat.iter_succ, IH, Nat.even_succ, <- Nat.negb_even.
  destruct (Nat.even n); cbn [negb]; vm_compute; reflexivity.
Qed.

(** Coasting in binary64.  Released at full speed with frames of 0.1 s, the
    robot slows for seven frames and then rocks between about 0.1 and
    -0.2 for ever. *)
Lemma full_speed_release_rocks_in_doubles (n : nat) :
  Nat.iter n (Double.stepVelocity 0 0.1)
    (Nat.iter 7 (Double.stepVelocity 0 0.1) Double.PHYSICS.maxSpeed)
  = if Nat.even n then 0.099999999999999867 else -0.20000000000000018.
Proof.
  induction n as [|n IH]; [vm_compute; reflexivity|].
  rewrite Nat.iter_succ, IH, Nat.even_succ, <- Nat.negb_even.
  destruct (Nat.even n); cbn [negb]; vm_compute; reflexivity.
Qed.

(** Coasting in binary64.  At 60 frames a second a velocity of 0.03, inside
    the working range, rocks between 0.03 and -0.020000000000000004. *)
Lemma slow_coasting_rocks_in_doubles (n : nat) :
  Nat.iter n (Double.stepVelocity 0 Double.sixtieth) 0.03
  = if Nat.even n then 0.03 else -0.020000000000000004.
Proof.
  induction n as [|n IH]; [reflexivity|].
  rewrite Nat.iter_succ, IH, Nat.even_succ, <- Nat.negb_even.
  destruct (Nat.even n); cbn [negb]; vm_compute; reflexivity.
Qed.

(** The head-velocity block has no window around zero.  With frames of
    0.1 s it multiplies by 0.4 and a head velocity of 2.5 underflows to
    exactly 0 at the 815th frame. *)
Lemma head_velocity_underflows_in_doubles :
  (Nat.iter 814 (Double.stepHeadAngularVel 0 0.1) 2.5 =? 0) = false
  /\ Nat.iter 815 (Double.stepHeadAngularVel 0 0.1) 2.5 = 0.
Proof. split; vm_compute; reflexivity. Qed.

(** At 60 frames a second the same block multiplies by a number just
    above 0.9, and from 2.5 the head velocity comes to rest at
    [Double.headRest], which rounding maps to itself: it is never zero. *)
Lemma head_velocity_rests_above_zero_in_doubles (n : nat) :
  Nat.iter n (Double.stepHeadAngularVel 0 Double.sixtieth)
    (Nat.iter (71 * 100) (Double.stepHeadAngularVel 0 Double.sixtieth) 2.5)
  = Double.headRest
  /\ (Double.headRest =? 0) = false.
Proof.
  split; [|vm_compute; reflexivity].
  induction n as [|n IH]; [vm_compute; reflexivity|].
  rewrite Nat.iter_succ, IH. vm_compute. reflexivity.
Qed.

End DoubleFacts.
